(** * OntoEmma: entity matching between two knowledge bases

    A shallow embedding of the feature generator ([FeatureGenerator.py]),
    of the alignment orchestrator ([OntoEmma.py]) and of the sampling step
    of the dataset reader, together with the properties of the
    specification that concern them.

    Conventions.
    - Python exceptions are the constructors of [exn]; a computation that can
      raise has type [result A].
    - Python [int]s that are lengths are [nat]; the [float]s the feature
      generator and the evaluation compute are quotients of such lengths and
      are modelled by the rational they denote ([Q]); [a / b] raises
      [ZeroDivisionError] when [b] is zero.
    - A [dict] is a [gmap], a [set] is a [gset], token sequences are lists of
      strings. *)

From Stdlib Require Import QArith Ascii String DecimalString.
From stdpp Require Import gmap strings list fin_maps.

Open Scope string_scope.

(** ** Exceptions *)

Inductive exn : Set :=
  | LookupError          (* KeyError of a dict, IndexError of a sequence *)
  | ValueError
  | CsvError             (* csv.Error *)
  | ZeroDivisionError
  | NotImplementedError
  | AssertionError.

Inductive result (A : Type) : Type :=
  | Ok (a : A)
  | Raise (e : exn).
Arguments Ok {A} a.
Arguments Raise {A} e.

Definition result_bind {A B} (f : A → result B) (m : result A) : result B :=
  match m with
  | Ok a => f a
  | Raise e => Raise e
  end.

#[global] Instance result_ret : MRet result := @Ok.
#[global] Instance result_mbind : MBind result := @result_bind.

Definition of_option {A} (e : exn) (o : option A) : result A :=
  match o with
  | Some a => Ok a
  | None => Raise e
  end.

Definition returns {A} (m : result A) : Prop := ∃ a, m = Ok a.

(** [a / b] and [a - b] on numbers; a number is kept in lowest terms, so
    that two equal numbers are the same term. *)
Definition py_div (a b : Q) : result Q :=
  if Qeq_bool b 0 then Raise ZeroDivisionError else Ok (Qred (a / b)).

Definition py_sub (a b : Q) : Q := Qred (a - b).

Definition Qnat (n : nat) : Q := inject_Z (Z.of_nat n).

(** ** String utilities used by the feature generator *)

(** Modelled from the spec: [string_utils.get_jaccard_similarity] is not part
    of the sources at hand.  "|A∩B| / |A∪B|; defined as 1.0 when both sets
    are empty". *)
Definition get_jaccard_similarity (a b : gset string) : Q :=
  if decide (size (a ∪ b) = 0)%nat then 1%Q
  else Qred (Qnat (size (a ∩ b)) / Qnat (size (a ∪ b))).

(** [nltk.metrics.distance.edit_distance] with its default arguments:
    Levenshtein distance over the elements of two sequences, every insertion,
    deletion and substitution costing one. *)
Section edit_distance.
Context {A : Type} `{EqDecision A}.

Fixpoint edit_distance (s1 s2 : list A) {struct s1} : nat :=
  match s1 with
  | [] => length s2
  | x :: s1' =>
      (fix inner (s2 : list A) : nat :=
         match s2 with
         | [] => length s1
         | y :: s2' =>
             let del := S (edit_distance s1' s2) in
             let ins := S (inner s2') in
             let sub := (if decide (x = y) then 0 else 1) + edit_distance s1' s2' in
             del `min` (ins `min` sub)
         end) s2
  end%nat.
End edit_distance.

(** ** The knowledge base *)

Record Entity := {
  research_entity_id : string;
  canonical_name : string;
  aliases : list string;
  relation_ids : list nat;
}.

Record Relation := {
  relation_type : string;
  entity_ids : list string;
}.

Record KnowledgeBase := {
  name : string;
  entities : list Entity;
  relations : gmap nat Relation;
  research_entity_id_to_entity_index : gmap string nat;
}.

(** Modelled from the spec: the class [KnowledgeBase] is not part of the
    sources at hand; it "exposes lookup by id", and the callers test the
    answer for [None]. *)
Definition get_entity_by_research_entity_id
    (kb : KnowledgeBase) (ent_id : string) : option Entity :=
  i ← research_entity_id_to_entity_index kb !! ent_id;
  entities kb !! i.

#[global] Instance result_fmap : FMap result :=
  λ A B f m, match m with Ok a => Ok (f a) | Raise e => Raise e end.

(** A [for] loop whose body updates the loop's variables and may raise. *)
Fixpoint for_each {A S} (body : A → S → result S) (l : list A) (st : S) : result S :=
  match l with
  | [] => Ok st
  | x :: l' => st' ← body x st; for_each body l' st'
  end.

Definition Qlt_bool (x y : Q) : bool := negb (Qle_bool y x).

(** * FeatureGenerator.py *)

Module FeatureGenerator.

Abbreviation tokens := (list string).

(** What [_compute_tokens] returns for one entity, in the order of the list
    it builds. *)
Record TokenSignature := {
  name_tokens : tokens;
  stemmed_tokens : tokens;
  lemmatized_tokens : tokens;
  character_tokens : tokens;
  alias_tokens : list tokens;
  parent_names : gset tokens;
  child_names : gset tokens;
}.

(** A value of the feature dict. *)
Inductive fval : Type :=
  | FBool (b : bool)
  | FNum (q : Q).

Definition SYNONYM_REL_LABELS : list string := ["RL"; "RQ"; "RU"; "SY"].
Definition PARENT_REL_LABELS : list string :=
  ["RB"; "PAR"; "Is a"; "Part of"; "subClassOf"; "is_a"; "part_of"].
Definition CHILD_REL_LABELS : list string :=
  ["RN"; "CHD"; "Has part"; "subClass"; "has_part"].
Definition SIBLING_REL_LABELS : list string := ["SIB"; "RO"].

Section generator.
(** [string_utils], the NLTK tokenizer, stemmer and lemmatizer and
    [constants.NGRAM_SIZE] are collaborators of the class.
    [tokenize_string] stands for the call with [self.tokenizer] and
    [self.STOP], which are fixed at construction. *)
Variable normalize_string : string → string.
Variable tokenize_string : string → tokens.
Variable stem : string → string.
Variable lemmatize : string → string.
Variable get_character_n_grams : string → nat → tokens.
Variable NGRAM_SIZE : nat.

(** The comprehension of [_get_ent_names_from_relations]: what one relation
    contributes to [ent_ids]. *)
Definition ent_ids_of_rel (kb : KnowledgeBase) (rel_types : list string)
    (rel : Relation) : result (list string) :=
  if bool_decide (relation_type rel ∈ rel_types) then
    e1 ← of_option LookupError (entity_ids rel !! 1%nat);
    if bool_decide (is_Some (research_entity_id_to_entity_index kb !! e1))
    then Ok [e1] else Ok []
  else Ok [].

Definition name_of_ent_id (kb : KnowledgeBase) (ent_id : string) : option tokens :=
  ent ← get_entity_by_research_entity_id kb ent_id;
  Some (tokenize_string (normalize_string (canonical_name ent))).

Definition _get_ent_names_from_relations
    (ent : Entity) (kb : KnowledgeBase) (rel_types : list string)
    : result (list tokens) :=
  matching_rels ←
    mapM (λ rel_id, of_option LookupError (relations kb !! rel_id))
         (relation_ids ent);
  ent_ids ← @concat string <$> mapM (ent_ids_of_rel kb rel_types) matching_rels;
  Ok (omap (name_of_ent_id kb) ent_ids).

Definition _compute_tokens (ent : Entity) (kb : KnowledgeBase)
    : result TokenSignature :=
  let name_string := normalize_string (canonical_name ent) in
  let name_tokens := tokenize_string name_string in
  let stemmed_tokens := stem <$> name_tokens in
  let lemmatized_tokens := lemmatize <$> name_tokens in
  let character_tokens := get_character_n_grams name_string NGRAM_SIZE in
  let alias_tokens :=
    (λ a, tokenize_string (normalize_string a)) <$> aliases ent in
  parent_names ← _get_ent_names_from_relations ent kb PARENT_REL_LABELS;
  child_names ← _get_ent_names_from_relations ent kb CHILD_REL_LABELS;
  Ok {| name_tokens := name_tokens;
        stemmed_tokens := stemmed_tokens;
        lemmatized_tokens := lemmatized_tokens;
        character_tokens := character_tokens;
        alias_tokens := alias_tokens;
        parent_names := list_to_set parent_names;
        child_names := list_to_set child_names |}.

(** One of the two loops of [_generate_token_maps]. *)
Definition fill_tokens (kb : KnowledgeBase)
    : list Entity → gmap string TokenSignature → result (gmap string TokenSignature) :=
  for_each (λ ent toks,
    sig ← _compute_tokens ent kb;
    Ok (<[research_entity_id ent := sig]> toks)).

Record t := {
  s_kb : KnowledgeBase;
  t_kb : KnowledgeBase;
  s_tokens : gmap string TokenSignature;
  t_tokens : gmap string TokenSignature;
}.

(** [__init__], which ends with [_generate_token_maps]. *)
Definition init (s_kb t_kb : KnowledgeBase) : result t :=
  s_tokens ← fill_tokens s_kb (entities s_kb) ∅;
  t_tokens ← fill_tokens t_kb (entities t_kb) ∅;
  Ok {| s_kb := s_kb; t_kb := t_kb; s_tokens := s_tokens; t_tokens := t_tokens |}.

(** The body of the two nested loops over the alias token lists; the state
    is [(max_alias_token_jaccard, min_alias_edit_distance)]. *)
Definition alias_pair (s_a_tokens t_a_tokens : tokens) (best : Q * Q)
    : result (Q * Q) :=
  let '(max_alias_token_jaccard, min_alias_edit_distance) := best in
  if bool_decide (s_a_tokens ≠ []) && bool_decide (t_a_tokens ≠ []) then
    let j_ind :=
      get_jaccard_similarity (list_to_set s_a_tokens) (list_to_set t_a_tokens) in
    let max_alias_token_jaccard :=
      if Qlt_bool max_alias_token_jaccard j_ind then j_ind
      else max_alias_token_jaccard in
    e_dist ← py_div (Qnat (edit_distance s_a_tokens t_a_tokens))
                    (Qnat (length s_a_tokens + length t_a_tokens));
    let min_alias_edit_distance :=
      if Qlt_bool e_dist min_alias_edit_distance then e_dist
      else min_alias_edit_distance in
    Ok (max_alias_token_jaccard, min_alias_edit_distance)
  else Ok best.

Definition alias_scan (s_alias_tokens t_alias_tokens : list tokens)
    : Q * Q → result (Q * Q) :=
  for_each (λ s_a_tokens, for_each (alias_pair s_a_tokens) t_alias_tokens)
           s_alias_tokens.

(** The [if]/[else] that [calculate_features] repeats for the name, stemmed,
    lemmatized and character tokens: [same] is the equality flag of the
    two sequences, the result is the pair (Jaccard similarity, inverse edit
    distance). *)
Definition similarity (same : bool) (s_toks t_toks : tokens) (max_changes : nat)
    : result (Q * Q) :=
  if same then Ok (1%Q, 1%Q)
  else
    let j := get_jaccard_similarity (list_to_set s_toks) (list_to_set t_toks) in
    d ← py_div (Qnat (edit_distance s_toks t_toks)) (Qnat max_changes);
    Ok (j, py_sub 1 d).

(** The best alias match: [(max_alias_token_jaccard, min_alias_edit_distance)]. *)
Definition best_alias (has_alias_in_common : bool)
    (s_alias_tokens t_alias_tokens : list tokens) : result (Q * Q) :=
  let max_alias_token_jaccard := 0%Q in
  let min_alias_edit_distance := 1%Q in
  if negb has_alias_in_common
  then alias_scan s_alias_tokens t_alias_tokens
         (max_alias_token_jaccard, min_alias_edit_distance)
  else Ok (max_alias_token_jaccard, min_alias_edit_distance).

(** The two [if has_parents] / [if has_children] blocks. *)
Definition percent_in_common (s_names t_names : gset tokens) : result Q :=
  let has_relatives :=
    bool_decide (0 < size s_names)%nat && bool_decide (0 < size t_names)%nat in
  if has_relatives then
    max_in_common ← py_div (Qnat (size s_names + size t_names)) 2%Q;
    py_div (Qnat (size (s_names ∩ t_names))) max_in_common
  else Ok 0%Q.

Definition calculate_features (self : t) (s_ent_id t_ent_id : string)
    : result (gmap string fval) :=
  s ← of_option LookupError (s_tokens self !! s_ent_id);
  t ← of_option LookupError (t_tokens self !! t_ent_id);
  let features : gmap string fval := ∅ in
  (* boolean features *)
  let has_same_canonical_name := bool_decide (name_tokens s = name_tokens t) in
  let has_same_stemmed_name := bool_decide (stemmed_tokens s = stemmed_tokens t) in
  let has_same_lemmatized_name :=
    bool_decide (lemmatized_tokens s = lemmatized_tokens t) in
  let has_same_char_tokens :=
    bool_decide (character_tokens s = character_tokens t) in
  let has_alias_in_common :=
    bool_decide (0 < size ((list_to_set (alias_tokens s) : gset tokens)
                             ∩ list_to_set (alias_tokens t)))%nat in
  let features := <["has_same_canonical_name" := FBool has_same_canonical_name]> features in
  let features := <["has_same_stemmed_name" := FBool has_same_stemmed_name]> features in
  let features := <["has_same_lemmatized_name" := FBool has_same_lemmatized_name]> features in
  let features := <["has_same_char_tokens" := FBool has_same_char_tokens]> features in
  let features := <["has_alias_in_common" := FBool has_alias_in_common]> features in
  (* jaccard similarity and token edit distance *)
  let max_changes := (length (name_tokens s) + length (name_tokens t))%nat in
  let max_char_changes :=
    (length (character_tokens s) + length (character_tokens t))%nat in
  name_sim ← similarity has_same_canonical_name
                (name_tokens s) (name_tokens t) max_changes;
  let features := <["name_token_jaccard" := FNum name_sim.1]> features in
  let features := <["inverse_name_edit_distance" := FNum name_sim.2]> features in
  stemmed_sim ← similarity has_same_stemmed_name
                   (stemmed_tokens s) (stemmed_tokens t) max_changes;
  let features := <["stemmed_token_jaccard" := FNum stemmed_sim.1]> features in
  let features := <["inverse_stemmed_edit_distance" := FNum stemmed_sim.2]> features in
  lemmatized_sim ← similarity has_same_lemmatized_name
                      (lemmatized_tokens s) (lemmatized_tokens t) max_changes;
  let features := <["lemmatized_token_jaccard" := FNum lemmatized_sim.1]> features in
  let features := <["inverse_lemmatized_edit_distance" := FNum lemmatized_sim.2]> features in
  char_sim ← similarity has_same_char_tokens
                (character_tokens s) (character_tokens t) max_char_changes;
  let features := <["char_token_jaccard" := FNum char_sim.1]> features in
  let features := <["inverse_char_token_edit_distance" := FNum char_sim.2]> features in
  (* best alias match *)
  best ← best_alias has_alias_in_common (alias_tokens s) (alias_tokens t);
  let features := <["max_alias_token_jaccard" := FNum best.1]> features in
  let features :=
    <["inverse_min_alias_edit_distance" := FNum (py_sub 1 best.2)]> features in
  (* any relationships in common *)
  percent_parents_in_common ← percent_in_common (parent_names s) (parent_names t);
  percent_children_in_common ← percent_in_common (child_names s) (child_names t);
  let features := <["percent_parents_in_common" := FNum percent_parents_in_common]> features in
  let features := <["percent_children_in_common" := FNum percent_children_in_common]> features in
  Ok features.

End generator.

(** The signatures that [_compute_tokens] builds: the stemmed and the
    lemmatized tokens are as many as the name tokens. *)
Definition sig_ok (sig : TokenSignature) : Prop :=
  length (stemmed_tokens sig) = length (name_tokens sig)
  ∧ length (lemmatized_tokens sig) = length (name_tokens sig).

(** The second endpoints of the relations of an entity that are of the wanted
    types, in the order of the relation ids. *)
Definition second_endpoints (ent : Entity) (kb : KnowledgeBase)
    (rel_types : list string) : list string :=
  rel_id ← relation_ids ent;
  match relations kb !! rel_id with
  | Some rel =>
      if bool_decide (relation_type rel ∈ rel_types)
      then option_list (entity_ids rel !! 1%nat) else []
  | None => []
  end.

(** Two relations that differ at most in their first endpoint. *)
Definition same_but_first (rel rel' : Relation) : Prop :=
  relation_type rel = relation_type rel'
  ∧ tail (entity_ids rel) = tail (entity_ids rel').

(** The keys of the dict that [calculate_features] returns. *)
Definition feature_names : list string :=
  ["has_same_canonical_name"; "has_same_stemmed_name"; "has_same_lemmatized_name";
   "has_same_char_tokens"; "has_alias_in_common";
   "name_token_jaccard"; "inverse_name_edit_distance";
   "stemmed_token_jaccard"; "inverse_stemmed_edit_distance";
   "lemmatized_token_jaccard"; "inverse_lemmatized_edit_distance";
   "char_token_jaccard"; "inverse_char_token_edit_distance";
   "max_alias_token_jaccard"; "inverse_min_alias_edit_distance";
   "percent_parents_in_common"; "percent_children_in_common"].

(** A relation id that [_get_ent_names_from_relations] can follow for the
    wanted types: it is a key of [kb.relations], and the relation has a
    second endpoint when its type is wanted. *)
Definition relation_ok (kb : KnowledgeBase) (rel_types : list string) (rel_id : nat)
    : bool :=
  match relations kb !! rel_id with
  | Some rel =>
      negb (bool_decide (relation_type rel ∈ rel_types))
      || bool_decide (2 ≤ length (entity_ids rel))%nat
  | None => false
  end.

(** The relation ids of every entity can be followed for the parent and for
    the child labels. *)
Definition relations_ok (kb : KnowledgeBase) : bool :=
  forallb (λ ent,
             forallb (relation_ok kb PARENT_REL_LABELS) (relation_ids ent)
             && forallb (relation_ok kb CHILD_REL_LABELS) (relation_ids ent))
          (entities kb).

(** The normalized edit distance of two alias token lists, as the scan of
    the alias pairs computes it. *)
Definition alias_distance (s_a_tokens t_a_tokens : tokens) : Q :=
  Qred (Qnat (edit_distance s_a_tokens t_a_tokens)
        / Qnat (length s_a_tokens + length t_a_tokens)).

Definition alias_jaccard (s_a_tokens t_a_tokens : tokens) : Q :=
  get_jaccard_similarity (list_to_set s_a_tokens) (list_to_set t_a_tokens).

End FeatureGenerator.

(** * Text files and [csv.reader] *)

Module Csv.

Definition NUL : ascii := "000"%char.
Definition TAB : ascii := "009"%char.
Definition LF : ascii := "010"%char.
Definition CR : ascii := "013"%char.
Definition QUOTE : ascii := "034"%char.

(** Reading a text file opened with [open(path, 'r')]: universal newlines
    turn each of CR LF and CR into LF, and iterating over the file yields its
    lines, each with its terminator. *)
Fixpoint universal_newlines (s : string) : string :=
  match s with
  | EmptyString => EmptyString
  | String c s' =>
      if decide (c = CR) then
        match s' with
        | String c' s'' =>
            if decide (c' = LF) then String LF (universal_newlines s'')
            else String LF (universal_newlines s')
        | EmptyString => String LF EmptyString
        end
      else String c (universal_newlines s')
  end.

Fixpoint split_lines (s : string) : list string :=
  match s with
  | EmptyString => []
  | String c s' =>
      if decide (c = LF) then String c EmptyString :: split_lines s'
      else match split_lines s' with
           | [] => [String c EmptyString]
           | l :: ls => String c l :: ls
           end
  end.

Definition readlines (content : string) : list string :=
  split_lines (universal_newlines content).

(** The parser of [csv.reader(f, delimiter='\t')]: the state machine of the
    [_csv] module for the default dialect (the double quote as quote
    character, doubled quotes, no escape character, not strict).  The states that only an
    escape character reaches are left out. *)
Inductive ParserState : Set :=
  | START_RECORD | START_FIELD | IN_FIELD
  | IN_QUOTED_FIELD | QUOTE_IN_QUOTED_FIELD | EAT_CRNL.

#[global] Instance ParserState_eq_dec : EqDecision ParserState.
Proof. solve_decision. Defined.

Record Reader := {
  state : ParserState;
  field : string;
  fields : list string;
}.

Definition delimiter : ascii := TAB.
Definition field_limit : Z := 131072.

Definition set_state (self : Reader) (st : ParserState) : Reader :=
  {| state := st; field := field self; fields := fields self |}.

Definition parse_reset : Reader :=
  {| state := START_RECORD; field := EmptyString; fields := [] |}.

Definition parse_add_char (self : Reader) (c : ascii) : result Reader :=
  if decide (field_limit ≤ Z.of_nat (String.length (field self)))%Z
  then Raise CsvError
  else Ok {| state := state self;
             field := field self +:+ String c EmptyString;
             fields := fields self |}.

Definition parse_save_field (self : Reader) : Reader :=
  {| state := state self; field := EmptyString;
     fields := (fields self ++ [field self])%list |}.

Definition is_newline (c : ascii) : bool :=
  bool_decide (c = LF) || bool_decide (c = CR).

(** [c] is [None] for the end-of-line mark the reader feeds after the last
    character of each line. *)
Definition start_field (self : Reader) (c : option ascii) : result Reader :=
  match c with
  | None => Ok (set_state (parse_save_field self) START_RECORD)
  | Some ch =>
      if is_newline ch then Ok (set_state (parse_save_field self) EAT_CRNL)
      else if decide (ch = QUOTE) then Ok (set_state self IN_QUOTED_FIELD)
      else if decide (ch = delimiter) then Ok (parse_save_field self)
      else self ← parse_add_char self ch; Ok (set_state self IN_FIELD)
  end.

Definition parse_process_char (self : Reader) (c : option ascii) : result Reader :=
  match state self with
  | START_RECORD =>
      match c with
      | None => Ok self
      | Some ch =>
          if is_newline ch then Ok (set_state self EAT_CRNL)
          else start_field (set_state self START_FIELD) c
      end
  | START_FIELD => start_field self c
  | IN_FIELD =>
      match c with
      | None => Ok (set_state (parse_save_field self) START_RECORD)
      | Some ch =>
          if is_newline ch then Ok (set_state (parse_save_field self) EAT_CRNL)
          else if decide (ch = delimiter)
               then Ok (set_state (parse_save_field self) START_FIELD)
          else parse_add_char self ch
      end
  | IN_QUOTED_FIELD =>
      match c with
      | None => Ok self
      | Some ch =>
          if decide (ch = QUOTE) then Ok (set_state self QUOTE_IN_QUOTED_FIELD)
          else parse_add_char self ch
      end
  | QUOTE_IN_QUOTED_FIELD =>
      match c with
      | None => Ok (set_state (parse_save_field self) START_RECORD)
      | Some ch =>
          if decide (ch = QUOTE)
          then self ← parse_add_char self ch; Ok (set_state self IN_QUOTED_FIELD)
          else if decide (ch = delimiter)
               then Ok (set_state (parse_save_field self) START_FIELD)
          else if is_newline ch
               then Ok (set_state (parse_save_field self) EAT_CRNL)
          else self ← parse_add_char self ch; Ok (set_state self IN_FIELD)
      end
  | EAT_CRNL =>
      match c with
      | None => Ok (set_state self START_RECORD)
      | Some ch => if is_newline ch then Ok self else Raise CsvError
      end
  end.

(** The characters of one line; a NUL character is refused. *)
Fixpoint parse_line (self : Reader) (line : string) : result Reader :=
  match line with
  | EmptyString => Ok self
  | String c line' =>
      if decide (c = NUL) then Raise CsvError
      else self ← parse_process_char self (Some c); parse_line self line'
  end.

(** [for row in csv.reader(lines, delimiter='\t'): body(row)], collecting
    what the body returns.  A record ends with the line after which the
    parser is back in [START_RECORD]; at the end of the input a pending
    record is still returned. *)
Fixpoint for_rows {A} (body : list string → result A)
    (self : Reader) (lines : list string) : result (list A) :=
  match lines with
  | [] =>
      if negb (bool_decide (field self = EmptyString))
         || bool_decide (state self = IN_QUOTED_FIELD)
      then a ← body (fields (parse_save_field self)); Ok [a]
      else Ok []
  | line :: lines' =>
      self ← parse_line self line;
      self ← parse_process_char self None;
      if decide (state self = START_RECORD) then
        a ← body (fields self);
        rest ← for_rows body parse_reset lines';
        Ok (a :: rest)
      else for_rows body self lines'
  end.

Definition reader {A} (body : list string → result A) (content : string)
    : result (list A) :=
  for_rows body parse_reset (readlines content).

(** Every character of a string passes a test. *)
Fixpoint string_forall (P : ascii → bool) (s : string) : bool :=
  match s with
  | EmptyString => true
  | String c s' => P c && string_forall P s'
  end.

(** A character that the reader of a TSV file takes as it is inside a field:
    no tab, no end of line, no NUL. *)
Definition plain_char (c : ascii) : bool :=
  negb (bool_decide (c = TAB) || bool_decide (c = LF)
        || bool_decide (c = CR) || bool_decide (c = NUL)).

(** A field that is read back as it was written: plain characters only, no
    double quote at the start, and within the field size limit. *)
Definition csv_plain (s : string) : bool :=
  string_forall plain_char s
  && match s with
     | String c _ => negb (bool_decide (c = QUOTE))
     | EmptyString => true
     end
  && bool_decide (Z.of_nat (String.length s) ≤ field_limit)%Z.

(** A character that is no end of line. *)
Definition no_newline (c : ascii) : bool := negb (is_newline c).

End Csv.

(** * OntoEmma.py *)

Module OntoEmma.

Abbreviation features := (gmap string FeatureGenerator.fval).

(** The third component of a mapping of a gold alignment: the TSV loader
    makes it a float, the RDF loader leaves the text of the [measure]
    element, which is [None] for an empty element. *)
Inductive measure : Type :=
  | MNone
  | MText (s : string)
  | MFloat (x : Q).

(** The file at [gold_path], by the extension of the path: the text of a
    [.tsv] file, the cells of an [.rdf] file as [lxml] finds them (the two
    [rdf:resource] attributes and the text of [measure]), or a file with
    another extension. *)
Inductive gold_file : Type :=
  | TsvFile (content : string)
  | RdfFile (cells : list (string * string * option string))
  | OtherFile.

Abbreviation prediction := (string * string * Q)%type.
Abbreviation scores := (option Q * option Q * option Q)%type.

Definition tab : string := String Csv.TAB EmptyString.
Definition newline : string := String Csv.LF EmptyString.

(** [sorted(alignment, key=lambda x: x[2], reverse=True)]: descending by
    score, predictions of equal score in their original order. *)
Fixpoint insert_by_score (x : prediction) (l : list prediction) : list prediction :=
  match l with
  | [] => [x]
  | y :: l' => if Qlt_bool x.2 y.2 then y :: insert_by_score x l' else x :: l
  end.

Definition sorted_by_score (alignment : list prediction) : list prediction :=
  foldr insert_by_score [] alignment.

Section orchestrator.
(** [float(s)] on a string ([None] for the ValueError) and [str(x)] of a
    float, as the ["%s"] format applies it. *)
Variable float_of_string : string → option Q.
Variable str_of_float : Q → string.

(** The collaborators of the feature generator. *)
Variable normalize_string : string → string.
Variable tokenize_string : string → list string.
Variable stem : string → string.
Variable lemmatize : string → string.
Variable get_character_n_grams : string → nat → list string.
Variable NGRAM_SIZE : nat.

(** [CandidateSelection(s_kb, t_kb).select_candidates], the classifier
    loaded from [model_path], and the two constants of [constants]. *)
Variable select_candidates : KnowledgeBase → KnowledgeBase → string → list string.
Variable predict_entity_pair : list features → list (list Q).
Variable SCORE_THRESHOLD : Q.
Variable KEEP_TOP_K_CANDIDATES : nat.

Definition tsv_row (row : list string) : result (string * string * measure) :=
  match row with
  | [s_ent; t_ent; label; _] =>
      x ← of_option ValueError (float_of_string label);
      Ok (s_ent, t_ent, MFloat x)
  | _ => Raise ValueError
  end.

Definition _load_alignment_from_tsv (content : string)
    : result (list (string * string * measure)) :=
  Csv.reader tsv_row content.

Definition rdf_cell (cell : string * string * option string)
    : string * string * measure :=
  let '(ent1, ent2, meas) := cell in
  (ent1, ent2, match meas with Some s => MText s | None => MNone end).

(** The loader returns [set(mappings)]; the set is listed without
    repetition. *)
Definition _load_alignment_from_rdf (cells : list (string * string * option string))
    : list (string * string * measure) :=
  rdf_cell <$> remove_dups cells.

Definition load_alignment (gold : gold_file)
    : result (list (string * string * measure)) :=
  match gold with
  | TsvFile content => _load_alignment_from_tsv content
  | RdfFile cells => Ok (_load_alignment_from_rdf cells)
  | OtherFile => Raise NotImplementedError
  end.

(** [score is not None and score != '' and float(score) > 0.0] *)
Definition positive_score (score : measure) : result bool :=
  match score with
  | MNone => Ok false
  | MText s =>
      if bool_decide (s = EmptyString) then Ok false
      else x ← of_option ValueError (float_of_string s); Ok (Qlt_bool 0 x)
  | MFloat x => Ok (Qlt_bool 0 x)
  end.

Definition gold_positives_of (mappings : list (string * string * measure))
    : result (gset (string * string)) :=
  pairs ← mapM (λ '(s_ent, t_ent, score),
             b ← positive_score score;
             Ok (if b : bool then [(s_ent, t_ent)] else [])) mappings;
  Ok (list_to_set (concat pairs)).

(** One line of the file of missed alignments. *)
Definition missed_line (s_kb t_kb : KnowledgeBase) (p : string * string) : string :=
  let '(s_ent, t_ent) := p in
  match get_entity_by_research_entity_id s_kb s_ent,
        get_entity_by_research_entity_id t_kb t_ent with
  | Some s, Some t =>
      s_ent +:+ tab +:+ t_ent +:+ tab +:+ String.concat "," (aliases s)
            +:+ tab +:+ String.concat "," (aliases t) +:+ newline
  | _, _ => s_ent +:+ tab +:+ t_ent +:+ tab +:+ tab +:+ newline
  end.

(** Returns what is written to [self.missed_file] and the triple
    [(precision, recall, f1_score)]. *)
Definition evaluate_alignment (gold : gold_file) (alignment : list prediction)
    (s_kb t_kb : KnowledgeBase) : result (list string * scores) :=
  mappings ← load_alignment gold;
  gold_positives ← gold_positives_of mappings;
  let alignment_positives : gset (string * string) :=
    list_to_set ((λ '(s_ent, t_ent, score), (s_ent, t_ent)) <$> alignment) in
  let missed := gold_positives ∖ alignment_positives in
  let outf := missed_line s_kb t_kb <$> elements missed in
  if bool_decide (0 < size alignment_positives)%nat then
    precision ← py_div (Qnat (size (alignment_positives ∩ gold_positives)))
                       (Qnat (size alignment_positives));
    recall ← py_div (Qnat (size (alignment_positives ∩ gold_positives)))
                    (Qnat (size gold_positives));
    let f1_score :=
      if Qlt_bool 0 (precision + recall)
      then Some (Qred (2 * precision * recall / (precision + recall)))
      else None in
    Ok (outf, (Some precision, Some recall, f1_score))
  else Ok (outf, (None, None, None)).

Definition tsv_line (p : prediction) : string :=
  let '(s_ent, t_ent, pred) := p in
  s_ent +:+ tab +:+ t_ent +:+ tab +:+ str_of_float pred +:+ tab
        +:+ "OntoEmma" +:+ newline.

(** The text of the file that [_write_alignment_to_tsv] writes. *)
Definition _write_alignment_to_tsv (alignment : list prediction) : string :=
  String.concat EmptyString (tsv_line <$> sorted_by_score alignment).

(** The body of the inner loop of [align]. *)
Definition align_candidate (feat_gen : FeatureGenerator.t) (s_ent_id t_ent_id : string)
    (alignment : list prediction) : result (list prediction) :=
  f ← FeatureGenerator.calculate_features feat_gen s_ent_id t_ent_id;
  let score := predict_entity_pair [f] in
  p ← of_option LookupError (score !! 0%nat ≫= (.!! 1%nat));
  if Qle_bool SCORE_THRESHOLD p
  then Ok (alignment ++ [(s_ent_id, t_ent_id, p)])%list
  else Ok alignment.

Definition align_predictions (feat_gen : FeatureGenerator.t) (s_kb t_kb : KnowledgeBase)
    : result (list prediction) :=
  for_each (λ s_ent,
      let s_ent_id := research_entity_id s_ent in
      for_each (align_candidate feat_gen s_ent_id)
               (take KEEP_TOP_K_CANDIDATES (select_candidates s_kb t_kb s_ent_id)))
    (entities s_kb) [].

(** [align] on two loaded knowledge bases; [gold] is the gold file when
    [gold_path] is given and exists.  Returns the alignment, which goes to
    [write_alignment], and [alignment_scores]. *)
Definition align (s_kb t_kb : KnowledgeBase) (gold : option gold_file)
    : result (list prediction * scores) :=
  feat_gen ← FeatureGenerator.init normalize_string tokenize_string stem lemmatize
               get_character_n_grams NGRAM_SIZE s_kb t_kb;
  alignment ← align_predictions feat_gen s_kb t_kb;
  match gold with
  | Some g =>
      '(_, alignment_scores) ← evaluate_alignment g alignment s_kb t_kb;
      Ok (alignment, alignment_scores)
  | None => Ok (alignment, (None, None, None))
  end.

(** The number a measure stands for, when it is present, not empty and
    parses. *)
Definition float_value (score : measure) : option Q :=
  match score with
  | MNone => None
  | MText s => if bool_decide (s = EmptyString) then None else float_of_string s
  | MFloat x => Some x
  end.

Definition positive (score : measure) : Prop :=
  ∃ x, float_value score = Some x ∧ (0 < x)%Q.

(** A measure on which [float] does not fail: every measure but a text that
    is not empty and does not parse. *)
Definition parses (score : measure) : Prop :=
  match score with
  | MText s => s = EmptyString ∨ is_Some (float_of_string s)
  | _ => True
  end.

(** A prediction that the TSV file holds as it is: plain ids, and a score
    whose text is plain and parses back to the score. *)
Definition tsv_plain (p : prediction) : Prop :=
  Csv.csv_plain p.1.1 = true ∧ Csv.csv_plain p.1.2 = true
  ∧ Csv.csv_plain (str_of_float p.2) = true
  ∧ float_of_string (str_of_float p.2) = Some p.2.

Definition tsv_body (p : prediction) : string :=
  p.1.1 +:+ tab +:+ p.1.2 +:+ tab +:+ str_of_float p.2 +:+ tab +:+ "OntoEmma".

(** The probability of a match that the classifier gives to a pair:
    [score[0][1]]. *)
Definition match_probability (fg : FeatureGenerator.t) (s t : string) (p : Q) : Prop :=
  ∃ f, FeatureGenerator.calculate_features fg s t = Ok f
       ∧ predict_entity_pair [f] !! 0%nat ≫= (.!! 1%nat) = Some p.

End orchestrator.
(** The text of a file of records of tab-separated fields, each record on a
    line of its own. *)
Definition tsv_record (row : list string) : string :=
  String.concat tab row +:+ newline.

Definition tsv_text (rows : list (list string)) : string :=
  String.concat EmptyString (tsv_record <$> rows).

(** A record of plain fields; the record of one empty field is left out,
    its line being the empty line. *)
Definition plain_row (row : list string) : bool :=
  forallb Csv.csv_plain row && negb (bool_decide (row = [EmptyString])).

(** No prediction of the list has a greater score than one before it. *)
Fixpoint descending (l : list prediction) : Prop :=
  match l with
  | [] => True
  | x :: l' => Forall (λ y : prediction, (y.2 <= x.2)%Q) l' ∧ descending l'
  end.

(** The pairs that the loops of [align] visit, in their order. *)
Definition candidate_pairs
    (select_candidates : KnowledgeBase → KnowledgeBase → string → list string)
    (KEEP_TOP_K_CANDIDATES : nat) (s_kb t_kb : KnowledgeBase)
    : list (string * string) :=
  s_ent ← entities s_kb;
  (λ t_ent_id, (research_entity_id s_ent, t_ent_id))
    <$> take KEEP_TOP_K_CANDIDATES
          (select_candidates s_kb t_kb (research_entity_id s_ent)).

(** [evaluate_alignment] from the set [gold_positives] on: the lines for
    the file of missed alignments and the three scores. *)
Definition evaluate_against (gold_positives : gset (string * string))
    (alignment : list prediction) (s_kb t_kb : KnowledgeBase)
    : result (list string * scores) :=
  let alignment_positives : gset (string * string) :=
    list_to_set ((λ '(s_ent, t_ent, score), (s_ent, t_ent)) <$> alignment) in
  let missed := gold_positives ∖ alignment_positives in
  let outf := missed_line s_kb t_kb <$> elements missed in
  if bool_decide (0 < size alignment_positives)%nat then
    precision ← py_div (Qnat (size (alignment_positives ∩ gold_positives)))
                       (Qnat (size alignment_positives));
    recall ← py_div (Qnat (size (alignment_positives ∩ gold_positives)))
                    (Qnat (size gold_positives));
    let f1_score :=
      if Qlt_bool 0 (precision + recall)
      then Some (Qred (2 * precision * recall / (precision + recall)))
      else None in
    Ok (outf, (Some precision, Some recall, f1_score))
  else Ok (outf, (None, None, None)).

(** ** Training *)

(** The attributes of an [OntoEmma] object that [train] uses; [kb_pairs] is
    an iterator, of which the list holds what is still to come. *)
Record matcher := {
  kb_dir : string;
  kb_file_paths : gmap string string;
  kb_pairs : list (string * string);
}.

(** [itertools.combinations(l, 2)] *)
Fixpoint combinations (l : list string) : list (string * string) :=
  match l with
  | [] => []
  | x :: l' => ((λ y, (x, y)) <$> l') ++ combinations l'
  end%list.

Fixpoint endswith_char (c : ascii) (s : string) : bool :=
  match s with
  | EmptyString => false
  | String c' s' =>
      match s' with
      | EmptyString => bool_decide (c' = c)
      | String _ _ => endswith_char c s'
      end
  end.

(** [os.path.join(a, b)] of [posixpath]. *)
Definition path_join (a b : string) : string :=
  if String.prefix "/" b then b
  else if bool_decide (a = EmptyString) || endswith_char "/" a then a +:+ b
  else a +:+ "/" +:+ b.

(** [dict.setdefault(k, v)] *)
Definition setdefault (k v : string) (m : gmap string string) : gmap string string :=
  match m !! k with
  | Some _ => m
  | None => <[k := v]> m
  end.

(** [s.startswith(prefix)] *)
Definition startswith (s prefix : string) : bool := String.prefix prefix s.

(** [enumerate(l)] *)
Definition enumerate {A} (l : list A) : list (nat * A) := imap pair l.

(** [[i for i, p in enumerate(pairs)
      if p[0].startswith(s_kb_name) and p[1].startswith(t_kb_name)]] *)
Definition kb_matches (s_kb_name t_kb_name : string) (pairs : list (string * string))
    : list nat :=
  omap (λ ip : nat * (string * string),
          if startswith ip.2.1 s_kb_name && startswith ip.2.2 t_kb_name
          then Some ip.1 else None)
       (enumerate pairs).

(** The variables of [train] that its loop over the pairs of knowledge
    bases updates. *)
Record training := {
  loaded_s_kb : KnowledgeBase;
  loaded_t_kb : KnowledgeBase;
  training_ordered_indices : list nat;
  training_features : list features;
  dev_ordered_indices : list nat;
  dev_features : list features;
}.

(** The [for] loop over the iterator [self.kb_pairs]: with the result comes
    what is left of the iterator, which an exception in the body leaves after
    the pair at hand. *)
Fixpoint for_kb_pairs (body : string * string → training → result training)
    (kb_pairs : list (string * string)) (st : training)
    : list (string * string) * result training :=
  match kb_pairs with
  | [] => ([], Ok st)
  | kb_pair :: rest =>
      match body kb_pair st with
      | Ok st' => for_kb_pairs body rest st'
      | Raise e => (rest, Raise e)
      end
  end.

Section training.
Variable float_of_string : string → option Q.
Variable normalize_string : string → string.
Variable tokenize_string : string → list string.
Variable stem : string → string.
Variable lemmatize : string → string.
Variable get_character_n_grams : string → nat → list string.
Variable NGRAM_SIZE : nat.

(** [constants.TRAINING_KBS] and [constants.MIN_TRAINING_SET_SIZE];
    [KnowledgeBase()] and [KnowledgeBase.load]. *)
Variable TRAINING_KBS : list string.
Variable MIN_TRAINING_SET_SIZE : nat.
Variable new_KnowledgeBase : KnowledgeBase.
Variable load : string → result KnowledgeBase.

Definition _get_kb_fnames (self : matcher) : matcher :=
  {| kb_dir := kb_dir self;
     kb_file_paths :=
       foldl (λ paths kb_name,
                setdefault kb_name
                  (path_join (kb_dir self) ("kb-" +:+ kb_name +:+ ".json")) paths)
             (kb_file_paths self) TRAINING_KBS;
     kb_pairs := combinations TRAINING_KBS |}.

(** [__init__], for the directory of the knowledge bases. *)
Definition __init__ (kb_dir : string) : matcher :=
  _get_kb_fnames {| kb_dir := kb_dir; kb_file_paths := ∅; kb_pairs := [] |}.

(** [if kb.name != kb_name: kb = kb.load(self.kb_file_paths[kb_name])] *)
Definition load_if_necessary (self : matcher) (kb : KnowledgeBase) (kb_name : string)
    : result KnowledgeBase :=
  if bool_decide (name kb ≠ kb_name) then
    path ← of_option LookupError (kb_file_paths self !! kb_name);
    load path
  else Ok kb.

(** The body of the loops over the matches: the features of the pair at
    index [i] are appended. *)
Definition append_features (feat_gen : FeatureGenerator.t)
    (pairs : list (string * string)) (i : nat) (feats : list features)
    : result (list features) :=
  p ← of_option LookupError (pairs !! i);
  f ← FeatureGenerator.calculate_features feat_gen p.1 p.2;
  Ok (feats ++ [f])%list.

(** The body of the loop over the pairs of knowledge bases. *)
Definition train_kb_pair (self : matcher)
    (training_pairs dev_pairs : list (string * string))
    (kb_pair : string * string) (st : training) : result training :=
  let '(s_kb_name, t_kb_name) := kb_pair in
  let training_matches := kb_matches s_kb_name t_kb_name training_pairs in
  let dev_matches := kb_matches s_kb_name t_kb_name dev_pairs in
  if bool_decide (MIN_TRAINING_SET_SIZE < length training_matches)%nat then
    let training_ordered_indices :=
      (training_ordered_indices st ++ training_matches)%list in
    let dev_ordered_indices := (dev_ordered_indices st ++ dev_matches)%list in
    s_kb ← load_if_necessary self (loaded_s_kb st) s_kb_name;
    t_kb ← load_if_necessary self (loaded_t_kb st) t_kb_name;
    feat_gen ← FeatureGenerator.init normalize_string tokenize_string stem lemmatize
                 get_character_n_grams NGRAM_SIZE s_kb t_kb;
    training_features ←
      for_each (append_features feat_gen training_pairs) training_matches
               (training_features st);
    dev_features ←
      for_each (append_features feat_gen dev_pairs) dev_matches (dev_features st);
    Ok {| loaded_s_kb := s_kb; loaded_t_kb := t_kb;
          training_ordered_indices := training_ordered_indices;
          training_features := training_features;
          dev_ordered_indices := dev_ordered_indices;
          dev_features := dev_features |}
  else Ok st.

(** A knowledge base that [train] has at hand: the new [KnowledgeBase()],
    or the one that [load] has returned for the path of one of the names of
    [self.kb_file_paths]. *)
Definition kb_at_hand (self : matcher) (kb : KnowledgeBase) : Prop :=
  kb = new_KnowledgeBase
  ∨ ∃ kb_name path, kb_file_paths self !! kb_name = Some path ∧ load path = Ok kb.

(** The knowledge base that [train] uses for the name [kb_name]: the one
    that [load] returns for the path of [kb_name], or, without loading, one
    at hand that has the name [kb_name]. *)
Definition kb_for (self : matcher) (kb_name : string) (kb : KnowledgeBase) : Prop :=
  (∃ path, kb_file_paths self !! kb_name = Some path ∧ load path = Ok kb)
  ∨ (name kb = kb_name ∧ kb_at_hand self kb).

(** A row of features of the pair at index [i] of [pairs]: the two ids
    start with the names of a pair of [self.kb_pairs], and the generator that
    computed the row was made for the two knowledge bases that [train] uses
    for these two names. *)
Definition row_of_pair (self : matcher)
    (pairs : list (string * string)) (i : nat) (f : features) : Prop :=
  ∃ p s_kb_name t_kb_name s_kb t_kb feat_gen,
    pairs !! i = Some p
    ∧ (s_kb_name, t_kb_name) ∈ kb_pairs self
    ∧ startswith p.1 s_kb_name = true ∧ startswith p.2 t_kb_name = true
    ∧ kb_for self s_kb_name s_kb ∧ kb_for self t_kb_name t_kb
    ∧ FeatureGenerator.init normalize_string tokenize_string stem lemmatize
        get_character_n_grams NGRAM_SIZE s_kb t_kb = Ok feat_gen
    ∧ FeatureGenerator.calculate_features feat_gen p.1 p.2 = Ok f.

(** [[labels[i] for i in ordered_indices]] *)
Definition reorder (labels : list measure) (ordered_indices : list nat)
    : result (list measure) :=
  mapM (λ i, of_option LookupError (labels !! i)) ordered_indices.

(** [train]: the files of the training and of the development data are
    given as [load_alignment] finds them.  Returns the object, whose iterator
    has advanced, and the features and labels that go to [model.train] and,
    for the development data, to [model.score_accuracy]. *)
Definition train (self : matcher) (training_data_file dev_data_file : gold_file)
    : matcher * result (list features * list measure * list features * list measure) :=
  match load_alignment float_of_string training_data_file,
        load_alignment float_of_string dev_data_file with
  | Ok training_data, Ok dev_data =>
      let training_pairs := (λ m, (m.1.1, m.1.2)) <$> training_data in
      let training_labels := snd <$> training_data in
      let dev_pairs := (λ m, (m.1.1, m.1.2)) <$> dev_data in
      let dev_labels := snd <$> dev_data in
      let st :=
        {| loaded_s_kb := new_KnowledgeBase; loaded_t_kb := new_KnowledgeBase;
           training_ordered_indices := []; training_features := [];
           dev_ordered_indices := []; dev_features := [] |} in
      let '(rest, r) :=
        for_kb_pairs (train_kb_pair self training_pairs dev_pairs) (kb_pairs self) st in
      ({| kb_dir := kb_dir self; kb_file_paths := kb_file_paths self;
          kb_pairs := rest |},
       st ← r;
       training_labels ← reorder training_labels (training_ordered_indices st);
       dev_labels ← reorder dev_labels (dev_ordered_indices st);
       Ok (training_features st, training_labels, dev_features st, dev_labels))
  | Raise e, _ => (self, Raise e)
  | Ok _, Raise e => (self, Raise e)
  end.

End training.

End OntoEmma.

(** * The dataset reader: [text_to_instance] *)

Module DatasetReader.

(** The entity of a training pair, a JSON object. *)
Record kb_entity := {
  canonical_name : string;
  aliases : list string;
  definition : option string;
  par_relations : list string;
  chd_relations : list string;
}.

Inductive indexers : Set := name_token_indexers | token_only_indexer.

#[local] Unset Elimination Schemes.
Inductive Field : Type :=
  | TextField (tokens : list string) (token_indexers : indexers)
  | ListField (field_list : list Field)
  | BooleanField (label : option string).
#[local] Set Elimination Schemes.

Section reader.
(** The state of the generator of the module [random], and
    [random.sample] on it. *)
Variable rng : Type.
Variable random_sample : list string → nat → rng → list string * rng.
Variable tokenize : string → list string.

Definition _empty_token_text_field : Field :=
  TextField (tokenize "00000") token_only_indexer.
Definition _empty_list_chartoken_text_field : Field :=
  ListField [TextField (tokenize "00000") name_token_indexers].

(** [sample_n = lambda l: l[0] if len(l[0]) <= l[1] else random.sample(l[0], l[1])] *)
Definition sample_n (l : list string * nat) (g : rng) : list string * rng :=
  if bool_decide (length l.1 ≤ l.2)%nat then (l.1, g)
  else random_sample l.1 l.2 g.

Definition name_fields (l : list string) : Field :=
  ListField ((λ a, TextField (tokenize a) name_token_indexers) <$> l).

Definition relation_fields (l : list string) : Field :=
  if bool_decide (l ≠ []) then name_fields l
  else _empty_list_chartoken_text_field.

Definition definition_field (d : option string) : Field :=
  match d with
  | Some s =>
      if bool_decide (s ≠ EmptyString)
      then TextField (tokenize s) token_only_indexer
      else _empty_token_text_field
  | None => _empty_token_text_field
  end.

(** The instance built from the six lists once they are sampled. *)
Definition fields_of (s_ent t_ent : kb_entity) (label : option string)
    (s_aliases t_aliases s_parrels t_parrels s_chdrels t_chdrels : list string)
    : gmap string Field :=
  let fields : gmap string Field := ∅ in
  let fields := <["s_ent_name" :=
    TextField (tokenize ("00000 " +:+ canonical_name s_ent)) name_token_indexers]> fields in
  let fields := <["t_ent_name" :=
    TextField (tokenize ("00000 " +:+ canonical_name t_ent)) name_token_indexers]> fields in
  let fields := <["s_ent_aliases" := name_fields s_aliases]> fields in
  let fields := <["t_ent_aliases" := name_fields t_aliases]> fields in
  let fields := <["s_ent_def" := definition_field (definition s_ent)]> fields in
  let fields := <["t_ent_def" := definition_field (definition t_ent)]> fields in
  let fields := <["s_ent_parents" := relation_fields s_parrels]> fields in
  let fields := <["t_ent_parents" := relation_fields t_parrels]> fields in
  let fields := <["s_ent_children" := relation_fields s_chdrels]> fields in
  let fields := <["t_ent_children" := relation_fields t_chdrels]> fields in
  <["label" := BooleanField label]> fields.

Definition text_to_instance (s_ent t_ent : kb_entity) (label : option string)
    (g : rng) : gmap string Field * rng :=
  let '(s_aliases, g) := sample_n (aliases s_ent, 16%nat) g in
  let '(t_aliases, g) := sample_n (aliases t_ent, 16%nat) g in
  let '(s_parrels, g) := sample_n (par_relations s_ent, 8%nat) g in
  let '(t_parrels, g) := sample_n (par_relations t_ent, 8%nat) g in
  let '(s_chdrels, g) := sample_n (chd_relations s_ent, 8%nat) g in
  let '(t_chdrels, g) := sample_n (chd_relations t_ent, 8%nat) g in
  (fields_of s_ent t_ent label
     s_aliases t_aliases s_parrels t_parrels s_chdrels t_chdrels, g).

End reader.


(** One line of the file of training pairs, a JSON object. *)
Record training_pair := {
  source_ent : kb_entity;
  target_ent : kb_entity;
  label : option string;
}.

(** What [read] ends with: the [Dataset] of the instances, with the state
    of the generator of random numbers after the last of them; an exception
    of the loop over the lines; or the [ConfigurationError] of a file
    without instances. *)
Inductive read_result (rng : Type) : Type :=
  | Dataset (instances : list (gmap string Field)) (g : rng)
  | Raised (e : exn)
  | ConfigurationError.
Arguments Dataset {rng} instances g.
Arguments Raised {rng} e.
Arguments ConfigurationError {rng}.

(** The number of fields that a [ListField] holds. *)
Definition list_field_length (f : Field) : option nat :=
  match f with
  | ListField field_list => Some (length field_list)
  | _ => None
  end.

(** The keys of the fields of an instance. *)
Definition field_names : list string :=
  ["s_ent_name"; "t_ent_name"; "s_ent_aliases"; "t_ent_aliases";
   "s_ent_def"; "t_ent_def"; "s_ent_parents"; "t_ent_parents";
   "s_ent_children"; "t_ent_children"; "label"].

Section file_reader.
Variable rng : Type.
Variable random_sample : list string → nat → rng → list string * rng.
Variable tokenize : string → list string.

(** [json.loads(line)] and the subscripts that take the two entities, their
    attributes and the label out of the object; a line that is no JSON text
    raises [ValueError], a missing key [LookupError]. *)
Variable json_loads : string → result training_pair.

(** The fields of an instance are made by the constructors of AllenNLP,
    which check what they are given and may raise: [fields_error] is the
    exception that one of them raises in the call
    [self.text_to_instance(s_ent, t_ent, label)] at a state of the generator
    of random numbers, if one does.  The [ListField] of the aliases is made
    of the list of the sampled aliases as it is, also for an entity without
    aliases; only the lists of relations have a placeholder. *)
Variable fields_error : kb_entity → kb_entity → option string → rng → option exn.

(** The body of the loop over the lines of the file. *)
Definition read_line (line : string) (st : list (gmap string Field) * rng)
    : result (list (gmap string Field) * rng) :=
  training_pair ← json_loads line;
  match fields_error (source_ent training_pair) (target_ent training_pair)
          (label training_pair) st.2 with
  | Some e => Raise e
  | None =>
      let '(instance, g) :=
        text_to_instance rng random_sample tokenize
          (source_ent training_pair) (target_ent training_pair) (label training_pair)
          st.2 in
      Ok (st.1 ++ [instance], g)%list
  end.

(** [read], on the text of the file at [file_path]. *)
Definition read (content : string) (g : rng) : read_result rng :=
  match for_each read_line (Csv.readlines content) ([], g) with
  | Ok (instances, g) =>
      match instances with
      | [] => ConfigurationError
      | _ :: _ => Dataset instances g
      end
  | Raise e => Raised e
  end.

End file_reader.

End DatasetReader.

(** * Collaborators and data for the examples

    Small stand-ins for the collaborators the code is parametrised by, and two
    knowledge bases, on which the definitions above are evaluated. *)

Module Examples.

(** Tokens are the words between spaces. *)
Fixpoint words_from (cur : string) (s : string) : list string :=
  match s with
  | EmptyString => if bool_decide (cur = EmptyString) then [] else [cur]
  | String c s' =>
      if bool_decide (c = " "%char)
      then (if bool_decide (cur = EmptyString) then [] else [cur]) ++ words_from EmptyString s'
      else words_from (cur +:+ String c EmptyString) s'
  end%list.

Definition tokenize_string (s : string) : list string := words_from EmptyString s.
Definition normalize_string (s : string) : string := s.
Definition stem (w : string) : string := w.
Definition lemmatize (w : string) : string := w.

Fixpoint ngrams_from (n : nat) (s : string) : list string :=
  match s with
  | EmptyString => []
  | String _ s' =>
      if bool_decide (n ≤ String.length s)%nat
      then substring 0 n s :: ngrams_from n s' else []
  end.

Definition get_character_n_grams (s : string) (n : nat) : list string :=
  if bool_decide (String.length s < n)%nat then [s] else ngrams_from n s.

Definition NGRAM_SIZE : nat := 3.

(** Floats that are short decimals: [str] prints the digits of the
    quotient, [float] reads an optional sign, digits, and an optional
    fraction. *)
Definition digit (d : Z) : ascii := ascii_of_nat (48 + Z.to_nat d).

Fixpoint frac_digits (fuel : nat) (r den : Z) : string :=
  match fuel with
  | O => EmptyString
  | S fuel' =>
      String (digit (r * 10 / den))
             (if bool_decide ((r * 10) `mod` den = 0)%Z then EmptyString
              else frac_digits fuel' ((r * 10) `mod` den) den)
  end%Z.

Definition str_of_float (q : Q) : string :=
  let n := Z.abs (Qnum q) in
  let d := Z.pos (Qden q) in
  (if bool_decide (Qnum q < 0)%Z then "-" else EmptyString)
    +:+ NilZero.string_of_uint (N.to_uint (Z.to_N (n / d))) +:+ "." +:+ frac_digits 17 (n `mod` d)%Z d.

Definition digit_value (c : ascii) : option Z :=
  let n := nat_of_ascii c in
  if bool_decide (48 ≤ n ≤ 57)%nat then Some (Z.of_nat n - 48)%Z else None.

(** Reads digits up to the end or to a point; returns the number read, how
    many digits came after the point, and whether a digit was seen. *)
Fixpoint read_digits (s : string) (acc : Z) (scale : option nat) (seen : bool)
    : option (Z * nat) :=
  match s with
  | EmptyString => if seen then Some (acc, default 0%nat scale) else None
  | String c s' =>
      match digit_value c with
      | Some d => read_digits s' (acc * 10 + d)%Z (S <$> scale) true
      | None =>
          if bool_decide (c = "."%char) && bool_decide (scale = None)
          then read_digits s' acc (Some 0%nat) seen
          else None
      end
  end.

Definition float_of_string (s : string) : option Q :=
  let '(neg, body) :=
    match s with
    | String c s' => if bool_decide (c = "-"%char) then (true, s') else (false, s)
    | EmptyString => (false, s)
    end in
  '(m, k) ← read_digits body 0 None false;
  Some (Qred (Qmake (if neg : bool then - m else m) (Z.to_pos (10 ^ Z.of_nat k)))).

(** Candidates are all the entities of the target, in their order; the
    classifier gives the Jaccard similarity of the names as the probability of
    a match. *)
Definition select_candidates (s_kb t_kb : KnowledgeBase) (s_ent_id : string)
    : list string :=
  research_entity_id <$> entities t_kb.

Definition match_probability (f : gmap string FeatureGenerator.fval) : Q :=
  match f !! "name_token_jaccard" with
  | Some (FeatureGenerator.FNum q) => q
  | _ => 0
  end.

Definition predict_entity_pair (fs : list (gmap string FeatureGenerator.fval))
    : list (list Q) :=
  (λ f, [py_sub 1 (match_probability f); match_probability f]) <$> fs.

Definition SCORE_THRESHOLD : Q := 1 # 2.
Definition KEEP_TOP_K_CANDIDATES : nat := 2.

(** A generator of random numbers and a sampling without replacement. *)
Definition random_sample (l : list string) (k : nat) (g : nat) : list string * nat :=
  (take k (rotate (g `mod` length l) l), (g * 75 + 74) `mod` 251)%nat.

Definition rel (ty : string) (e0 e1 : string) : Relation :=
  {| relation_type := ty; entity_ids := [e0; e1] |}.

Definition s_kb : KnowledgeBase :=
  {| name := "S";
     entities :=
       [ {| research_entity_id := "S:1"; canonical_name := "heart";
            aliases := ["heart"; "cor"]; relation_ids := [0; 1; 2]%nat |};
         {| research_entity_id := "S:2"; canonical_name := "organ";
            aliases := ["organ"]; relation_ids := [0]%nat |};
         {| research_entity_id := "S:3"; canonical_name := EmptyString;
            aliases := []; relation_ids := [] |} ];
     relations :=
       {[ 0%nat := rel "is_a" "S:1" "S:2";
          1%nat := rel "part_of" "S:1" "S:9";
          2%nat := rel "SIB" "S:1" "S:3" ]};
     research_entity_id_to_entity_index :=
       {[ "S:1" := 0%nat; "S:2" := 1%nat; "S:3" := 2%nat ]} |}.

Definition t_kb : KnowledgeBase :=
  {| name := "T";
     entities :=
       [ {| research_entity_id := "T:1"; canonical_name := "heart";
            aliases := ["cardiac muscle"; "cor"]; relation_ids := [0]%nat |};
         {| research_entity_id := "T:2"; canonical_name := "organ";
            aliases := ["body organ"]; relation_ids := [1]%nat |};
         {| research_entity_id := "T:3"; canonical_name := EmptyString;
            aliases := []; relation_ids := [] |} ];
     relations :=
       {[ 0%nat := rel "subClassOf" "T:1" "T:2";
          1%nat := rel "has_part" "T:2" "T:1" ]};
     research_entity_id_to_entity_index :=
       {[ "T:1" := 0%nat; "T:2" := 1%nat; "T:3" := 2%nat ]} |}.

Definition init : result FeatureGenerator.t :=
  FeatureGenerator.init normalize_string tokenize_string stem lemmatize
    get_character_n_grams NGRAM_SIZE s_kb t_kb.

Definition feat_gen : FeatureGenerator.t :=
  match init with
  | Ok g => g
  | Raise _ =>
      {| FeatureGenerator.s_kb := s_kb; FeatureGenerator.t_kb := t_kb;
         FeatureGenerator.s_tokens := ∅; FeatureGenerator.t_tokens := ∅ |}
  end.

Definition empty_sig : FeatureGenerator.TokenSignature :=
  {| FeatureGenerator.name_tokens := [];
     FeatureGenerator.stemmed_tokens := [];
     FeatureGenerator.lemmatized_tokens := [];
     FeatureGenerator.character_tokens := [];
     FeatureGenerator.alias_tokens := [];
     FeatureGenerator.parent_names := ∅;
     FeatureGenerator.child_names := ∅ |}.

(** The signatures of the generator of the examples. *)
Definition s_sig (id : string) : FeatureGenerator.TokenSignature :=
  default empty_sig (FeatureGenerator.s_tokens feat_gen !! id).
Definition t_sig (id : string) : FeatureGenerator.TokenSignature :=
  default empty_sig (FeatureGenerator.t_tokens feat_gen !! id).

(** One feature of a pair of entities of the examples. *)
Definition feature (s t key : string) : result (option FeatureGenerator.fval) :=
  fg ← init; f ← FeatureGenerator.calculate_features fg s t; Ok (f !! key).

(** The features of the pair (S:1, T:1). *)
Definition features_heart : gmap string FeatureGenerator.fval :=
  match FeatureGenerator.calculate_features feat_gen "S:1" "T:1" with
  | Ok f => f
  | Raise _ => ∅
  end.

Definition heart : Entity :=
  {| research_entity_id := "S:1"; canonical_name := "heart";
     aliases := ["heart"; "cor"]; relation_ids := [0; 1; 2]%nat |}.

Definition organ : Entity :=
  {| research_entity_id := "S:2"; canonical_name := "organ";
     aliases := ["organ"]; relation_ids := [0]%nat |}.

(** The id [a] between two double quotes. *)
Definition quoted_a : string :=
  String Csv.QUOTE (String "a"%char (String Csv.QUOTE EmptyString)).

(** Gold files: an RDF file whose only measure is the relation marker, an
    RDF file with one positive pair, and a TSV file whose only pair has the
    label 0. *)
Definition gold_equals : OntoEmma.gold_file :=
  OntoEmma.RdfFile [("S:1", "T:1", Some "=")].
Definition gold_one : OntoEmma.gold_file :=
  OntoEmma.RdfFile [("S:1", "T:1", Some "1.0")].
Definition gold_negative : OntoEmma.gold_file :=
  OntoEmma.TsvFile ("S:1" +:+ OntoEmma.tab +:+ "T:2" +:+ OntoEmma.tab +:+ "0"
                    +:+ OntoEmma.tab +:+ "gold" +:+ OntoEmma.newline).

Definition predicted : list (string * string * Q) := [("S:1", "T:1", 9 # 10)].

Definition two_predictions : list (string * string * Q) :=
  [("S:1", "T:1", 9 # 10); ("S:2", "T:2", 1%Q)].

(** Entities of training pairs: one within the bounds of the sampling, one
    with 17 aliases and 9 parent relations. *)
Definition short_entity : DatasetReader.kb_entity :=
  {| DatasetReader.canonical_name := "heart";
     DatasetReader.aliases := ["cor"; "heart"];
     DatasetReader.definition := None;
     DatasetReader.par_relations := ["organ"];
     DatasetReader.chd_relations := [] |}.

Definition long_entity : DatasetReader.kb_entity :=
  {| DatasetReader.canonical_name := "blood";
     DatasetReader.aliases :=
       ["a1"; "a2"; "a3"; "a4"; "a5"; "a6"; "a7"; "a8"; "a9"; "a10"; "a11";
        "a12"; "a13"; "a14"; "a15"; "a16"; "a17"];
     DatasetReader.definition := Some "a fluid";
     DatasetReader.par_relations :=
       ["p1"; "p2"; "p3"; "p4"; "p5"; "p6"; "p7"; "p8"; "p9"];
     DatasetReader.chd_relations := ["plasma"] |}.

(** The features of the pairs (S:1, T:2) and (S:2, T:2). *)
Definition features_heart_organ : gmap string FeatureGenerator.fval :=
  match FeatureGenerator.calculate_features feat_gen "S:1" "T:2" with
  | Ok f => f
  | Raise _ => ∅
  end.

Definition features_organ : gmap string FeatureGenerator.fval :=
  match FeatureGenerator.calculate_features feat_gen "S:2" "T:2" with
  | Ok f => f
  | Raise _ => ∅
  end.

(** The generator of the two knowledge bases the other way round. *)
Definition feat_gen_rev : FeatureGenerator.t :=
  match FeatureGenerator.init normalize_string tokenize_string stem lemmatize
          get_character_n_grams NGRAM_SIZE t_kb s_kb with
  | Ok g => g
  | Raise _ =>
      {| FeatureGenerator.s_kb := t_kb; FeatureGenerator.t_kb := s_kb;
         FeatureGenerator.s_tokens := ∅; FeatureGenerator.t_tokens := ∅ |}
  end.

(** A knowledge base in which two entities have the same id, and the
    generator of the pair it makes with itself. *)
Definition second : Entity :=
  {| research_entity_id := "D:1"; canonical_name := "second";
     aliases := []; relation_ids := [] |}.

Definition dup_kb : KnowledgeBase :=
  {| name := "D";
     entities :=
       [ {| research_entity_id := "D:1"; canonical_name := "first";
            aliases := []; relation_ids := [] |};
         second ];
     relations := ∅;
     research_entity_id_to_entity_index := {[ "D:1" := 1%nat ]} |}.

Definition dup_gen : FeatureGenerator.t :=
  match FeatureGenerator.init normalize_string tokenize_string stem lemmatize
          get_character_n_grams NGRAM_SIZE dup_kb dup_kb with
  | Ok g => g
  | Raise _ =>
      {| FeatureGenerator.s_kb := dup_kb; FeatureGenerator.t_kb := dup_kb;
         FeatureGenerator.s_tokens := ∅; FeatureGenerator.t_tokens := ∅ |}
  end.

Definition second_sig : FeatureGenerator.TokenSignature :=
  match FeatureGenerator._compute_tokens normalize_string tokenize_string stem
          lemmatize get_character_n_grams NGRAM_SIZE second dup_kb with
  | Ok sig => sig
  | Raise _ => empty_sig
  end.

(** A knowledge base whose only entity has a relation id that is no key of
    its relations. *)
Definition broken_kb : KnowledgeBase :=
  {| name := "B";
     entities :=
       [ {| research_entity_id := "B:1"; canonical_name := "bone";
            aliases := []; relation_ids := [7]%nat |} ];
     relations := ∅;
     research_entity_id_to_entity_index := {[ "B:1" := 0%nat ]} |}.

(** Three predictions, two of them with the same score. *)
Definition tie_predictions : list (string * string * Q) :=
  [("a", "b", 1 # 2); ("c", "d", 9 # 10); ("e", "f", 1 # 2)].

(** The records of a gold file, and a record that lacks its fourth field. *)
Definition gold_rows : list (list string) :=
  [["S:1"; "T:1"; "1.0"; "gold"]; ["S:2"; "T:1"; "0"; EmptyString]].

Definition short_row : list string := ["S:1"; "T:1"; "1.0"].

(** The alignment of the two knowledge bases. *)
Definition alignment : list (string * string * Q) :=
  match OntoEmma.align_predictions select_candidates predict_entity_pair
          SCORE_THRESHOLD KEEP_TOP_K_CANDIDATES feat_gen s_kb t_kb with
  | Ok a => a
  | Raise _ => []
  end.

(** A selection of candidates that proposes an id that the target does not
    have. *)
Definition unknown_candidates (s_kb t_kb : KnowledgeBase) (s_ent_id : string)
    : list string :=
  ["T:1"; "T:9"].

(** The prediction of [predicted] a second time, with another score. *)
Definition predicted_twice : list (string * string * Q) :=
  [("S:1", "T:1", 1 # 2); ("S:1", "T:1", 9 # 10)].

(** A gold file with two positive pairs, and the evaluation of [predicted],
    which has the first of them. *)
Definition gold_two : OntoEmma.gold_file :=
  OntoEmma.RdfFile [("S:1", "T:1", Some "1.0"); ("S:2", "T:2", Some "0.8")].

Definition evaluation : list string * (option Q * option Q * option Q) :=
  match OntoEmma.evaluate_alignment float_of_string gold_two predicted s_kb t_kb with
  | Ok r => r
  | Raise _ => ([], (None, None, None))
  end.

(** A roster of two knowledge bases, their files, and a matcher; training
    data with two examples, development data with two. *)
Definition TRAINING_KBS : list string := ["S"; "T"].
Definition MIN_TRAINING_SET_SIZE : nat := 1.

Definition new_KnowledgeBase : KnowledgeBase :=
  {| name := EmptyString; entities := []; relations := ∅;
     research_entity_id_to_entity_index := ∅ |}.

Definition load (path : string) : result KnowledgeBase :=
  if bool_decide (path = "kbs/kb-S.json") then Ok s_kb
  else if bool_decide (path = "kbs/kb-T.json") then Ok t_kb
  else Raise LookupError.

Definition matcher : OntoEmma.matcher := OntoEmma.__init__ TRAINING_KBS "kbs".

Definition training_file : OntoEmma.gold_file :=
  OntoEmma.TsvFile (OntoEmma.tsv_text gold_rows).

Definition trained
    : OntoEmma.matcher
      * result (list (gmap string FeatureGenerator.fval) * list OntoEmma.measure
                * list (gmap string FeatureGenerator.fval) * list OntoEmma.measure) :=
  OntoEmma.train float_of_string normalize_string tokenize_string stem lemmatize
    get_character_n_grams NGRAM_SIZE MIN_TRAINING_SET_SIZE new_KnowledgeBase load
    matcher training_file gold_two.

Definition training_result
    : list (gmap string FeatureGenerator.fval) * list OntoEmma.measure
      * list (gmap string FeatureGenerator.fval) * list OntoEmma.measure :=
  match trained.2 with
  | Ok r => r
  | Raise _ => ([], [], [], [])
  end.

(** An entity without aliases. *)
Definition bare_entity : DatasetReader.kb_entity :=
  {| DatasetReader.canonical_name := "organ";
     DatasetReader.aliases := [];
     DatasetReader.definition := None;
     DatasetReader.par_relations := [];
     DatasetReader.chd_relations := [] |}.

(** A file of training pairs of two lines, and a reader of its lines: the
    lines [1] and [2] stand for the JSON texts of two pairs of entities, the
    second with an entity without aliases. *)
Definition json_loads (line : string) : result DatasetReader.training_pair :=
  if bool_decide (line = "1" +:+ OntoEmma.newline) then
    Ok {| DatasetReader.source_ent := long_entity;
          DatasetReader.target_ent := short_entity;
          DatasetReader.label := Some "1" |}
  else if bool_decide (line = "2" +:+ OntoEmma.newline) then
    Ok {| DatasetReader.source_ent := short_entity;
          DatasetReader.target_ent := bare_entity;
          DatasetReader.label := Some "0" |}
  else Raise ValueError.

(** Constructors of the fields that refuse an entity without aliases. *)
Definition fields_error (s_ent t_ent : DatasetReader.kb_entity)
    (label : option string) (g : nat) : option exn :=
  if bool_decide (DatasetReader.aliases s_ent = [])
     || bool_decide (DatasetReader.aliases t_ent = [])
  then Some AssertionError else None.

Definition pairs_file : string :=
  "1" +:+ OntoEmma.newline +:+ "1" +:+ OntoEmma.newline.

Definition bare_pairs_file : string :=
  "1" +:+ OntoEmma.newline +:+ "2" +:+ OntoEmma.newline.

End Examples.

(** * Facts about the result monad and the arithmetic *)

Set Warnings "-clear-no-such-hyp".


Lemma bind_Ok {A B} (a : A) (f : A → result B) : Ok a ≫= f = f a.
Proof. reflexivity. Qed.

Lemma bind_inv {A B} (m : result A) (f : A → result B) (b : B) :
  m ≫= f = Ok b → ∃ a, m = Ok a ∧ f a = Ok b.
Proof. destruct m as [a|e]; [intros H; exists a; auto | discriminate]. Qed.

Lemma returns_Ok {A} (a : A) : returns (Ok a).
Proof. by exists a. Qed.

Lemma for_each_returns {A S} (body : A → S → result S) (l : list A) (st : S) :
  (∀ x st', x ∈ l → returns (body x st')) → returns (for_each body l st).
Proof.
  revert st. induction l as [|x l IH]; intros st Hbody; simpl.
  - apply returns_Ok.
  - destruct (Hbody x st) as [st' ->]; [left|]. rewrite bind_Ok.
    apply IH. intros y st'' Hy. apply Hbody. by right.
Qed.

Lemma Qnat_eq_0 (n : nat) : Qeq_bool (Qnat n) 0 = bool_decide (n = 0%nat).
Proof.
  unfold Qnat, Qeq_bool, inject_Z. simpl. rewrite Z.mul_1_r.
  case_bool_decide; [by subst|]. apply Z.eqb_neq. lia.
Qed.

Lemma py_div_nat (a : Q) (n : nat) :
  n ≠ 0%nat → py_div a (Qnat n) = Ok (Qred (a / Qnat n)).
Proof.
  intros Hn. unfold py_div. rewrite Qnat_eq_0. by rewrite bool_decide_eq_false_2.
Qed.

Lemma py_div_nat_0 (a : Q) : py_div a (Qnat 0) = Raise ZeroDivisionError.
Proof. reflexivity. Qed.

Lemma Qred_eq_0 (q : Q) : Qeq_bool (Qred q) 0 = Qeq_bool q 0.
Proof.
  destruct (Qeq_bool q 0) eqn:E.
  - apply Qeq_bool_iff. rewrite Qred_correct. by apply Qeq_bool_iff.
  - destruct (Qeq_bool (Qred q) 0) eqn:E'; [|done].
    apply Qeq_bool_iff in E'. rewrite Qred_correct in E'.
    apply Qeq_bool_iff in E'. congruence.
Qed.


Lemma Qlt_bool_iff (x y : Q) : Qlt_bool x y = true ↔ (x < y)%Q.
Proof.
  unfold Qlt_bool. rewrite negb_true_iff. split.
  - intros H. apply Qnot_le_lt. intros Hle. apply Qle_bool_iff in Hle. congruence.
  - intros H. destruct (Qle_bool y x) eqn:E; [|done].
    apply Qle_bool_iff in E. by apply Qlt_not_le in H.
Qed.


Lemma mapM_result_Forall2 {A B} (f : A → result B) (l : list A) (k : list B) :
  mapM f l = Ok k ↔ Forall2 (λ x y, f x = Ok y) l k.
Proof.
  revert k. induction l as [|x l IH]; intros k; simpl.
  - split; [intros [= <-]; constructor | by inversion 1].
  - split.
    + intros H. apply bind_inv in H as (y & Hy & H).
      apply bind_inv in H as (k' & Hk & [= <-]).
      constructor; [done|by apply IH].
    + inversion 1 as [|? y ? k' Hy Hk]; subst.
      rewrite Hy. simpl. apply IH in Hk. rewrite Hk. reflexivity.
Qed.

Lemma mapM_result_returns {A B} (f : A → result B) (l : list A) :
  Forall (λ x, returns (f x)) l → returns (mapM f l).
Proof.
  induction 1 as [|x l [y Hy] _ [k Hk]]; simpl; [apply returns_Ok|].
  rewrite Hy. simpl. rewrite Hk. apply returns_Ok.
Qed.


(** * The feature generator *)

Module FeatureGeneratorProps.
Import FeatureGenerator.

Section generator_facts.
Variable normalize_string : string → string.
Variable tokenize_string : string → tokens.
Variable stem : string → string.
Variable lemmatize : string → string.
Variable get_character_n_grams : string → nat → tokens.
Variable NGRAM_SIZE : nat.

Local Abbreviation _compute_tokens :=
  (_compute_tokens normalize_string tokenize_string stem lemmatize
     get_character_n_grams NGRAM_SIZE).
Local Abbreviation fill_tokens :=
  (fill_tokens normalize_string tokenize_string stem lemmatize
     get_character_n_grams NGRAM_SIZE).
Local Abbreviation init :=
  (init normalize_string tokenize_string stem lemmatize
     get_character_n_grams NGRAM_SIZE).

Lemma compute_tokens_ok ent kb sig : _compute_tokens ent kb = Ok sig → sig_ok sig.
Proof.
  unfold FeatureGenerator._compute_tokens. intros H.
  apply bind_inv in H as (ps & _ & H). apply bind_inv in H as (cs & _ & H).
  injection H as <-. split; simpl; apply length_fmap.
Qed.

Lemma fill_tokens_ok kb ents m m' :
  map_Forall (λ _, sig_ok) m → fill_tokens kb ents m = Ok m' →
  map_Forall (λ _, sig_ok) m'.
Proof.
  unfold FeatureGenerator.fill_tokens.
  revert m. induction ents as [|ent ents IH]; intros m Hm; simpl.
  - by intros [= <-].
  - intros H. apply bind_inv in H as (m1 & H1 & H).
    apply bind_inv in H1 as (sig & Hsig & [= <-]).
    eapply IH; [|exact H]. apply map_Forall_insert_2; [|done].
    by eapply compute_tokens_ok.
Qed.

Lemma fill_tokens_dom kb ents m m' :
  fill_tokens kb ents m = Ok m' →
  dom m' = dom m ∪ list_to_set (research_entity_id <$> ents).
Proof.
  unfold FeatureGenerator.fill_tokens.
  revert m. induction ents as [|ent ents IH]; intros m; simpl.
  - intros [= <-]. set_solver.
  - intros H. apply bind_inv in H as (m1 & H1 & H).
    apply bind_inv in H1 as (sig & Hsig & [= <-]).
    rewrite (IH _ H), dom_insert_L. set_solver.
Qed.

Lemma compute_tokens_name ent kb sig :
  _compute_tokens ent kb = Ok sig →
  name_tokens sig = tokenize_string (normalize_string (canonical_name ent)).
Proof.
  unfold FeatureGenerator._compute_tokens. intros H.
  apply bind_inv in H as (ps & _ & H). apply bind_inv in H as (cs & _ & H).
  by injection H as <-.
Qed.

Lemma fill_tokens_lookup kb ents m m' id sig :
  fill_tokens kb ents m = Ok m' → m' !! id = Some sig →
  m !! id = Some sig
  ∨ ∃ ent, ent ∈ ents ∧ research_entity_id ent = id
           ∧ _compute_tokens ent kb = Ok sig.
Proof.
  unfold FeatureGenerator.fill_tokens.
  revert m. induction ents as [|ent ents IH]; intros m; simpl.
  - intros [= <-] Hid. by left.
  - intros H Hid. apply bind_inv in H as (m1 & H1 & H).
    apply bind_inv in H1 as (sig1 & Hsig1 & [= <-]).
    destruct (IH _ H Hid) as [Hm|(ent' & ? & ? & ?)].
    + destruct (decide (research_entity_id ent = id)) as [Heq|Hne].
      * rewrite Heq, lookup_insert_eq in Hm. injection Hm as ->.
        right. exists ent. split_and!; [left|done..].
      * rewrite lookup_insert_ne in Hm by done. by left.
    + right. exists ent'. split_and!; [by right|done..].
Qed.

(** The signature cached for an id is that of an entity with this id. *)
Lemma init_lookup s_kb t_kb fg :
  init s_kb t_kb = Ok fg →
  (∀ id sig, s_tokens fg !! id = Some sig →
     ∃ ent, ent ∈ entities s_kb ∧ research_entity_id ent = id
            ∧ name_tokens sig
              = tokenize_string (normalize_string (canonical_name ent)))
  ∧ (∀ id sig, t_tokens fg !! id = Some sig →
     ∃ ent, ent ∈ entities t_kb ∧ research_entity_id ent = id
            ∧ name_tokens sig
              = tokenize_string (normalize_string (canonical_name ent))).
Proof.
  unfold FeatureGenerator.init. intros H.
  apply bind_inv in H as (ms & Hs & H). apply bind_inv in H as (mt & Ht & [= <-]).
  simpl. split; intros id sig Hid.
  - destruct (fill_tokens_lookup _ _ _ _ _ _ Hs Hid) as [Hm|(ent & ? & ? & Hc)];
      [by rewrite lookup_empty in Hm|].
    exists ent. split_and!; [done..|]. by eapply compute_tokens_name.
  - destruct (fill_tokens_lookup _ _ _ _ _ _ Ht Hid) as [Hm|(ent & ? & ? & Hc)];
      [by rewrite lookup_empty in Hm|].
    exists ent. split_and!; [done..|]. by eapply compute_tokens_name.
Qed.

Lemma init_ok s_kb t_kb fg :
  init s_kb t_kb = Ok fg →
  map_Forall (λ _, sig_ok) (s_tokens fg) ∧ map_Forall (λ _, sig_ok) (t_tokens fg)
  ∧ dom (s_tokens fg) = list_to_set (research_entity_id <$> entities s_kb)
  ∧ dom (t_tokens fg) = list_to_set (research_entity_id <$> entities t_kb).
Proof.
  unfold FeatureGenerator.init. intros H.
  apply bind_inv in H as (ms & Hs & H). apply bind_inv in H as (mt & Ht & [= <-]).
  simpl. split_and!.
  - eapply fill_tokens_ok; [|exact Hs]. apply map_Forall_empty.
  - eapply fill_tokens_ok; [|exact Ht]. apply map_Forall_empty.
  - rewrite (fill_tokens_dom _ _ _ _ Hs). set_solver.
  - rewrite (fill_tokens_dom _ _ _ _ Ht). set_solver.
Qed.

(** ** The blocks of [calculate_features] *)

Lemma similarity_returns (s_toks t_toks : tokens) (n : nat) :
  (s_toks ≠ t_toks → n ≠ 0%nat) →
  ∃ sim, similarity (bool_decide (s_toks = t_toks)) s_toks t_toks n = Ok sim
         ∧ (s_toks = t_toks → sim = (1%Q, 1%Q)).
Proof.
  intros Hn. unfold similarity. case_bool_decide as Heq.
  - by eexists.
  - rewrite py_div_nat by auto. simpl. by eexists.
Qed.

Lemma alias_pair_returns s_a t_a best : returns (alias_pair s_a t_a best).
Proof.
  unfold alias_pair. destruct best as [mj me].
  case_bool_decide as Hs; simpl; [|apply returns_Ok].
  case_bool_decide as Ht; simpl; [|apply returns_Ok].
  rewrite py_div_nat; [apply returns_Ok|].
  destruct s_a; [done|simpl; lia].
Qed.

Lemma best_alias_returns (has : bool) s_alias t_alias :
  ∃ best, best_alias has s_alias t_alias = Ok best
          ∧ (has = true → best = (0%Q, 1%Q)).
Proof.
  unfold best_alias. destruct has; simpl.
  - by eexists.
  - destruct (for_each_returns
      (λ s_a, for_each (alias_pair s_a) t_alias) s_alias (0%Q, 1%Q)) as [b Hb].
    + intros x st _. apply for_each_returns. intros; apply alias_pair_returns.
    + exists b. split; [exact Hb|done].
Qed.

Lemma percent_in_common_returns (a b : gset tokens) :
  ∃ q, percent_in_common a b = Ok q
       ∧ ((0 < size a)%nat → (0 < size b)%nat →
          (q == Qnat (size (a ∩ b)) / ((Qnat (size a) + Qnat (size b)) / 2))%Q)
       ∧ (size a = 0%nat ∨ size b = 0%nat → q = 0%Q).
Proof.
  unfold percent_in_common.
  case_bool_decide as Ha; simpl; [case_bool_decide as Hb; simpl|].
  - unfold py_div at 1. simpl. unfold py_div.
    rewrite Qred_eq_0.
    assert (Hne : Qeq_bool (Qnat (size a + size b) / 2) 0 = false).
    { destruct (Qeq_bool _ _) eqn:E; [|done]. apply Qeq_bool_iff in E.
      unfold Qnat, Qeq, Qdiv, Qmult, Qinv, inject_Z in E. simpl in E. lia. }
    rewrite Hne. eexists. split; [done|]. split; [|lia].
    intros _ _. rewrite !Qred_correct.
    unfold Qnat. rewrite Nat2Z.inj_add, inject_Z_plus. reflexivity.
  - eexists. split; [done|]. split; [lia|done].
  - eexists. split; [done|]. split; [lia|done].
Qed.

Ltac feature_lookup :=
  repeat (rewrite lookup_insert_ne by done); apply lookup_insert_eq.

(** [calculate_features] returns on the signatures of a generator, and its
    features are what the blocks return. *)
Lemma calculate_features_returns fg s_ent_id t_ent_id s t :
  sig_ok s → sig_ok t →
  s_tokens fg !! s_ent_id = Some s → t_tokens fg !! t_ent_id = Some t →
  ∃ f name_sim stemmed_sim lemmatized_sim char_sim best pp pc,
    calculate_features fg s_ent_id t_ent_id = Ok f
    ∧ (name_tokens s = name_tokens t → name_sim = (1%Q, 1%Q))
    ∧ (stemmed_tokens s = stemmed_tokens t → stemmed_sim = (1%Q, 1%Q))
    ∧ (lemmatized_tokens s = lemmatized_tokens t → lemmatized_sim = (1%Q, 1%Q))
    ∧ (character_tokens s = character_tokens t → char_sim = (1%Q, 1%Q))
    ∧ best_alias (bool_decide (0 < size ((list_to_set (alias_tokens s) : gset tokens)
                             ∩ list_to_set (alias_tokens t)))%nat)
         (alias_tokens s) (alias_tokens t) = Ok best
    ∧ percent_in_common (parent_names s) (parent_names t) = Ok pp
    ∧ percent_in_common (child_names s) (child_names t) = Ok pc
    ∧ f !! "has_same_canonical_name"
        = Some (FBool (bool_decide (name_tokens s = name_tokens t)))
    ∧ f !! "has_same_stemmed_name"
        = Some (FBool (bool_decide (stemmed_tokens s = stemmed_tokens t)))
    ∧ f !! "has_same_lemmatized_name"
        = Some (FBool (bool_decide (lemmatized_tokens s = lemmatized_tokens t)))
    ∧ f !! "has_same_char_tokens"
        = Some (FBool (bool_decide (character_tokens s = character_tokens t)))
    ∧ f !! "has_alias_in_common"
        = Some (FBool (bool_decide (0 < size ((list_to_set (alias_tokens s) : gset tokens)
                             ∩ list_to_set (alias_tokens t)))%nat))
    ∧ f !! "name_token_jaccard" = Some (FNum name_sim.1)
    ∧ f !! "inverse_name_edit_distance" = Some (FNum name_sim.2)
    ∧ f !! "stemmed_token_jaccard" = Some (FNum stemmed_sim.1)
    ∧ f !! "inverse_stemmed_edit_distance" = Some (FNum stemmed_sim.2)
    ∧ f !! "lemmatized_token_jaccard" = Some (FNum lemmatized_sim.1)
    ∧ f !! "inverse_lemmatized_edit_distance" = Some (FNum lemmatized_sim.2)
    ∧ f !! "char_token_jaccard" = Some (FNum char_sim.1)
    ∧ f !! "inverse_char_token_edit_distance" = Some (FNum char_sim.2)
    ∧ f !! "max_alias_token_jaccard" = Some (FNum best.1)
    ∧ f !! "inverse_min_alias_edit_distance" = Some (FNum (py_sub 1 best.2))
    ∧ f !! "percent_parents_in_common" = Some (FNum pp)
    ∧ f !! "percent_children_in_common" = Some (FNum pc).
Proof.
  intros [Hs1 Hs2] [Ht1 Ht2] Hs Ht.
  unfold calculate_features. rewrite Hs, Ht. simpl.
  destruct (similarity_returns (name_tokens s) (name_tokens t)
              (length (name_tokens s) + length (name_tokens t)))
    as (name_sim & -> & Hname).
  { intros Hne Hz. apply Hne.
    destruct (name_tokens s), (name_tokens t); simpl in Hz; done || lia. }
  destruct (similarity_returns (stemmed_tokens s) (stemmed_tokens t)
              (length (name_tokens s) + length (name_tokens t)))
    as (stemmed_sim & -> & Hstem).
  { intros Hne Hz. apply Hne.
    destruct (stemmed_tokens s), (stemmed_tokens t); simpl in *; done || lia. }
  destruct (similarity_returns (lemmatized_tokens s) (lemmatized_tokens t)
              (length (name_tokens s) + length (name_tokens t)))
    as (lemmatized_sim & -> & Hlem).
  { intros Hne Hz. apply Hne.
    destruct (lemmatized_tokens s), (lemmatized_tokens t); simpl in *; done || lia. }
  destruct (similarity_returns (character_tokens s) (character_tokens t)
              (length (character_tokens s) + length (character_tokens t)))
    as (char_sim & -> & Hchar).
  { intros Hne Hz. apply Hne.
    destruct (character_tokens s), (character_tokens t); simpl in Hz; done || lia. }
  simpl.
  destruct (best_alias_returns
              (bool_decide (0 < size ((list_to_set (alias_tokens s) : gset tokens)
                             ∩ list_to_set (alias_tokens t)))%nat)
              (alias_tokens s) (alias_tokens t)) as (best & Hbest & _).
  rewrite Hbest. simpl.
  destruct (percent_in_common_returns (parent_names s) (parent_names t))
    as (pp & Hpp & _).
  destruct (percent_in_common_returns (child_names s) (child_names t))
    as (pc & Hpc & _).
  rewrite Hpp, Hpc. simpl.
  eexists _, name_sim, stemmed_sim, lemmatized_sim, char_sim, best, pp, pc.
  split; [reflexivity|].
  split_and!; try done; feature_lookup.
Qed.

End generator_facts.

Section relations_facts.
Variable normalize_string : string → string.
Variable tokenize_string : string → tokens.

Local Abbreviation _get_ent_names_from_relations :=
  (_get_ent_names_from_relations normalize_string tokenize_string).

Lemma get_ent_names_eq ent kb rel_types :
  Forall (λ rel_id, is_Some (relations kb !! rel_id)) (relation_ids ent) →
  Forall (λ rel_id, ∀ rel, relations kb !! rel_id = Some rel →
            relation_type rel ∈ rel_types → (2 ≤ length (entity_ids rel))%nat)
         (relation_ids ent) →
  _get_ent_names_from_relations ent kb rel_types
  = Ok (omap (name_of_ent_id normalize_string tokenize_string kb)
          (filter (λ e, is_Some (research_entity_id_to_entity_index kb !! e))
             (second_endpoints ent kb rel_types))).
Proof.
  unfold FeatureGenerator._get_ent_names_from_relations, second_endpoints.
  induction (relation_ids ent) as [|rel_id ids IH]; intros H1 H2; [done|].
  inversion H1 as [|?? [rel Hrel] H1']; subst.
  inversion H2 as [|?? Hlen H2']; subst.
  specialize (IH H1' H2').
  apply bind_inv in IH as (rels & Hrels & IH).
  apply bind_inv in IH as (ent_ids & Hidss & [= IH]).
  destruct (mapM (ent_ids_of_rel kb rel_types) rels) as [idss|] eqn:Hm; [|done].
  injection Hidss as <-.
  cbn [mapM]. rewrite Hrel. cbn [of_option]. rewrite bind_Ok, Hrels, !bind_Ok.
  cbn [mapM]. rewrite Hm. rewrite bind_cons, Hrel.
  unfold ent_ids_of_rel at 1. case_bool_decide as Hty.
  - specialize (Hlen rel Hrel Hty).
    destruct (entity_ids rel !! 1%nat) as [e1|] eqn:He1.
    2:{ apply lookup_ge_None in He1. lia. }
    cbn [of_option option_list]. rewrite bind_Ok.
    rewrite filter_app, omap_app, <- IH.
    change (option_list (Some e1)) with [e1].
    rewrite filter_cons, filter_nil.
    case_bool_decide as Hin.
    + rewrite decide_True by done. rewrite <- omap_app. reflexivity.
    + rewrite decide_False by done. reflexivity.
  - rewrite bind_Ok. cbn. by rewrite IH.
Qed.

Lemma ent_ids_of_rel_ext kb kb' rel_types rel rel' :
  research_entity_id_to_entity_index kb' = research_entity_id_to_entity_index kb →
  same_but_first rel rel' →
  ent_ids_of_rel kb' rel_types rel' = ent_ids_of_rel kb rel_types rel.
Proof.
  intros Hix [Hty Htl]. unfold ent_ids_of_rel.
  rewrite Hix, Hty, <- !(lookup_tail _ 0), Htl. reflexivity.
Qed.

Lemma get_ent_names_ext ent kb kb' rel_types :
  entities kb' = entities kb →
  research_entity_id_to_entity_index kb' = research_entity_id_to_entity_index kb →
  Forall (λ rel_id, option_Forall2 same_but_first
                      (relations kb !! rel_id) (relations kb' !! rel_id))
         (relation_ids ent) →
  _get_ent_names_from_relations ent kb' rel_types
  = _get_ent_names_from_relations ent kb rel_types.
Proof.
  intros Hents Hix Hrels.
  unfold FeatureGenerator._get_ent_names_from_relations.
  assert (Hlook :
    (∃ e, mapM (λ rel_id, of_option LookupError (relations kb !! rel_id))
               (relation_ids ent) = Raise e
          ∧ mapM (λ rel_id, of_option LookupError (relations kb' !! rel_id))
               (relation_ids ent) = Raise e)
    ∨ ∃ rels rels',
        mapM (λ rel_id, of_option LookupError (relations kb !! rel_id))
             (relation_ids ent) = Ok rels
        ∧ mapM (λ rel_id, of_option LookupError (relations kb' !! rel_id))
             (relation_ids ent) = Ok rels'
        ∧ Forall2 same_but_first rels rels').
  { induction Hrels as [|rel_id ids Hrel _ IH].
    - right. by exists [], [].
    - cbn [mapM]. destruct Hrel as [rel rel' Hrel|]; cbn [of_option].
      + rewrite !bind_Ok.
        destruct IH as [(e & -> & ->)|(rels & rels' & -> & -> & HF)].
        * left. by exists e.
        * right. exists (rel :: rels), (rel' :: rels').
          split_and!; [reflexivity|reflexivity|by constructor].
      + left. by exists LookupError. }
  destruct Hlook as [(e & -> & ->)|(rels & rels' & -> & -> & HF)]; [done|].
  rewrite !bind_Ok.
  assert (mapM (ent_ids_of_rel kb' rel_types) rels'
          = mapM (ent_ids_of_rel kb rel_types) rels) as ->.
  { induction HF as [|rel rel' rels rels' Hrel _ IH]; [done|].
    cbn [mapM]. rewrite IH, (ent_ids_of_rel_ext kb kb' _ rel rel' Hix Hrel).
    reflexivity. }
  destruct (mapM _ rels) as [idss|e]; [|done].
  cbn. f_equal. apply list_omap_ext, Forall2_same_length_lookup_2; [done|].
  intros i e1 e1' He1 He1'. assert (e1' = e1) as -> by congruence.
  unfold name_of_ent_id, get_entity_by_research_entity_id.
  by rewrite Hents, Hix.
Qed.

Lemma elem_of_second_endpoints ent kb rel_types e1 :
  e1 ∈ second_endpoints ent kb rel_types ↔
  ∃ rel_id rel, rel_id ∈ relation_ids ent ∧ relations kb !! rel_id = Some rel
    ∧ relation_type rel ∈ rel_types ∧ entity_ids rel !! 1%nat = Some e1.
Proof.
  unfold second_endpoints. rewrite list_elem_of_bind. split.
  - intros (rel_id & He & Hid). exists rel_id.
    destruct (relations kb !! rel_id) as [rel|]; [|by apply elem_of_nil in He].
    exists rel. case_bool_decide; [|by apply elem_of_nil in He].
    destruct (entity_ids rel !! 1%nat) as [e|]; [|by apply elem_of_nil in He].
    apply list_elem_of_singleton in He as ->. done.
  - intros (rel_id & rel & Hid & Hrel & Hty & He). exists rel_id.
    rewrite Hrel, bool_decide_eq_true_2, He by done. split; [|done].
    by apply list_elem_of_singleton.
Qed.

(** C10.  [_get_ent_names_from_relations] reads the second endpoint only.
    When the relation ids of the entity are relations of the knowledge base
    and the relations of the wanted types have two endpoints, the call
    returns; a name is in the result exactly when it is the tokenized
    canonical name of an entity that the second endpoint of such a relation
    resolves to, so that a second endpoint outside the entity index is
    passed over; and the result is the same in any knowledge base that
    differs only in the first endpoints of the relations. *)
Theorem get_ent_names_second_endpoint_only ent kb rel_types :
  Forall (λ rel_id, is_Some (relations kb !! rel_id)) (relation_ids ent) →
  Forall (λ rel_id, ∀ rel, relations kb !! rel_id = Some rel →
            relation_type rel ∈ rel_types → (2 ≤ length (entity_ids rel))%nat)
         (relation_ids ent) →
  ∃ names,
    _get_ent_names_from_relations ent kb rel_types = Ok names
    ∧ (∀ n, n ∈ names ↔
         ∃ rel_id rel e1 ent1,
           rel_id ∈ relation_ids ent ∧ relations kb !! rel_id = Some rel
           ∧ relation_type rel ∈ rel_types
           ∧ entity_ids rel !! 1%nat = Some e1
           ∧ get_entity_by_research_entity_id kb e1 = Some ent1
           ∧ n = tokenize_string (normalize_string (canonical_name ent1)))
    ∧ (∀ kb',
         entities kb' = entities kb →
         research_entity_id_to_entity_index kb'
           = research_entity_id_to_entity_index kb →
         Forall (λ rel_id, option_Forall2 same_but_first
                             (relations kb !! rel_id) (relations kb' !! rel_id))
                (relation_ids ent) →
         _get_ent_names_from_relations ent kb' rel_types = Ok names).
Proof.
  intros H1 H2. eexists. split; [by apply get_ent_names_eq|]. split.
  - intros n. rewrite list_elem_of_omap. split.
    + intros (e1 & [Hix He1]%list_elem_of_filter & Hn).
      apply elem_of_second_endpoints in He1 as (rel_id & rel & ? & ? & ? & ?).
      unfold name_of_ent_id in Hn.
      destruct (get_entity_by_research_entity_id kb e1) as [ent1|] eqn:Hent;
        [|done].
      injection Hn as <-. by exists rel_id, rel, e1, ent1.
    + intros (rel_id & rel & e1 & ent1 & ? & ? & ? & ? & Hent & ->).
      exists e1. split.
      * apply list_elem_of_filter. split.
        -- unfold get_entity_by_research_entity_id in Hent.
           destruct (research_entity_id_to_entity_index kb !! e1); [done|].
           discriminate.
        -- apply elem_of_second_endpoints. by exists rel_id, rel.
      * unfold name_of_ent_id. by rewrite Hent.
  - intros kb' Hents Hix Hrels.
    rewrite (get_ent_names_ext ent kb kb') by done. by apply get_ent_names_eq.
Qed.
End relations_facts.

Section features_claims.
Variable normalize_string : string → string.
Variable tokenize_string : string → tokens.
Variable stem : string → string.
Variable lemmatize : string → string.
Variable get_character_n_grams : string → nat → tokens.
Variable NGRAM_SIZE : nat.

Local Abbreviation init :=
  (init normalize_string tokenize_string stem lemmatize
     get_character_n_grams NGRAM_SIZE).

Lemma init_signatures s_kb t_kb fg s_ent_id t_ent_id s t :
  init s_kb t_kb = Ok fg →
  s_tokens fg !! s_ent_id = Some s → t_tokens fg !! t_ent_id = Some t →
  sig_ok s ∧ sig_ok t.
Proof.
  intros Hinit Hs Ht. apply init_ok in Hinit as (Hso & Hto & _).
  split; [exact (Hso _ _ Hs) | exact (Hto _ _ Ht)].
Qed.

(** C5.  On the signatures of a generator [calculate_features] returns,
    so that no division fails; and for each of the name, stemmed,
    lemmatized and character tokens, when the two sequences are the same
    (the empty ones included) the equality flag is true and the Jaccard
    similarity and the inverse edit distance are both 1.  The name tokens
    of a signature are the tokens of the normalized canonical name of an
    entity with the id. *)
Theorem calculate_features_same_tokens s_kb t_kb fg s_ent_id t_ent_id s t :
  init s_kb t_kb = Ok fg →
  s_tokens fg !! s_ent_id = Some s → t_tokens fg !! t_ent_id = Some t →
  ∃ f, calculate_features fg s_ent_id t_ent_id = Ok f
    ∧ (name_tokens s = name_tokens t →
         f !! "has_same_canonical_name" = Some (FBool true)
         ∧ f !! "name_token_jaccard" = Some (FNum 1)
         ∧ f !! "inverse_name_edit_distance" = Some (FNum 1))
    ∧ (stemmed_tokens s = stemmed_tokens t →
         f !! "has_same_stemmed_name" = Some (FBool true)
         ∧ f !! "stemmed_token_jaccard" = Some (FNum 1)
         ∧ f !! "inverse_stemmed_edit_distance" = Some (FNum 1))
    ∧ (lemmatized_tokens s = lemmatized_tokens t →
         f !! "has_same_lemmatized_name" = Some (FBool true)
         ∧ f !! "lemmatized_token_jaccard" = Some (FNum 1)
         ∧ f !! "inverse_lemmatized_edit_distance" = Some (FNum 1))
    ∧ (character_tokens s = character_tokens t →
         f !! "has_same_char_tokens" = Some (FBool true)
         ∧ f !! "char_token_jaccard" = Some (FNum 1)
         ∧ f !! "inverse_char_token_edit_distance" = Some (FNum 1))
    ∧ (∃ s_ent, s_ent ∈ entities s_kb ∧ research_entity_id s_ent = s_ent_id
         ∧ name_tokens s
           = tokenize_string (normalize_string (canonical_name s_ent)))
    ∧ (∃ t_ent, t_ent ∈ entities t_kb ∧ research_entity_id t_ent = t_ent_id
         ∧ name_tokens t
           = tokenize_string (normalize_string (canonical_name t_ent))).
Proof.
  intros Hinit Hs Ht.
  destruct (init_signatures _ _ _ _ _ _ _ Hinit Hs Ht) as [Hso Hto].
  destruct (calculate_features_returns fg s_ent_id t_ent_id s t Hso Hto Hs Ht)
    as (f & ns & ss & ls & cs & best & pp & pc & Hf & Hn & Hst & Hl & Hc & _ & _ & _
        & F1 & F2 & F3 & F4 & _ & N1 & N2 & S1 & S2 & L1 & L2 & C1 & C2 & _).
  destruct (init_lookup _ _ _ _ _ _ _ _ _ Hinit) as [Hsl Htl].
  exists f. split; [done|]. split_and!; [intros Heq..| |].
  - rewrite F1, N1, N2, (Hn Heq), bool_decide_eq_true_2 by done. done.
  - rewrite F2, S1, S2, (Hst Heq), bool_decide_eq_true_2 by done. done.
  - rewrite F3, L1, L2, (Hl Heq), bool_decide_eq_true_2 by done. done.
  - rewrite F4, C1, C2, (Hc Heq), bool_decide_eq_true_2 by done. done.
  - by apply Hsl.
  - by apply Htl.
Qed.

(** C3, amended.  When the two entities share an alias token sequence,
    [has_alias_in_common] is true, the scan of the alias pairs is skipped,
    and the two alias features are those of the initial values:
    [max_alias_token_jaccard] is 0 and [inverse_min_alias_edit_distance] is
    1 - 1 = 0. *)
Theorem calculate_features_alias_in_common
    s_kb t_kb fg s_ent_id t_ent_id s t (a : tokens) :
  init s_kb t_kb = Ok fg →
  s_tokens fg !! s_ent_id = Some s → t_tokens fg !! t_ent_id = Some t →
  a ∈ alias_tokens s → a ∈ alias_tokens t →
  ∃ f, calculate_features fg s_ent_id t_ent_id = Ok f
    ∧ f !! "has_alias_in_common" = Some (FBool true)
    ∧ f !! "max_alias_token_jaccard" = Some (FNum 0)
    ∧ f !! "inverse_min_alias_edit_distance" = Some (FNum 0).
Proof.
  intros Hinit Hs Ht Has Hat.
  destruct (init_signatures _ _ _ _ _ _ _ Hinit Hs Ht) as [Hso Hto].
  destruct (calculate_features_returns fg s_ent_id t_ent_id s t Hso Hto Hs Ht)
    as (f & ns & ss & ls & cs & best & pp & pc & Hf & _ & _ & _ & _ & Hbest & _ & _
        & _ & _ & _ & _ & F5 & _ & _ & _ & _ & _ & _ & _ & _ & A1 & A2 & _).
  assert (Hcommon : (0 < size ((list_to_set (alias_tokens s) : gset tokens)
                                 ∩ list_to_set (alias_tokens t)))%nat).
  { apply Nat.neq_0_lt_0. intros Hz. apply size_empty_inv in Hz.
    assert (a ∈ (list_to_set (alias_tokens s) : gset tokens)
                  ∩ list_to_set (alias_tokens t)) as Hin by set_solver.
    apply Hz in Hin. set_solver. }
  rewrite bool_decide_eq_true_2 in Hbest, F5 by done.
  injection Hbest as <-.
  exists f. by rewrite F5, A1, A2.
Qed.

(** C6.  The overlap of the parents, and in the same way of the children,
    is the size of the intersection of the two sets of related names
    divided by the mean of their sizes when neither set is empty, and 0 when
    one of them is. *)
Theorem calculate_features_relational_overlap s_kb t_kb fg s_ent_id t_ent_id s t :
  init s_kb t_kb = Ok fg →
  s_tokens fg !! s_ent_id = Some s → t_tokens fg !! t_ent_id = Some t →
  ∃ f pp pc, calculate_features fg s_ent_id t_ent_id = Ok f
    ∧ f !! "percent_parents_in_common" = Some (FNum pp)
    ∧ f !! "percent_children_in_common" = Some (FNum pc)
    ∧ ((0 < size (parent_names s))%nat → (0 < size (parent_names t))%nat →
       (pp == Qnat (size (parent_names s ∩ parent_names t))
              / ((Qnat (size (parent_names s)) + Qnat (size (parent_names t))) / 2))%Q)
    ∧ (size (parent_names s) = 0%nat ∨ size (parent_names t) = 0%nat → pp = 0%Q)
    ∧ ((0 < size (child_names s))%nat → (0 < size (child_names t))%nat →
       (pc == Qnat (size (child_names s ∩ child_names t))
              / ((Qnat (size (child_names s)) + Qnat (size (child_names t))) / 2))%Q)
    ∧ (size (child_names s) = 0%nat ∨ size (child_names t) = 0%nat → pc = 0%Q).
Proof.
  intros Hinit Hs Ht.
  destruct (init_signatures _ _ _ _ _ _ _ Hinit Hs Ht) as [Hso Hto].
  destruct (calculate_features_returns fg s_ent_id t_ent_id s t Hso Hto Hs Ht)
    as (f & ns & ss & ls & cs & best & pp & pc & Hf & _ & _ & _ & _ & _ & Hpp & Hpc
        & _ & _ & _ & _ & _ & _ & _ & _ & _ & _ & _ & _ & _ & _ & _ & P1 & P2).
  destruct (percent_in_common_returns (parent_names s) (parent_names t))
    as (pp' & Hpp' & Hp1 & Hp2).
  destruct (percent_in_common_returns (child_names s) (child_names t))
    as (pc' & Hpc' & Hc1 & Hc2).
  assert (pp' = pp) as -> by congruence. assert (pc' = pc) as -> by congruence.
  by exists f, pp, pc.
Qed.
End features_claims.

(** C3 as stated fails: the entities S:1 and T:1 of the examples share the
    alias "cor", and the inverse of the least alias edit distance is 0, not 1. *)
Lemma alias_in_common_inverse_distance_is_not_one :
  Examples.feature "S:1" "T:1" "has_alias_in_common" = Ok (Some (FBool true))
  ∧ Examples.feature "S:1" "T:1" "max_alias_token_jaccard" = Ok (Some (FNum 0))
  ∧ Examples.feature "S:1" "T:1" "inverse_min_alias_edit_distance"
    = Ok (Some (FNum 0))
  ∧ Examples.feature "S:1" "T:1" "inverse_min_alias_edit_distance"
    ≠ Ok (Some (FNum 1)).
Proof.
  assert (H : Examples.feature "S:1" "T:1" "inverse_min_alias_edit_distance"
              = Ok (Some (FNum 0))) by (vm_compute; reflexivity).
  split_and!; [vm_compute; reflexivity..|exact H|].
  rewrite H. discriminate.
Qed.

Lemma calculate_features_alias_in_common_witness :
  ∃ f, calculate_features Examples.feat_gen "S:1" "T:1" = Ok f
    ∧ f !! "has_alias_in_common" = Some (FBool true)
    ∧ f !! "max_alias_token_jaccard" = Some (FNum 0)
    ∧ f !! "inverse_min_alias_edit_distance" = Some (FNum 0).
Proof.
  apply (calculate_features_alias_in_common
           Examples.normalize_string Examples.tokenize_string Examples.stem
           Examples.lemmatize Examples.get_character_n_grams Examples.NGRAM_SIZE
           Examples.s_kb Examples.t_kb Examples.feat_gen "S:1" "T:1"
           (Examples.s_sig "S:1") (Examples.t_sig "T:1") ["cor"]).
  - vm_compute; reflexivity.
  - vm_compute; reflexivity.
  - vm_compute; reflexivity.
  - apply (bool_decide_unpack _). vm_compute. exact I.
  - apply (bool_decide_unpack _). vm_compute. exact I.
Defined.

Lemma calculate_features_same_tokens_witness :
  name_tokens (Examples.s_sig "S:3") = []
  ∧ name_tokens (Examples.t_sig "T:3") = []
  ∧ ∃ f, calculate_features Examples.feat_gen "S:3" "T:3" = Ok f
      ∧ f !! "has_same_canonical_name" = Some (FBool true)
      ∧ f !! "name_token_jaccard" = Some (FNum 1)
      ∧ f !! "inverse_name_edit_distance" = Some (FNum 1).
Proof.
  split; [vm_compute; reflexivity|]. split; [vm_compute; reflexivity|].
  destruct (calculate_features_same_tokens
              Examples.normalize_string Examples.tokenize_string Examples.stem
              Examples.lemmatize Examples.get_character_n_grams Examples.NGRAM_SIZE
              Examples.s_kb Examples.t_kb Examples.feat_gen "S:3" "T:3"
              (Examples.s_sig "S:3") (Examples.t_sig "T:3"))
    as (f & Hf & Hname & _).
  - vm_compute; reflexivity.
  - vm_compute; reflexivity.
  - vm_compute; reflexivity.
  - exists f. split; [exact Hf|]. apply Hname. vm_compute; reflexivity.
Defined.

Lemma calculate_features_relational_overlap_witness :
  ∃ f pp pc, calculate_features Examples.feat_gen "S:1" "T:1" = Ok f
    ∧ f !! "percent_parents_in_common" = Some (FNum pp)
    ∧ f !! "percent_children_in_common" = Some (FNum pc)
    ∧ (pp == 1 / ((1 + 1) / 2))%Q
    ∧ pc = 0%Q.
Proof.
  destruct (calculate_features_relational_overlap
              Examples.normalize_string Examples.tokenize_string Examples.stem
              Examples.lemmatize Examples.get_character_n_grams Examples.NGRAM_SIZE
              Examples.s_kb Examples.t_kb Examples.feat_gen "S:1" "T:1"
              (Examples.s_sig "S:1") (Examples.t_sig "T:1"))
    as (f & pp & pc & Hf & Hpp & Hpc & Hp1 & _ & _ & Hc0).
  - vm_compute; reflexivity.
  - vm_compute; reflexivity.
  - vm_compute; reflexivity.
  - exists f, pp, pc. split_and!; [exact Hf|exact Hpp|exact Hpc| |].
    + eapply Qeq_trans; [apply Hp1; vm_compute; lia|]. vm_compute. reflexivity.
    + apply Hc0. left. vm_compute. reflexivity.
Defined.

Lemma get_ent_names_second_endpoint_only_witness :
  ∃ names,
    _get_ent_names_from_relations Examples.normalize_string Examples.tokenize_string
      Examples.organ Examples.s_kb PARENT_REL_LABELS = Ok names
    ∧ ["organ"] ∈ names.
Proof.
  destruct (get_ent_names_second_endpoint_only
              Examples.normalize_string Examples.tokenize_string
              Examples.organ Examples.s_kb PARENT_REL_LABELS)
    as (names & Hnames & Hin & _).
  - repeat constructor. eexists. vm_compute. reflexivity.
  - repeat constructor. intros rel Hrel _. vm_compute in Hrel.
    injection Hrel as <-. simpl. lia.
  - exists names. split; [exact Hnames|]. apply Hin.
    exists 0%nat, (Examples.rel "is_a" "S:1" "S:2"), "S:2", Examples.organ.
    split_and!.
    + left.
    + vm_compute. reflexivity.
    + apply (bool_decide_unpack _). vm_compute. exact I.
    + reflexivity.
    + vm_compute. reflexivity.
    + vm_compute. reflexivity.
Defined.

End FeatureGeneratorProps.

(** * The reader of TSV files *)

Module CsvProps.
Import Csv.

Lemma app_String c s r : String c s +:+ r = String c (s +:+ r).
Proof. reflexivity. Qed.
Lemma app_empty_l r : EmptyString +:+ r = r.
Proof. reflexivity. Qed.
Lemma app_empty_r s : s +:+ EmptyString = s.
Proof. induction s as [|c s IH]; [done|]. by rewrite app_String, IH. Qed.
Lemma app_assoc_string s1 s2 s3 : (s1 +:+ s2) +:+ s3 = s1 +:+ (s2 +:+ s3).
Proof. induction s1 as [|c s IH]; [done|]. by rewrite !app_String, IH. Qed.
Lemma length_app_string s1 s2 :
  String.length (s1 +:+ s2) = (String.length s1 + String.length s2)%nat.
Proof. induction s1 as [|c s IH]; [done|]. rewrite app_String. simpl. by rewrite IH. Qed.

Lemma string_forall_app P s1 s2 :
  string_forall P (s1 +:+ s2) = string_forall P s1 && string_forall P s2.
Proof.
  induction s1 as [|c s IH]; [done|]. rewrite app_String. simpl.
  by rewrite IH, andb_assoc.
Qed.

Lemma plain_char_inv c :
  plain_char c = true → c ≠ TAB ∧ c ≠ LF ∧ c ≠ CR ∧ c ≠ NUL.
Proof.
  unfold plain_char. rewrite negb_true_iff, !orb_false_iff.
  rewrite !bool_decide_eq_false. tauto.
Qed.

Lemma is_newline_plain c : plain_char c = true → is_newline c = false.
Proof.
  intros (_ & ? & ? & _)%plain_char_inv. unfold is_newline.
  by rewrite !bool_decide_eq_false_2.
Qed.

(** ** The parser on plain fields *)

Lemma parse_line_in_field (f rest pre : string) (fs : list string) :
  string_forall plain_char f = true →
  (Z.of_nat (String.length pre + String.length f) ≤ field_limit)%Z →
  parse_line {| state := IN_FIELD; field := pre; fields := fs |} (f +:+ rest)
  = parse_line {| state := IN_FIELD; field := pre +:+ f; fields := fs |} rest.
Proof.
  revert pre. induction f as [|c f IH]; intros pre Hplain Hlen.
  - by rewrite app_empty_l, app_empty_r.
  - simpl in Hplain. apply andb_true_iff in Hplain as [Hc Hf].
    pose proof (is_newline_plain c Hc) as Hnl.
    apply plain_char_inv in Hc as (Htab & _ & _ & Hnul).
    rewrite app_String. cbn [parse_line]. rewrite decide_False by done.
    unfold parse_process_char. cbn [state]. rewrite Hnl.
    rewrite (decide_False (P := c = delimiter)) by done.
    unfold parse_add_char. cbn [field state fields].
    rewrite decide_False by (simpl in Hlen; lia).
    rewrite bind_Ok, IH; [|done|].
    + by rewrite app_assoc_string, app_String, app_empty_l.
    + rewrite length_app_string. simpl in *. lia.
Qed.

Lemma csv_plain_inv f :
  csv_plain f = true →
  string_forall plain_char f = true
  ∧ (Z.of_nat (String.length f) ≤ field_limit)%Z
  ∧ match f with String c _ => c ≠ QUOTE | EmptyString => True end.
Proof.
  unfold csv_plain. rewrite !andb_true_iff, bool_decide_eq_true.
  intros [[? Hq] ?]. split_and!; [done..|].
  destruct f; [done|]. by apply negb_true_iff, bool_decide_eq_false in Hq.
Qed.

(** A plain field that a separator follows, at the start of a record or of a
    field. *)
Lemma parse_line_field st (f rest : string) (fs : list string) :
  st = START_RECORD ∨ st = START_FIELD →
  csv_plain f = true →
  parse_line {| state := st; field := EmptyString; fields := fs |}
             (f +:+ String TAB rest)
  = parse_line {| state := START_FIELD; field := EmptyString;
                  fields := fs ++ [f] |} rest.
Proof.
  intros Hst (Hplain & Hlen & Hq)%csv_plain_inv.
  assert (Hstart : ∀ ch, is_newline ch = false →
    parse_process_char {| state := st; field := EmptyString; fields := fs |} (Some ch)
    = start_field {| state := START_FIELD; field := EmptyString; fields := fs |}
        (Some ch)).
  { intros ch Hch. unfold parse_process_char. cbn [state].
    destruct Hst as [-> | ->]; [by rewrite Hch|done]. }
  destruct f as [|c f].
  - rewrite app_empty_l. cbn [parse_line]. rewrite decide_False by done.
    rewrite Hstart by done. unfold start_field. cbn.
    rewrite (decide_False (P := TAB = QUOTE)) by done.
    rewrite decide_True by done. done.
  - simpl in Hplain. apply andb_true_iff in Hplain as [Hc Hf].
    pose proof (is_newline_plain c Hc) as Hnl.
    apply plain_char_inv in Hc as (Htab & _ & _ & Hnul).
    rewrite app_String. cbn [parse_line]. rewrite decide_False by done.
    rewrite Hstart by done. unfold start_field. rewrite Hnl.
    rewrite (decide_False (P := c = QUOTE)) by done.
    rewrite (decide_False (P := c = delimiter)) by done.
    unfold parse_add_char. cbn [field state fields String.length].
    rewrite decide_False by (unfold field_limit; lia).
    rewrite !bind_Ok. unfold set_state. cbn [field fields state].
    rewrite app_empty_l, parse_line_in_field; [|done|simpl in *; lia].
    cbn [parse_line]. rewrite decide_False by done.
    unfold parse_process_char. cbn [state].
    change (is_newline TAB) with false. cbv iota.
    rewrite decide_True by done. by rewrite bind_Ok.
Qed.

(** The last plain field of a line. *)
Lemma parse_line_last_field (f : string) (fs : list string) :
  csv_plain f = true →
  parse_line {| state := START_FIELD; field := EmptyString; fields := fs |}
             (f +:+ String LF EmptyString)
  = Ok {| state := EAT_CRNL; field := EmptyString; fields := fs ++ [f] |}.
Proof.
  intros (Hplain & Hlen & Hq)%csv_plain_inv.
  destruct f as [|c f].
  - rewrite app_empty_l. cbn [parse_line]. rewrite decide_False by done.
    unfold parse_process_char, start_field. cbn [state].
    change (is_newline LF) with true. cbv iota. by rewrite bind_Ok.
  - simpl in Hplain. apply andb_true_iff in Hplain as [Hc Hf].
    pose proof (is_newline_plain c Hc) as Hnl.
    apply plain_char_inv in Hc as (Htab & _ & _ & Hnul).
    rewrite app_String. cbn [parse_line]. rewrite decide_False by done.
    unfold parse_process_char at 1. cbn [state]. unfold start_field. rewrite Hnl.
    rewrite (decide_False (P := c = QUOTE)) by done.
    rewrite (decide_False (P := c = delimiter)) by done.
    unfold parse_add_char. cbn [field state fields String.length].
    rewrite decide_False by (unfold field_limit; lia).
    rewrite !bind_Ok. unfold set_state. cbn [field fields state].
    rewrite app_empty_l, parse_line_in_field; [|done|simpl in *; lia].
    cbn [parse_line]. rewrite decide_False by done.
    unfold parse_process_char. cbn [state].
    change (is_newline LF) with true. cbv iota. by rewrite bind_Ok.
Qed.

(** ** Lines *)

Lemma plain_no_newline s :
  string_forall plain_char s = true → string_forall no_newline s = true.
Proof.
  induction s as [|c s IH]; [done|]. simpl. rewrite !andb_true_iff.
  intros [Hc Hs]. split; [|by apply IH].
  unfold no_newline. by rewrite is_newline_plain.
Qed.

Lemma universal_newlines_line body rest :
  string_forall no_newline body = true →
  universal_newlines (body +:+ String LF rest)
  = body +:+ String LF (universal_newlines rest).
Proof.
  induction body as [|c body IH]; intros Hb.
  - rewrite !app_empty_l. cbn [universal_newlines].
    by rewrite decide_False by done.
  - simpl in Hb. apply andb_true_iff in Hb as [Hc Hb].
    rewrite !app_String. cbn [universal_newlines].
    rewrite decide_False, IH; [done..|].
    intros ->. done.
Qed.

Lemma split_lines_line body rest :
  string_forall no_newline body = true →
  split_lines (body +:+ String LF rest)
  = (body +:+ String LF EmptyString) :: split_lines rest.
Proof.
  induction body as [|c body IH]; intros Hb.
  - rewrite !app_empty_l. cbn [split_lines]. by rewrite decide_True by done.
  - simpl in Hb. apply andb_true_iff in Hb as [Hc Hb].
    rewrite !app_String. cbn [split_lines].
    rewrite decide_False, IH; [done..|].
    intros ->. done.
Qed.

Lemma concat_empty_cons (x : string) (xs : list string) :
  String.concat EmptyString (x :: xs) = x +:+ String.concat EmptyString xs.
Proof.
  destruct xs as [|y xs]; [by rewrite app_empty_r|]. reflexivity.
Qed.

(** The text of lines that hold no end of line but the one they end with is
    read back as these lines. *)
Lemma readlines_concat (bodies : list string) :
  Forall (λ body, string_forall no_newline body = true) bodies →
  readlines (String.concat EmptyString ((λ body, body +:+ String LF EmptyString) <$> bodies))
  = (λ body, body +:+ String LF EmptyString) <$> bodies.
Proof.
  unfold readlines. induction 1 as [|body bodies Hb _ IH]; [done|].
  rewrite fmap_cons, concat_empty_cons, app_assoc_string, app_String, app_empty_l.
  rewrite universal_newlines_line, split_lines_line by done.
  by rewrite IH.
Qed.


End CsvProps.

(** * The orchestrator *)

Module OntoEmmaProps.
Import Csv OntoEmma CsvProps FeatureGeneratorProps.

Section evaluation_facts.
Variable float_of_string : string → option Q.

Local Abbreviation positive_score := (positive_score float_of_string).
Local Abbreviation float_value := (float_value float_of_string).
Local Abbreviation positive := (positive float_of_string).
Local Abbreviation parses := (parses float_of_string).
Local Abbreviation gold_positives_of := (gold_positives_of float_of_string).
Local Abbreviation load_alignment := (load_alignment float_of_string).
Local Abbreviation evaluate_alignment := (evaluate_alignment float_of_string).

Lemma positive_score_parses score :
  parses score → ∃ b, positive_score score = Ok b ∧ (b = true ↔ positive score).
Proof.
  unfold OntoEmma.positive, OntoEmma.positive_score. destruct score as [|s|x]; simpl.
  - intros _. exists false. split; [done|]. split; [done|]. by intros (x & ? & _).
  - intros Hs. case_bool_decide as He.
    + exists false. split; [done|]. split; [done|]. by intros (x & ? & _).
    + destruct Hs as [?|[x Hx]]; [done|]. rewrite Hx. simpl.
      exists (Qlt_bool 0 x). split; [done|]. rewrite Qlt_bool_iff. split.
      * intros. by exists x.
      * by intros (y & [= <-] & ?).
  - intros _. exists (Qlt_bool 0 x). split; [done|]. rewrite Qlt_bool_iff. split.
    + intros. by exists x.
    + by intros (y & [= <-] & ?).
Qed.

Lemma positive_score_fails score :
  ¬ parses score → positive_score score = Raise ValueError.
Proof.
  unfold OntoEmma.positive_score. destruct score as [|s|x]; simpl; [done| |done].
  intros Hs. case_bool_decide as He; [by destruct Hs; left|].
  destruct (float_of_string s) eqn:E; [|done]. destruct Hs. right. by eexists.
Qed.

Lemma positive_score_cases score :
  (parses score ∧ ∃ b, positive_score score = Ok b)
  ∨ (¬ parses score ∧ positive_score score = Raise ValueError).
Proof.
  destruct score as [|s|x]; simpl; [left; eauto| |left; eauto].
  case_bool_decide as He; [left; eauto|].
  destruct (float_of_string s) as [x|] eqn:E; simpl.
  - left. eauto.
  - right. split; [|done]. intros [?|[x Hx]]; [done|]. congruence.
Qed.

Lemma gold_positives_of_parses mappings :
  Forall (λ m, parses m.2) mappings →
  ∃ gp, gold_positives_of mappings = Ok gp
    ∧ ∀ s_ent t_ent, (s_ent, t_ent) ∈ gp ↔
         ∃ score, (s_ent, t_ent, score) ∈ mappings ∧ positive score.
Proof.
  unfold OntoEmma.gold_positives_of. intros Hall.
  assert (∃ pairs,
    mapM (λ '(s_ent, t_ent, score),
            b ← positive_score score;
            Ok (if b : bool then [(s_ent, t_ent)] else [])) mappings = Ok pairs
    ∧ ∀ s_ent t_ent, (s_ent, t_ent) ∈ concat pairs ↔
         ∃ score, (s_ent, t_ent, score) ∈ mappings ∧ positive score)
    as (pairs & -> & Hpairs).
  { induction Hall as [|[[s t] score] mappings Hm _ (pairs & IH & Hpairs)].
    - exists []. split; [done|]. intros s t. split.
      + by intros ?%elem_of_nil.
      + by intros (? & ?%elem_of_nil & _).
    - destruct (positive_score_parses score Hm) as (b & Hb & Hpos).
      cbn [mapM]. rewrite Hb, IH. eexists. split; [reflexivity|].
      intros s' t'. cbn [concat]. rewrite elem_of_app, Hpairs. split.
      + intros [Hin|(score' & ? & ?)].
        * destruct b; [|by apply elem_of_nil in Hin].
          apply list_elem_of_singleton in Hin as [= -> ->].
          exists score. split; [left|by apply Hpos].
        * exists score'. split; [by right|done].
      + intros (score' & Hin & Hp). apply elem_of_cons in Hin as [[= -> -> ->]|Hin].
        * left. apply Hpos in Hp as ->. by apply list_elem_of_singleton.
        * right. by exists score'. }
  eexists. split; [reflexivity|]. intros s t.
  by rewrite elem_of_list_to_set.
Qed.

Lemma gold_positives_of_fails mappings :
  Exists (λ m, ¬ parses m.2) mappings →
  gold_positives_of mappings = Raise ValueError.
Proof.
  unfold OntoEmma.gold_positives_of. intros Hex.
  assert (mapM (λ '(s_ent, t_ent, score),
            b ← positive_score score;
            Ok (if b : bool then [(s_ent, t_ent)] else [])) mappings
          = Raise ValueError) as Hm; [|by rewrite Hm].
  induction mappings as [|[[s t] score] mappings IH]; [by inversion Hex|].
  cbn [mapM]. destruct (positive_score_cases score) as [[Hp [b Hb]]|[Hp Hb]].
  - rewrite Hb, bind_Ok, IH; [done|]. by inversion Hex.
  - by rewrite Hb.
Qed.

(** C4, amended.  With an empty predicted alignment the evaluation returns
    no precision, no recall and no F1 score, whatever the gold positives
    are; every gold positive is written to the file of missed alignments. *)
Theorem evaluate_alignment_no_predictions gold s_kb t_kb mappings gp :
  load_alignment gold = Ok mappings →
  gold_positives_of mappings = Ok gp →
  evaluate_alignment gold [] s_kb t_kb
  = Ok (missed_line s_kb t_kb <$> elements gp, (None, None, None)).
Proof.
  intros Hload Hgp. unfold OntoEmma.evaluate_alignment.
  rewrite Hload, bind_Ok, Hgp, bind_Ok. cbn [fmap list_fmap list_to_set].
  rewrite size_empty, bool_decide_eq_false_2 by lia.
  by rewrite difference_empty_L.
Qed.

(** C1: what the code does when no pair of the gold file is positive and
    the predicted alignment is not empty: the division of the recall
    raises [ZeroDivisionError]. *)
Theorem evaluate_alignment_empty_gold gold alignment s_kb t_kb mappings :
  load_alignment gold = Ok mappings →
  gold_positives_of mappings = Ok ∅ →
  alignment ≠ [] →
  evaluate_alignment gold alignment s_kb t_kb = Raise ZeroDivisionError.
Proof.
  intros Hload Hgp Hne. unfold OntoEmma.evaluate_alignment.
  rewrite Hload, bind_Ok, Hgp, bind_Ok.
  set (ap := list_to_set _ : gset (string * string)).
  assert (Hsize : (0 < size ap)%nat).
  { destruct alignment as [|[[s t] x] al]; [done|].
    apply Nat.neq_0_lt_0. intros Hz. apply size_empty_inv in Hz.
    assert ((s, t) ∈ ap) as Hin by (subst ap; set_solver).
    apply Hz in Hin. set_solver. }
  clearbody ap. rewrite bool_decide_eq_true_2 by done.
  rewrite (py_div_nat _ (size ap)) by lia. rewrite bind_Ok.
  by rewrite size_empty, py_div_nat_0.
Qed.
End evaluation_facts.

Section align_facts.
Variable normalize_string : string → string.
Variable tokenize_string : string → list string.
Variable stem : string → string.
Variable lemmatize : string → string.
Variable get_character_n_grams : string → nat → list string.
Variable NGRAM_SIZE : nat.
Variable select_candidates : KnowledgeBase → KnowledgeBase → string → list string.
Variable predict_entity_pair : list features → list (list Q).
Variable SCORE_THRESHOLD : Q.
Variable KEEP_TOP_K_CANDIDATES : nat.

Local Abbreviation init :=
  (FeatureGenerator.init normalize_string tokenize_string stem lemmatize
     get_character_n_grams NGRAM_SIZE).
Local Abbreviation align_candidate :=
  (align_candidate predict_entity_pair SCORE_THRESHOLD).
Local Abbreviation match_probability :=
  (match_probability predict_entity_pair).
Local Abbreviation align_predictions :=
  (align_predictions select_candidates predict_entity_pair
     SCORE_THRESHOLD KEEP_TOP_K_CANDIDATES).

Lemma align_candidates_spec fg s (ts : list string) (acc : list prediction) :
  (∀ t, t ∈ ts → returns (FeatureGenerator.calculate_features fg s t)) →
  (∀ f, is_Some (predict_entity_pair [f] !! 0%nat ≫= (.!! 1%nat))) →
  ∃ new, for_each (align_candidate fg s) ts acc = Ok (acc ++ new)%list
    ∧ ∀ s' t p, (s', t, p) ∈ new ↔
        s' = s ∧ t ∈ ts ∧ match_probability fg s t p ∧ (SCORE_THRESHOLD <= p)%Q.
Proof.
  intros Hcalc Hpred. revert acc.
  induction ts as [|t ts IH]; intros acc.
  - exists []. split; [by rewrite app_nil_r|]. intros s' t p. split.
    + by intros ?%elem_of_nil.
    + by intros (_ & ?%elem_of_nil & _).
  - destruct (Hcalc t) as [f Hf]; [left|].
    destruct (Hpred f) as [p Hp].
    assert (IHnew := IH ltac:(intros; apply Hcalc; by right)). clear IH.
    assert (Hhead : align_candidate fg s t acc
              = Ok (if Qle_bool SCORE_THRESHOLD p
                    then (acc ++ [(s, t, p)])%list else acc)).
    { unfold OntoEmma.align_candidate. rewrite Hf, bind_Ok, Hp.
      cbn [of_option]. rewrite bind_Ok. by destruct (Qle_bool _ _). }
    destruct (Qle_bool SCORE_THRESHOLD p) eqn:Hthr.
    + destruct (IHnew (acc ++ [(s, t, p)])%list) as (new & Hrun & Hnew).
      exists ((s, t, p) :: new). split.
      { cbn [for_each]. rewrite Hhead, bind_Ok, Hrun. by rewrite <- app_assoc. }
      intros s' t' p'. rewrite elem_of_cons, Hnew, elem_of_cons. split.
      * intros [[= -> -> ->]|(-> & ? & ? & ?)].
        -- split_and!; [done|by left| |by apply Qle_bool_iff]. by exists f.
        -- split_and!; [done|by right|done..].
      * intros (-> & [->|Hin] & Hm & Hle).
        -- left. destruct Hm as (f' & Hf' & Hp').
           assert (f' = f) as -> by congruence. congruence.
        -- right. done.
    + destruct (IHnew acc) as (new & Hrun & Hnew).
      exists new. split.
      { cbn [for_each]. by rewrite Hhead, bind_Ok, Hrun. }
      intros s' t' p'. rewrite Hnew, elem_of_cons. split.
      * intros (-> & ? & ? & ?). split_and!; [done|by right|done..].
      * intros (-> & [->|Hin] & Hm & Hle); [|done].
        destruct Hm as (f' & Hf' & Hp').
        assert (f' = f) as -> by congruence.
        assert (p' = p) as -> by congruence.
        apply Qle_bool_iff in Hle. congruence.
Qed.

(** C8.  When the candidates that are kept are entities of the target and
    the classifier answers with a row of two probabilities, the loop of
    [align] returns; a triple is in the alignment exactly when its source
    is an entity of the source, its target is among the first
    [KEEP_TOP_K_CANDIDATES] candidates of that source, and its score is the
    probability of a match of the pair and is at least [SCORE_THRESHOLD];
    and the candidates scored for a source are at most
    [KEEP_TOP_K_CANDIDATES]. *)
Theorem align_predictions_top_k_threshold s_kb t_kb fg :
  init s_kb t_kb = Ok fg →
  (∀ s_ent t_ent_id,
     s_ent ∈ entities s_kb →
     t_ent_id ∈ take KEEP_TOP_K_CANDIDATES
                  (select_candidates s_kb t_kb (research_entity_id s_ent)) →
     t_ent_id ∈ research_entity_id <$> entities t_kb) →
  (∀ f, is_Some (predict_entity_pair [f] !! 0%nat ≫= (.!! 1%nat))) →
  ∃ alignment,
    align_predictions fg s_kb t_kb = Ok alignment
    ∧ (∀ s t p, (s, t, p) ∈ alignment ↔
         (∃ s_ent, s_ent ∈ entities s_kb ∧ research_entity_id s_ent = s)
         ∧ t ∈ take KEEP_TOP_K_CANDIDATES (select_candidates s_kb t_kb s)
         ∧ match_probability fg s t p
         ∧ (SCORE_THRESHOLD <= p)%Q)
    ∧ (∀ s, length (take KEEP_TOP_K_CANDIDATES (select_candidates s_kb t_kb s))
            ≤ KEEP_TOP_K_CANDIDATES)%nat.
Proof.
  intros Hinit Hcand Hpred.
  destruct (init_ok _ _ _ _ _ _ _ _ _ Hinit) as (Hso & Hto & Hsd & Htd).
  assert (Hcalc : ∀ s_ent t, s_ent ∈ entities s_kb →
    t ∈ take KEEP_TOP_K_CANDIDATES
          (select_candidates s_kb t_kb (research_entity_id s_ent)) →
    returns (FeatureGenerator.calculate_features fg (research_entity_id s_ent) t)).
  { intros s_ent t Hs Ht.
    assert (research_entity_id s_ent ∈ dom (FeatureGenerator.s_tokens fg)) as Hs'.
    { rewrite Hsd. apply elem_of_list_to_set, list_elem_of_fmap. by exists s_ent. }
    assert (t ∈ dom (FeatureGenerator.t_tokens fg)) as Ht'.
    { rewrite Htd. apply elem_of_list_to_set. by eapply Hcand. }
    apply elem_of_dom in Hs' as [ss Hss]. apply elem_of_dom in Ht' as [st Hst].
    destruct (calculate_features_returns fg _ _ ss st
                (Hso _ _ Hss) (Hto _ _ Hst) Hss Hst) as (f & ? & ? & ? & ? & ? & ? & ? & Hf & _).
    by exists f. }
  unfold OntoEmma.align_predictions.
  assert (Hloop : ∀ (ents : list Entity) (acc : list prediction),
    (∀ s_ent, s_ent ∈ ents → s_ent ∈ entities s_kb) →
    ∃ new,
      for_each (λ s_ent,
          for_each (align_candidate fg (research_entity_id s_ent))
            (take KEEP_TOP_K_CANDIDATES
               (select_candidates s_kb t_kb (research_entity_id s_ent))))
        ents acc = Ok (acc ++ new)%list
      ∧ ∀ s t p, (s, t, p) ∈ new ↔
          (∃ s_ent, s_ent ∈ ents ∧ research_entity_id s_ent = s)
          ∧ t ∈ take KEEP_TOP_K_CANDIDATES (select_candidates s_kb t_kb s)
          ∧ match_probability fg s t p
          ∧ (SCORE_THRESHOLD <= p)%Q).
  { induction ents as [|s_ent ents IH]; intros acc Hents.
    - exists []. split; [by rewrite app_nil_r|]. intros s t p. split.
      + by intros ?%elem_of_nil.
      + by intros ((? & ?%elem_of_nil & _) & _).
    - destruct (align_candidates_spec fg (research_entity_id s_ent)
                  (take KEEP_TOP_K_CANDIDATES
                     (select_candidates s_kb t_kb (research_entity_id s_ent))) acc)
        as (new1 & Hrun1 & Hnew1); [|done|].
      { intros t Ht. apply Hcalc; [apply Hents; left|done]. }
      destruct (IH (acc ++ new1)%list) as (new2 & Hrun2 & Hnew2).
      { intros; apply Hents; by right. }
      cbn [for_each]. rewrite Hrun1, bind_Ok, Hrun2.
      exists (new1 ++ new2)%list. split; [by rewrite app_assoc|].
      intros s t p. rewrite elem_of_app, Hnew1, Hnew2. split.
      + intros [(-> & ? & ? & ?)|((s_ent' & ? & ?) & ? & ? & ?)].
        * split_and!; [|done..]. exists s_ent. split; [left|done].
        * split_and!; [|done..]. exists s_ent'. split; [by right|done].
      + intros ((s_ent' & [->|Hin]%elem_of_cons & <-) & ? & ? & ?).
        * left. done.
        * right. split_and!; [|done..]. by exists s_ent'. }
  destruct (Hloop (entities s_kb) []) as (alignment & Hrun & Hal); [done|].
  exists alignment. split; [exact Hrun|]. split; [exact Hal|].
  intros s. rewrite length_take. lia.
Qed.
End align_facts.

Section tsv_facts.
Variable float_of_string : string → option Q.
Variable str_of_float : Q → string.

Local Abbreviation tsv_row := (tsv_row float_of_string).
Local Abbreviation tsv_plain := (tsv_plain float_of_string str_of_float).
Local Abbreviation tsv_body := (tsv_body str_of_float).
Local Abbreviation tsv_line := (tsv_line str_of_float).
Local Abbreviation _load_alignment_from_tsv := (_load_alignment_from_tsv float_of_string).
Local Abbreviation _write_alignment_to_tsv := (_write_alignment_to_tsv str_of_float).

Lemma tsv_line_body p : tsv_line p = tsv_body p +:+ String LF EmptyString.
Proof.
  destruct p as [[s t] x]. unfold OntoEmma.tsv_line, OntoEmma.tsv_body. cbn [fst snd].
  by rewrite !app_assoc_string.
Qed.

Lemma tsv_body_no_newline p :
  tsv_plain p → string_forall no_newline (tsv_body p) = true.
Proof.
  intros ((H1 & _)%csv_plain_inv & (H2 & _)%csv_plain_inv
          & (H3 & _)%csv_plain_inv & _).
  unfold OntoEmma.tsv_body. rewrite !string_forall_app.
  rewrite (plain_no_newline _ H1), (plain_no_newline _ H2), (plain_no_newline _ H3).
  reflexivity.
Qed.

Lemma parse_tsv_line p :
  tsv_plain p →
  parse_line parse_reset (tsv_line p) ≫= (λ self, parse_process_char self None)
  = Ok {| state := START_RECORD; field := EmptyString;
          fields := [p.1.1; p.1.2; str_of_float p.2; "OntoEmma"] |}.
Proof.
  intros (H1 & H2 & H3 & _). destruct p as [[s t] x]. cbn [fst snd] in *.
  unfold OntoEmma.tsv_line, tab, newline, parse_reset.
  rewrite (app_String TAB EmptyString), app_empty_l.
  rewrite parse_line_field by auto.
  rewrite (app_String TAB EmptyString), app_empty_l.
  rewrite parse_line_field by auto.
  rewrite (app_String TAB EmptyString), app_empty_l.
  rewrite parse_line_field by auto.
  rewrite parse_line_last_field by done.
  reflexivity.
Qed.

Lemma for_rows_tsv_lines {A} (body : list string → result A) (l : list prediction) :
  Forall tsv_plain l →
  for_rows body parse_reset (tsv_line <$> l)
  = mapM body ((λ p, [p.1.1; p.1.2; str_of_float p.2; "OntoEmma"]) <$> l).
Proof.
  induction 1 as [|p l Hp _ IH]; [done|].
  rewrite !fmap_cons. cbn [for_rows mapM].
  pose proof (parse_tsv_line p Hp) as Hline.
  apply bind_inv in Hline as (self & Hself & Hline).
  rewrite Hself, bind_Ok, Hline, bind_Ok. cbn [state fields].
  rewrite decide_True by done. by rewrite IH.
Qed.

Lemma insert_by_score_perm (x : prediction) l : insert_by_score x l ≡ₚ x :: l.
Proof.
  induction l as [|y l IH]; [done|]. cbn [insert_by_score].
  destruct (Qlt_bool _ _); [|done]. by rewrite IH, Permutation_swap.
Qed.

Lemma sorted_by_score_perm (l : list prediction) : sorted_by_score l ≡ₚ l.
Proof.
  unfold sorted_by_score. induction l as [|x l IH]; [done|].
  cbn [foldr]. by rewrite insert_by_score_perm, IH.
Qed.

(** C7, amended.  For an alignment whose ids hold no tab, no end of line
    and no NUL, do not start with a double quote and are within the field
    size limit of the reader, and whose scores are written as plain text
    that parses back to the score, reading the TSV file that was written
    for it returns the triples of the alignment, sorted by score, each with
    the score it had. *)
Theorem tsv_write_then_load (alignment : list prediction) :
  Forall tsv_plain alignment →
  _load_alignment_from_tsv (_write_alignment_to_tsv alignment)
  = Ok ((λ p, (p.1.1, p.1.2, MFloat p.2)) <$> sorted_by_score alignment)
  ∧ sorted_by_score alignment ≡ₚ alignment.
Proof.
  intros Hall. split; [|apply sorted_by_score_perm].
  assert (Hsorted : Forall tsv_plain (sorted_by_score alignment)).
  { apply Forall_forall. intros p Hp.
    rewrite sorted_by_score_perm in Hp. revert p Hp. by apply Forall_forall. }
  unfold OntoEmma._load_alignment_from_tsv, OntoEmma._write_alignment_to_tsv, reader.
  generalize dependent (sorted_by_score alignment). intros l Hl.
  assert (tsv_line <$> l = (λ body, body +:+ String LF EmptyString) <$> (tsv_body <$> l))
    as Hlines.
  { rewrite <- list_fmap_compose. apply list_fmap_ext. intros _ p _.
    apply tsv_line_body. }
  rewrite Hlines, readlines_concat, <- Hlines.
  2:{ apply Forall_fmap. eapply Forall_impl; [exact Hl|].
      intros p Hp. by apply tsv_body_no_newline. }
  rewrite for_rows_tsv_lines by done. clear Hlines.
  induction Hl as [|p l Hp _ IH]; [done|].
  rewrite !fmap_cons. cbn [mapM]. rewrite IH.
  destruct Hp as (_ & _ & _ & Hparse). unfold OntoEmma.tsv_row at 1.
  by rewrite Hparse.
Qed.
End tsv_facts.

Lemma evaluate_alignment_empty_gold_witness :
  evaluate_alignment Examples.float_of_string Examples.gold_negative
    Examples.predicted Examples.s_kb Examples.t_kb
  = Raise ZeroDivisionError.
Proof.
  apply (evaluate_alignment_empty_gold Examples.float_of_string
           Examples.gold_negative Examples.predicted Examples.s_kb Examples.t_kb
           [("S:1", "T:2", MFloat 0)]).
  - vm_compute. reflexivity.
  - vm_compute. reflexivity.
  - discriminate.
Defined.

(** C2 as stated fails: a gold file whose measure is the text "=" makes the
    evaluation raise [ValueError]. *)
Lemma unparsable_measure_aborts :
  Examples.float_of_string "=" = None
  ∧ evaluate_alignment Examples.float_of_string Examples.gold_equals
      Examples.predicted Examples.s_kb Examples.t_kb
    = Raise ValueError.
Proof. split; vm_compute; reflexivity. Qed.

(** C4 as stated fails: the gold file has one positive pair, and with no
    prediction the recall is [None], not 0. *)
Lemma no_predictions_recall_is_none :
  elements <$> gold_positives_of Examples.float_of_string [("S:1", "T:1", MText "1.0")]
  = Ok [("S:1", "T:1")]
  ∧ snd <$> evaluate_alignment Examples.float_of_string Examples.gold_one []
              Examples.s_kb Examples.t_kb
    = Ok (None, None, None)
  ∧ snd <$> evaluate_alignment Examples.float_of_string Examples.gold_one []
              Examples.s_kb Examples.t_kb
    ≠ Ok (None, Some 0%Q, None).
Proof.
  assert (H : snd <$> evaluate_alignment Examples.float_of_string Examples.gold_one []
                        Examples.s_kb Examples.t_kb
              = Ok (None, None, None)) by (vm_compute; reflexivity).
  split_and!; [vm_compute; reflexivity|exact H|]. rewrite H. discriminate.
Qed.

Lemma evaluate_alignment_no_predictions_witness :
  evaluate_alignment Examples.float_of_string Examples.gold_one []
    Examples.s_kb Examples.t_kb
  = Ok (missed_line Examples.s_kb Examples.t_kb <$> elements ({[("S:1", "T:1")]} : gset (string * string)),
        (None, None, None)).
Proof.
  apply (evaluate_alignment_no_predictions Examples.float_of_string
           Examples.gold_one Examples.s_kb Examples.t_kb
           [("S:1", "T:1", MText "1.0")]).
  - vm_compute. reflexivity.
  - vm_compute. reflexivity.
Defined.

Lemma align_predictions_top_k_threshold_witness :
  ∃ alignment,
    align_predictions Examples.select_candidates Examples.predict_entity_pair
      Examples.SCORE_THRESHOLD Examples.KEEP_TOP_K_CANDIDATES
      Examples.feat_gen Examples.s_kb Examples.t_kb = Ok alignment
    ∧ ("S:1", "T:1", 1%Q) ∈ alignment.
Proof.
  destruct (align_predictions_top_k_threshold
              Examples.normalize_string Examples.tokenize_string Examples.stem
              Examples.lemmatize Examples.get_character_n_grams Examples.NGRAM_SIZE
              Examples.select_candidates Examples.predict_entity_pair
              Examples.SCORE_THRESHOLD Examples.KEEP_TOP_K_CANDIDATES
              Examples.s_kb Examples.t_kb Examples.feat_gen)
    as (alignment & Hrun & Hin & _).
  - vm_compute. reflexivity.
  - intros s_ent t_ent_id _ Ht. by apply subseteq_take in Ht.
  - intros f. eexists. reflexivity.
  - exists alignment. split; [exact Hrun|]. apply Hin. split_and!.
    + exists Examples.heart. split; [left|reflexivity].
    + left.
    + exists Examples.features_heart. split.
      * vm_cast_no_check (eq_refl (Ok Examples.features_heart)).
      * vm_compute. reflexivity.
    + vm_compute. discriminate.
Defined.

(** C7 as stated fails: an id without a tab that is written between double
    quotes is read back without them. *)
Lemma tsv_quoted_id_not_read_back :
  string_forall (λ c, negb (bool_decide (c = TAB))) Examples.quoted_a = true
  ∧ Examples.float_of_string (Examples.str_of_float (1 # 2)) = Some (1 # 2)
  ∧ _load_alignment_from_tsv Examples.float_of_string
      (_write_alignment_to_tsv Examples.str_of_float
         [(Examples.quoted_a, "b", 1 # 2)])
    = Ok [("a", "b", MFloat (1 # 2))]
  ∧ Examples.quoted_a ≠ "a".
Proof. split_and!; [vm_compute; reflexivity..|discriminate]. Qed.

Lemma tsv_write_then_load_witness :
  _load_alignment_from_tsv Examples.float_of_string
    (_write_alignment_to_tsv Examples.str_of_float Examples.two_predictions)
  = Ok ((λ p, (p.1.1, p.1.2, MFloat p.2))
          <$> sorted_by_score Examples.two_predictions)
  ∧ sorted_by_score Examples.two_predictions ≡ₚ Examples.two_predictions.
Proof.
  apply (tsv_write_then_load Examples.float_of_string Examples.str_of_float
           Examples.two_predictions).
  repeat constructor; vm_compute; reflexivity.
Defined.

End OntoEmmaProps.

(** * The dataset reader *)

Module DatasetReaderProps.
Import DatasetReader.

Section reader_facts.
Variable rng : Type.
Variable random_sample : list string → nat → rng → list string * rng.
Variable tokenize : string → list string.

(** [random.sample(population, k)] returns a list of [k] elements chosen
    from the population at distinct positions. *)
Hypothesis random_sample_length : ∀ l k g,
  (k ≤ length l)%nat → length (random_sample l k g).1 = k.
Hypothesis random_sample_from : ∀ l k g,
  (k ≤ length l)%nat → (random_sample l k g).1 ⊆+ l.

Local Abbreviation sample_n := (sample_n rng random_sample).
Local Abbreviation text_to_instance := (text_to_instance rng random_sample tokenize).
Local Abbreviation fields_of := (fields_of tokenize).


End reader_facts.

Lemma example_random_sample_length l k g :
  (k ≤ length l)%nat → length (Examples.random_sample l k g).1 = k.
Proof.
  intros Hk. unfold Examples.random_sample. cbn [fst].
  rewrite length_take, length_rotate. lia.
Qed.



End DatasetReaderProps.

(** * More facts about loops, divisions and the edit distance *)

Lemma mapM_raise {A B} (f : A → result B) (l : list A) (e : exn) :
  (∀ x, x ∈ l → returns (f x) ∨ f x = Raise e) →
  (∃ x, x ∈ l ∧ f x = Raise e) →
  mapM f l = Raise e.
Proof.
  induction l as [|x l IH]; intros Hall (y & Hy & Hraise).
  - by apply elem_of_nil in Hy.
  - simpl. destruct (Hall x) as [[b Hb]|Hx]; [left| |by rewrite Hx].
    rewrite Hb. simpl.
    apply elem_of_cons in Hy as [->|Hy]; [congruence|].
    rewrite IH; [done| |by exists y]. intros z Hz. apply Hall. by right.
Qed.

Lemma mapM_raise_inv {A B} (f : A → result B) (l : list A) (e : exn) :
  mapM f l = Raise e → ∃ x, x ∈ l ∧ f x = Raise e.
Proof.
  induction l as [|x l IH]; simpl; [discriminate|].
  destruct (f x) as [b|e'] eqn:Hx; simpl.
  - destruct (mapM f l) as [k|e'] eqn:Hl; simpl; [discriminate|].
    intros [= ->]. destruct IH as (y & Hy & He); [done|].
    exists y. split; [by right|done].
  - intros [= ->]. exists x. split; [left|done].
Qed.

Lemma for_each_raise {A S} (body : A → S → result S) (l : list A) (st : S) (e : exn) :
  (∀ x st', x ∈ l → returns (body x st') ∨ body x st' = Raise e) →
  (∃ x, x ∈ l ∧ ∀ st', body x st' = Raise e) →
  for_each body l st = Raise e.
Proof.
  revert st. induction l as [|x l IH]; intros st Hall (y & Hy & Hraise).
  - by apply elem_of_nil in Hy.
  - simpl. destruct (Hall x st) as [[st' Hb]|Hx]; [left| |by rewrite Hx].
    rewrite Hb. simpl.
    apply elem_of_cons in Hy as [->|Hy]; [by rewrite Hraise in Hb|].
    apply IH; [|by exists y]. intros z st'' Hz. apply Hall. by right.
Qed.

Lemma for_each_raise_inv {A S} (body : A → S → result S) (l : list A) (st : S) (e : exn) :
  for_each body l st = Raise e → ∃ x st', x ∈ l ∧ body x st' = Raise e.
Proof.
  revert st. induction l as [|x l IH]; intros st; simpl; [discriminate|].
  destruct (body x st) as [st'|e'] eqn:Hx; simpl.
  - intros H. destruct (IH _ H) as (y & st'' & Hy & He).
    exists y, st''. split; [by right|done].
  - intros [= ->]. exists x, st. split; [left|done].
Qed.

Lemma for_each_app {A S} (body : A → S → result S) (l1 l2 : list A) (st : S) :
  for_each body (l1 ++ l2) st = for_each body l1 st ≫= for_each body l2.
Proof.
  revert st. induction l1 as [|x l1 IH]; intros st; simpl; [done|].
  destruct (body x st) as [st'|e]; simpl; [apply IH|done].
Qed.

Lemma edit_distance_cons {A} `{EqDecision A} (x y : A) (s1 s2 : list A) :
  edit_distance (x :: s1) (y :: s2)
  = (S (edit_distance s1 (y :: s2))
     `min` (S (edit_distance (x :: s1) s2)
            `min` ((if decide (x = y) then 0 else 1) + edit_distance s1 s2)))%nat.
Proof. reflexivity. Qed.

Lemma edit_distance_le {A} `{EqDecision A} (s1 s2 : list A) :
  (edit_distance s1 s2 ≤ length s1 + length s2)%nat.
Proof.
  revert s2. induction s1 as [|x s1 IH]; intros s2; [simpl; lia|].
  destruct s2 as [|y s2]; [simpl; lia|].
  rewrite edit_distance_cons. specialize (IH (y :: s2)).
  cbn [length] in *. lia.
Qed.

Lemma Qnat_le (k n : nat) : (k ≤ n)%nat → (Qnat k <= Qnat n)%Q.
Proof. intros H. unfold Qnat. rewrite <- Zle_Qle. lia. Qed.

Lemma Qnat_pos (n : nat) : n ≠ 0%nat → (0 < Qnat n)%Q.
Proof. intros H. unfold Qnat. change 0%Q with (inject_Z 0). rewrite <- Zlt_Qlt. lia. Qed.

Lemma Qnat_nonneg (n : nat) : (0 <= Qnat n)%Q.
Proof. unfold Qnat. change 0%Q with (inject_Z 0). rewrite <- Zle_Qle. lia. Qed.

(** A quotient of two lengths, the first at most the second, is between 0
    and 1, and so is what is left of 1. *)
Lemma ratio_range (k n : nat) :
  (k ≤ n)%nat → n ≠ 0%nat →
  (0 <= Qred (Qnat k / Qnat n) <= 1)%Q.
Proof.
  intros Hk Hn. rewrite Qred_correct. split.
  - apply Qle_shift_div_l; [by apply Qnat_pos|]. rewrite Qmult_0_l. apply Qnat_nonneg.
  - apply Qle_shift_div_r; [by apply Qnat_pos|]. rewrite Qmult_1_l. by apply Qnat_le.
Qed.

Lemma py_sub_range (d : Q) : (0 <= d <= 1)%Q → (0 <= py_sub 1 d <= 1)%Q.
Proof.
  intros [H0 H1]. unfold py_sub. rewrite Qred_correct. unfold Qminus. split.
  - by apply (proj1 (Qle_minus_iff d 1)).
  - rewrite <- (Qplus_0_r 1) at 2. apply Qplus_le_r.
    apply (Qopp_le_compat 0 d) in H0. exact H0.
Qed.

Lemma Qlt_bool_false (x y : Q) : Qlt_bool x y = false → (y <= x)%Q.
Proof.
  unfold Qlt_bool. rewrite negb_false_iff. apply Qle_bool_iff.
Qed.

Lemma for_each_invariant {A S} (P : S → Prop) (body : A → S → result S)
    (l : list A) (st st' : S) :
  P st →
  (∀ x st1 st2, x ∈ l → P st1 → body x st1 = Ok st2 → P st2) →
  for_each body l st = Ok st' → P st'.
Proof.
  revert st. induction l as [|x l IH]; intros st Hst Hbody; simpl.
  - by intros [= <-].
  - intros H. apply bind_inv in H as (st1 & H1 & H).
    eapply IH; [|intros y ? ? Hy; apply Hbody; by right|exact H].
    eapply Hbody; [left|exact Hst|exact H1].
Qed.

Lemma Qnat_inj (k n : nat) : (Qnat k == Qnat n)%Q → k = n.
Proof. unfold Qnat. rewrite inject_Z_injective. lia. Qed.

Lemma Qnat_neq_0 (n : nat) : n ≠ 0%nat → ¬ (Qnat n == 0)%Q.
Proof. intros Hn H. apply Hn, Qnat_inj. exact H. Qed.

Lemma ratio_eq_1 (k n : nat) :
  n ≠ 0%nat → (Qnat k / Qnat n == 1)%Q ↔ k = n.
Proof.
  intros Hn. split.
  - intros H. apply Qnat_inj.
    rewrite <- (Qmult_div_r (Qnat k) (Qnat n)) by (by apply Qnat_neq_0).
    rewrite H. apply Qmult_1_r.
  - intros ->. unfold Qdiv. apply Qmult_inv_r. by apply Qnat_neq_0.
Qed.

Lemma ratio_eq_0 (k n : nat) :
  n ≠ 0%nat → (Qnat k / Qnat n == 0)%Q ↔ k = 0%nat.
Proof.
  intros Hn. split.
  - intros H. apply Qnat_inj.
    rewrite <- (Qmult_div_r (Qnat k) (Qnat n)) by (by apply Qnat_neq_0).
    rewrite H. apply Qmult_0_r.
  - intros ->. unfold Qdiv. apply Qmult_0_l.
Qed.

(** The quotient of a number by the mean of two others. *)
Lemma ratio_mean (i a b : nat) :
  (a + b)%nat ≠ 0%nat →
  (Qnat i / ((Qnat a + Qnat b) / 2) == Qnat (2 * i) / Qnat (a + b))%Q.
Proof.
  intros Hab. unfold Qnat.
  rewrite Nat2Z.inj_mul, Nat2Z.inj_add, inject_Z_mult, inject_Z_plus.
  change (inject_Z (Z.of_nat 2)) with 2%Q.
  assert (¬ (inject_Z (Z.of_nat a) + inject_Z (Z.of_nat b) == 0)%Q).
  { rewrite <- inject_Z_plus, <- Nat2Z.inj_add. by apply Qnat_neq_0. }
  field. done.
Qed.

Lemma forallb_true_iff {A} (f : A → bool) (l : list A) :
  forallb f l = true ↔ ∀ x, x ∈ l → f x = true.
Proof.
  rewrite forallb_forall. split; intros H x Hx; apply H; by apply list_elem_of_In.
Qed.

Lemma forallb_false_iff {A} (f : A → bool) (l : list A) :
  forallb f l = false ↔ ∃ x, x ∈ l ∧ f x = false.
Proof.
  induction l as [|y l IH]; simpl.
  - split; [discriminate|]. intros (x & Hx & _). by apply elem_of_nil in Hx.
  - rewrite andb_false_iff, IH. split.
    + intros [Hy|(x & Hx & Hf)]; [exists y; split; [left|done]|].
      exists x. split; [by right|done].
    + intros (x & [->|Hx]%elem_of_cons & Hf); [by left|]. right. by exists x.
Qed.

Lemma edit_distance_nil_r {A} `{EqDecision A} (s : list A) :
  edit_distance s [] = length s.
Proof. by destruct s. Qed.

Lemma edit_distance_sym {A} `{EqDecision A} (s1 s2 : list A) :
  edit_distance s1 s2 = edit_distance s2 s1.
Proof.
  revert s2. induction s1 as [|x s1 IH1]; intros s2.
  - by rewrite edit_distance_nil_r.
  - induction s2 as [|y s2 IH2]; [by rewrite edit_distance_nil_r|].
    rewrite !edit_distance_cons, <- IH2, (IH1 (y :: s2)), (IH1 s2).
    destruct (decide (x = y)) as [->|Hxy].
    + rewrite decide_True by done. lia.
    + rewrite (decide_False (P := y = x)) by congruence. lia.
Qed.

(** Two numbers in lowest terms that are equal as rationals are the same. *)
Lemma Qred_eq (p q : Q) : Qred p = p → Qred q = q → (p == q)%Q → p = q.
Proof. intros Hp Hq Heq. rewrite <- Hp, <- Hq. by apply Qred_complete. Qed.

(** * More about the feature generator *)

Module FeatureGeneratorFacts.
Import FeatureGenerator FeatureGeneratorProps.

(** ** The blocks of [calculate_features], from their results *)

Lemma py_div_inv (a b q : Q) :
  py_div a b = Ok q → Qeq_bool b 0 = false ∧ q = Qred (a / b).
Proof.
  unfold py_div. destruct (Qeq_bool b 0); [discriminate|]. by intros [= <-].
Qed.

Lemma py_div_nat_inv (a : Q) (n : nat) (q : Q) :
  py_div a (Qnat n) = Ok q → n ≠ 0%nat ∧ q = Qred (a / Qnat n).
Proof.
  intros H. apply py_div_inv in H as [Hn ->]. split; [|done].
  rewrite Qnat_eq_0 in Hn. by apply bool_decide_eq_false in Hn.
Qed.

Lemma similarity_range (same : bool) (s_toks t_toks : tokens) (n : nat) sim :
  similarity same s_toks t_toks n = Ok sim →
  (edit_distance s_toks t_toks ≤ n)%nat →
  (0 <= sim.2 <= 1)%Q.
Proof.
  unfold similarity. destruct same.
  - intros [= <-] _. simpl. split; [discriminate|apply Qle_refl].
  - intros H Hle. apply bind_inv in H as (d & Hd & [= <-]).
    apply py_div_nat_inv in Hd as [Hn ->]. simpl.
    apply py_sub_range, ratio_range; done.
Qed.

Lemma alias_pair_inv s_a t_a (best best' : Q * Q) :
  alias_pair s_a t_a best = Ok best' →
  (s_a ≠ [] ∧ t_a ≠ []
   ∧ best'.1 = (if Qlt_bool best.1 (alias_jaccard s_a t_a)
                then alias_jaccard s_a t_a else best.1)
   ∧ best'.2 = (if Qlt_bool (alias_distance s_a t_a) best.2
                then alias_distance s_a t_a else best.2))
  ∨ ((s_a = [] ∨ t_a = []) ∧ best' = best).
Proof.
  unfold alias_pair. destruct best as [mj md].
  case_bool_decide as Hs; simpl; [|intros [= <-]; right; split; [|done]].
  2:{ left. destruct s_a; [done|]. by destruct Hs. }
  case_bool_decide as Ht; simpl; [|intros [= <-]; right; split; [|done]].
  2:{ right. destruct t_a; [done|]. by destruct Ht. }
  intros H. apply bind_inv in H as (d & Hd & [= <-]).
  apply py_div_nat_inv in Hd as [_ ->]. left. by split_and!.
Qed.

Lemma alias_distance_range (s_a t_a : tokens) :
  s_a ≠ [] → (0 <= alias_distance s_a t_a <= 1)%Q.
Proof.
  intros Hs. apply ratio_range; [apply edit_distance_le|].
  destruct s_a; [done|simpl; lia].
Qed.

Lemma alias_scan_range s_alias t_alias (best best' : Q * Q) :
  alias_scan s_alias t_alias best = Ok best' →
  (0 <= best.2 <= 1)%Q → (0 <= best'.2 <= 1)%Q.
Proof.
  unfold alias_scan. intros H Hbest.
  eapply (for_each_invariant (λ b : Q * Q, (0 <= b.2 <= 1)%Q)); [exact Hbest| |exact H].
  intros s_a st1 st2 _ H1 Hin.
  eapply (for_each_invariant (λ b : Q * Q, (0 <= b.2 <= 1)%Q)); [exact H1| |exact Hin].
  intros t_a b1 b2 _ Hb1 Hpair.
  apply alias_pair_inv in Hpair as [(Hs & Ht & _ & ->)|[_ ->]]; [|done].
  destruct (Qlt_bool _ _); [by apply alias_distance_range|done].
Qed.

Lemma best_alias_range (has : bool) s_alias t_alias best :
  best_alias has s_alias t_alias = Ok best → (0 <= best.2 <= 1)%Q.
Proof.
  unfold best_alias. destruct has; simpl.
  - intros [= <-]. simpl. split; [discriminate|apply Qle_refl].
  - intros H. eapply alias_scan_range; [exact H|]. simpl.
    split; [discriminate|apply Qle_refl].
Qed.

Lemma percent_in_common_inv (a b : gset tokens) q :
  percent_in_common a b = Ok q →
  ((0 < size a)%nat ∧ (0 < size b)%nat
   ∧ (q == Qnat (2 * size (a ∩ b)) / Qnat (size a + size b))%Q)
  ∨ ((size a = 0%nat ∨ size b = 0%nat) ∧ q = 0%Q).
Proof.
  intros H. destruct (percent_in_common_returns a b) as (q' & Hq' & Hpos & Hzero).
  rewrite H in Hq'. injection Hq' as <-.
  destruct (decide (size a = 0%nat)) as [Ha|Ha]; [right; split; [by left|auto]|].
  destruct (decide (size b = 0%nat)) as [Hb|Hb]; [right; split; [by right|auto]|].
  left. split_and!; [lia..|]. rewrite Hpos by lia. apply ratio_mean. lia.
Qed.

Lemma size_0_iff (X : gset tokens) : size X = 0%nat ↔ X = ∅.
Proof. rewrite size_empty_iff. apply leibniz_equiv_iff. Qed.

Lemma size_intersection_l (a b : gset tokens) : (size (a ∩ b) ≤ size a)%nat.
Proof. apply subseteq_size. set_solver. Qed.

Lemma size_intersection_r (a b : gset tokens) : (size (a ∩ b) ≤ size b)%nat.
Proof. apply subseteq_size. set_solver. Qed.

Lemma percent_in_common_range (a b : gset tokens) q :
  percent_in_common a b = Ok q → (0 <= q <= 1)%Q.
Proof.
  intros H. apply percent_in_common_inv in H as [(Ha & Hb & ->)|[_ ->]].
  - rewrite <- (Qred_correct (_ / _)). apply ratio_range; [|lia].
    pose proof (size_intersection_l a b). pose proof (size_intersection_r a b). lia.
  - split; [apply Qle_refl|discriminate].
Qed.

(** The overlap is 1 exactly for two equal sets that are not empty, and 0
    exactly for two disjoint sets. *)
Lemma percent_in_common_extremes (a b : gset tokens) q :
  percent_in_common a b = Ok q →
  ((q == 1)%Q ↔ a = b ∧ a ≠ ∅) ∧ ((q == 0)%Q ↔ a ∩ b = ∅).
Proof.
  intros H. apply percent_in_common_inv in H as [(Ha & Hb & ->)|[Hz ->]].
  - pose proof (size_intersection_l a b) as Hl.
    pose proof (size_intersection_r a b) as Hr.
    rewrite ratio_eq_1, ratio_eq_0 by lia. split.
    + split.
      * intros Heq.
        assert (a ∩ b = a) as Hia.
        { apply set_subseteq_size_eq; [set_solver|lia]. }
        assert (a ∩ b = b) as Hib.
        { apply set_subseteq_size_eq; [set_solver|lia]. }
        split; [congruence|]. intros ->. rewrite size_empty in Ha. lia.
      * intros [<- _]. replace (a ∩ a) with a by set_solver. lia.
    + rewrite <- size_0_iff. lia.
  - split.
    + split; [intros H1; by apply Qeq_bool_iff in H1|].
      intros [<- Hne]. rewrite <- size_0_iff in Hne. lia.
    + split; [|done]. intros _.
      apply size_0_iff. destruct Hz as [Hz|Hz].
      * pose proof (size_intersection_l a b). lia.
      * pose proof (size_intersection_r a b). lia.
Qed.

(** What [calculate_features] has computed when it returns. *)
Lemma calculate_features_inv fg s_ent_id t_ent_id f :
  calculate_features fg s_ent_id t_ent_id = Ok f →
  ∃ s t name_sim stemmed_sim lemmatized_sim char_sim best pp pc,
    s_tokens fg !! s_ent_id = Some s ∧ t_tokens fg !! t_ent_id = Some t
    ∧ similarity (bool_decide (name_tokens s = name_tokens t))
        (name_tokens s) (name_tokens t)
        (length (name_tokens s) + length (name_tokens t)) = Ok name_sim
    ∧ similarity (bool_decide (stemmed_tokens s = stemmed_tokens t))
        (stemmed_tokens s) (stemmed_tokens t)
        (length (name_tokens s) + length (name_tokens t)) = Ok stemmed_sim
    ∧ similarity (bool_decide (lemmatized_tokens s = lemmatized_tokens t))
        (lemmatized_tokens s) (lemmatized_tokens t)
        (length (name_tokens s) + length (name_tokens t)) = Ok lemmatized_sim
    ∧ similarity (bool_decide (character_tokens s = character_tokens t))
        (character_tokens s) (character_tokens t)
        (length (character_tokens s) + length (character_tokens t)) = Ok char_sim
    ∧ best_alias (bool_decide (0 < size ((list_to_set (alias_tokens s) : gset tokens)
                             ∩ list_to_set (alias_tokens t)))%nat)
        (alias_tokens s) (alias_tokens t) = Ok best
    ∧ percent_in_common (parent_names s) (parent_names t) = Ok pp
    ∧ percent_in_common (child_names s) (child_names t) = Ok pc
    ∧ f = <["percent_children_in_common" := FNum pc]>
         (<["percent_parents_in_common" := FNum pp]>
         (<["inverse_min_alias_edit_distance" := FNum (py_sub 1 best.2)]>
         (<["max_alias_token_jaccard" := FNum best.1]>
         (<["inverse_char_token_edit_distance" := FNum char_sim.2]>
         (<["char_token_jaccard" := FNum char_sim.1]>
         (<["inverse_lemmatized_edit_distance" := FNum lemmatized_sim.2]>
         (<["lemmatized_token_jaccard" := FNum lemmatized_sim.1]>
         (<["inverse_stemmed_edit_distance" := FNum stemmed_sim.2]>
         (<["stemmed_token_jaccard" := FNum stemmed_sim.1]>
         (<["inverse_name_edit_distance" := FNum name_sim.2]>
         (<["name_token_jaccard" := FNum name_sim.1]>
         (<["has_alias_in_common" :=
              FBool (bool_decide (0 < size ((list_to_set (alias_tokens s) : gset tokens)
                             ∩ list_to_set (alias_tokens t)))%nat)]>
         (<["has_same_char_tokens" :=
              FBool (bool_decide (character_tokens s = character_tokens t))]>
         (<["has_same_lemmatized_name" :=
              FBool (bool_decide (lemmatized_tokens s = lemmatized_tokens t))]>
         (<["has_same_stemmed_name" :=
              FBool (bool_decide (stemmed_tokens s = stemmed_tokens t))]>
         (<["has_same_canonical_name" :=
              FBool (bool_decide (name_tokens s = name_tokens t))]>
            (∅ : gmap string fval))))))))))))))))).
Proof.
  unfold calculate_features. intros H.
  apply bind_inv in H as (s & Hs & H). apply bind_inv in H as (t & Ht & H).
  apply bind_inv in H as (name_sim & Hn & H).
  apply bind_inv in H as (stemmed_sim & Hst & H).
  apply bind_inv in H as (lemmatized_sim & Hl & H).
  apply bind_inv in H as (char_sim & Hc & H).
  apply bind_inv in H as (best & Hb & H).
  apply bind_inv in H as (pp & Hpp & H).
  apply bind_inv in H as (pc & Hpc & H).
  injection H as <-.
  destruct (s_tokens fg !! s_ent_id) as [s'|]; [|discriminate]. injection Hs as ->.
  destruct (t_tokens fg !! t_ent_id) as [t'|]; [|discriminate]. injection Ht as ->.
  exists s, t, name_sim, stemmed_sim, lemmatized_sim, char_sim, best, pp, pc.
  split_and!; done.
Qed.


Ltac feature_lookup :=
  repeat (rewrite lookup_insert_ne by done); apply lookup_insert_eq.

(** X1.  The dict that [calculate_features] returns has the same seventeen
    keys for every pair of entities. *)
Theorem calculate_features_keys fg s_ent_id t_ent_id f :
  calculate_features fg s_ent_id t_ent_id = Ok f →
  dom f = list_to_set feature_names.
Proof.
  intros H. apply calculate_features_inv in H
    as (s & t & ns & ss & ls & cs & best & pp & pc & _ & _ & _ & _ & _ & _ & _ & _ & _ & ->).
  rewrite !dom_insert_L, dom_empty_L. unfold feature_names. cbn [list_to_set].
  apply set_eq. intros k.
  rewrite !elem_of_union, !elem_of_singleton, elem_of_empty. tauto.
Qed.

(** ** The scan of the alias pairs *)

Lemma alias_inner_scan (a : tokens) (ts : list tokens) (best best' : Q * Q) :
  for_each (alias_pair a) ts best = Ok best' →
  ((best.1 <= best'.1)%Q ∧ (best'.2 <= best.2)%Q)
  ∧ (∀ b, b ∈ ts → a ≠ [] → b ≠ [] →
       (alias_jaccard a b <= best'.1)%Q ∧ (best'.2 <= alias_distance a b)%Q)
  ∧ (best'.1 = best.1
     ∨ ∃ b, b ∈ ts ∧ a ≠ [] ∧ b ≠ [] ∧ best'.1 = alias_jaccard a b)
  ∧ (best'.2 = best.2
     ∨ ∃ b, b ∈ ts ∧ a ≠ [] ∧ b ≠ [] ∧ best'.2 = alias_distance a b).
Proof.
  revert best. induction ts as [|b ts IH]; intros best; simpl.
  - intros [= <-]. split_and!; [apply Qle_refl..| |by left|by left].
    intros b Hb. by apply elem_of_nil in Hb.
  - intros H. apply bind_inv in H as (b1 & H1 & H).
    destruct (IH _ H) as ((Hj & Hd) & Hall & Hmax & Hmin).
    apply alias_pair_inv in H1 as [(Ha & Hb & E1 & E2)|[Hempty ->]].
    + assert ((best.1 <= b1.1)%Q ∧ (alias_jaccard a b <= b1.1)%Q) as [Hj1 Hj2].
      { rewrite E1. destruct (Qlt_bool best.1 (alias_jaccard a b)) eqn:E.
        - apply Qlt_bool_iff in E. split; [by apply Qlt_le_weak|apply Qle_refl].
        - apply Qlt_bool_false in E. split; [apply Qle_refl|done]. }
      assert ((b1.2 <= best.2)%Q ∧ (b1.2 <= alias_distance a b)%Q) as [Hd1 Hd2].
      { rewrite E2. destruct (Qlt_bool (alias_distance a b) best.2) eqn:E.
        - apply Qlt_bool_iff in E. split; [by apply Qlt_le_weak|apply Qle_refl].
        - apply Qlt_bool_false in E. split; [apply Qle_refl|done]. }
      split_and!.
      * by eapply Qle_trans.
      * by eapply Qle_trans.
      * intros b' Hb' Ha' Hb'ne. apply elem_of_cons in Hb' as [->|Hb'].
        -- split; by eapply Qle_trans.
        -- by apply Hall.
      * destruct Hmax as [->|(b' & ? & ? & ? & ->)].
        -- rewrite E1. destruct (Qlt_bool best.1 (alias_jaccard a b)); [|by left].
           right. exists b. split_and!; [left|done..].
        -- right. exists b'. split_and!; [by right|done..].
      * destruct Hmin as [->|(b' & ? & ? & ? & ->)].
        -- rewrite E2. destruct (Qlt_bool (alias_distance a b) best.2); [|by left].
           right. exists b. split_and!; [left|done..].
        -- right. exists b'. split_and!; [by right|done..].
    + split_and!; [done..| | |].
      * intros b' Hb' Ha' Hb'ne. apply elem_of_cons in Hb' as [->|Hb'].
        -- by destruct Hempty.
        -- by apply Hall.
      * destruct Hmax as [?|(b' & ? & ? & ? & ?)]; [by left|].
        right. exists b'. split_and!; [by right|done..].
      * destruct Hmin as [?|(b' & ? & ? & ? & ?)]; [by left|].
        right. exists b'. split_and!; [by right|done..].
Qed.

Lemma alias_scan_extremes (ss ts : list tokens) (best best' : Q * Q) :
  alias_scan ss ts best = Ok best' →
  ((best.1 <= best'.1)%Q ∧ (best'.2 <= best.2)%Q)
  ∧ (∀ a b, a ∈ ss → b ∈ ts → a ≠ [] → b ≠ [] →
       (alias_jaccard a b <= best'.1)%Q ∧ (best'.2 <= alias_distance a b)%Q)
  ∧ (best'.1 = best.1
     ∨ ∃ a b, a ∈ ss ∧ b ∈ ts ∧ a ≠ [] ∧ b ≠ [] ∧ best'.1 = alias_jaccard a b)
  ∧ (best'.2 = best.2
     ∨ ∃ a b, a ∈ ss ∧ b ∈ ts ∧ a ≠ [] ∧ b ≠ [] ∧ best'.2 = alias_distance a b).
Proof.
  unfold alias_scan. revert best. induction ss as [|a ss IH]; intros best; simpl.
  - intros [= <-]. split_and!; [apply Qle_refl..| |by left|by left].
    intros a b Ha. by apply elem_of_nil in Ha.
  - intros H. apply bind_inv in H as (b1 & H1 & H).
    destruct (IH _ H) as ((Hj & Hd) & Hall & Hmax & Hmin).
    destruct (alias_inner_scan _ _ _ _ H1) as ((Hj1 & Hd1) & Hall1 & Hmax1 & Hmin1).
    split_and!.
    + by eapply Qle_trans.
    + by eapply Qle_trans.
    + intros a' b Ha' Hb Hane Hbne. apply elem_of_cons in Ha' as [->|Ha'].
      * destruct (Hall1 b Hb Hane Hbne). split; by eapply Qle_trans.
      * by apply Hall.
    + destruct Hmax as [->|(a' & b' & ? & ? & ? & ? & ->)].
      * destruct Hmax1 as [->|(b' & ? & ? & ? & ->)]; [by left|].
        right. exists a, b'. split_and!; [left|done..].
      * right. exists a', b'. split_and!; [by right|done..].
    + destruct Hmin as [->|(a' & b' & ? & ? & ? & ? & ->)].
      * destruct Hmin1 as [->|(b' & ? & ? & ? & ->)]; [by left|].
        right. exists a, b'. split_and!; [left|done..].
      * right. exists a', b'. split_and!; [by right|done..].
Qed.

(** X2.  When the two entities have no alias token list in common, the scan
    of the alias pairs leaves the greatest Jaccard similarity and the least
    normalized edit distance of the pairs of alias token lists that are both
    not empty; with no such pair they stay at 0 and at 1. *)
Theorem calculate_features_best_alias fg s_ent_id t_ent_id s t f :
  s_tokens fg !! s_ent_id = Some s → t_tokens fg !! t_ent_id = Some t →
  calculate_features fg s_ent_id t_ent_id = Ok f →
  (∀ a, a ∈ alias_tokens s → a ∉ alias_tokens t) →
  ∃ max_j min_d,
    f !! "has_alias_in_common" = Some (FBool false)
    ∧ f !! "max_alias_token_jaccard" = Some (FNum max_j)
    ∧ f !! "inverse_min_alias_edit_distance" = Some (FNum (py_sub 1 min_d))
    ∧ (∀ a b, a ∈ alias_tokens s → b ∈ alias_tokens t → a ≠ [] → b ≠ [] →
         (alias_jaccard a b <= max_j)%Q ∧ (min_d <= alias_distance a b)%Q)
    ∧ (max_j = 0%Q
       ∨ ∃ a b, a ∈ alias_tokens s ∧ b ∈ alias_tokens t ∧ a ≠ [] ∧ b ≠ []
                ∧ max_j = alias_jaccard a b)
    ∧ (min_d = 1%Q
       ∨ ∃ a b, a ∈ alias_tokens s ∧ b ∈ alias_tokens t ∧ a ≠ [] ∧ b ≠ []
                ∧ min_d = alias_distance a b).
Proof.
  intros Hs Ht H Hno. apply calculate_features_inv in H
    as (s' & t' & ns & ss & ls & cs & best & pp & pc
        & Hs' & Ht' & _ & _ & _ & _ & Hbest & _ & _ & ->).
  rewrite Hs in Hs'. injection Hs' as <-. rewrite Ht in Ht'. injection Ht' as <-.
  assert (bool_decide (0 < size ((list_to_set (alias_tokens s) : gset tokens)
                             ∩ list_to_set (alias_tokens t)))%nat = false) as Hflag.
  { apply bool_decide_eq_false.
    assert ((list_to_set (alias_tokens s) : gset tokens)
              ∩ list_to_set (alias_tokens t) = ∅) as ->; [|rewrite size_empty; lia].
    apply set_eq. intros a. rewrite elem_of_intersection, !elem_of_list_to_set.
    split; [intros [Ha Hb]; by destruct (Hno a)|set_solver]. }
  rewrite Hflag in Hbest |- *. unfold best_alias in Hbest. simpl in Hbest.
  destruct (alias_scan_extremes _ _ _ _ Hbest) as (_ & Hall & Hmax & Hmin).
  exists best.1, best.2. split_and!; [feature_lookup..|exact Hall|exact Hmax|exact Hmin].
Qed.

Section generator_more.
Variable normalize_string : string → string.
Variable tokenize_string : string → tokens.
Variable stem : string → string.
Variable lemmatize : string → string.
Variable get_character_n_grams : string → nat → tokens.
Variable NGRAM_SIZE : nat.

Local Abbreviation _get_ent_names_from_relations :=
  (_get_ent_names_from_relations normalize_string tokenize_string).
Local Abbreviation _compute_tokens :=
  (_compute_tokens normalize_string tokenize_string stem lemmatize
     get_character_n_grams NGRAM_SIZE).
Local Abbreviation fill_tokens :=
  (fill_tokens normalize_string tokenize_string stem lemmatize
     get_character_n_grams NGRAM_SIZE).
Local Abbreviation init :=
  (init normalize_string tokenize_string stem lemmatize
     get_character_n_grams NGRAM_SIZE).

Lemma calculate_features_cases s_kb t_kb fg s_ent_id t_ent_id :
  init s_kb t_kb = Ok fg →
  (s_ent_id ∈ research_entity_id <$> entities s_kb
   ∧ t_ent_id ∈ research_entity_id <$> entities t_kb
   ∧ returns (calculate_features fg s_ent_id t_ent_id))
  ∨ (¬ (s_ent_id ∈ research_entity_id <$> entities s_kb
        ∧ t_ent_id ∈ research_entity_id <$> entities t_kb)
     ∧ calculate_features fg s_ent_id t_ent_id = Raise LookupError).
Proof.
  intros Hinit. destruct (init_ok _ _ _ _ _ _ _ _ _ Hinit) as (Hsok & Htok & Hsdom & Htdom).
  assert (s_ent_id ∈ research_entity_id <$> entities s_kb
          ↔ is_Some (s_tokens fg !! s_ent_id)) as Hsin.
  { rewrite <- elem_of_dom, Hsdom, elem_of_list_to_set. done. }
  assert (t_ent_id ∈ research_entity_id <$> entities t_kb
          ↔ is_Some (t_tokens fg !! t_ent_id)) as Htin.
  { rewrite <- elem_of_dom, Htdom, elem_of_list_to_set. done. }
  rewrite Hsin, Htin.
  destruct (s_tokens fg !! s_ent_id) as [s|] eqn:Hs.
  - destruct (t_tokens fg !! t_ent_id) as [t|] eqn:Ht.
    + destruct (calculate_features_returns fg s_ent_id t_ent_id s t)
        as (f & ? & ? & ? & ? & ? & ? & ? & Hf & _); [by eapply Hsok|by eapply Htok|done..|].
      left. split_and!; [by eexists..|]. rewrite Hf. apply returns_Ok.
    + right. split; [by intros [_ [? [=]]]|].
      unfold calculate_features. by rewrite Hs, Ht.
  - right. split; [by intros [[? [=]] _]|].
    unfold calculate_features. by rewrite Hs.
Qed.

(** X3.  A generator answers for the pairs of an id of an entity of the
    source and an id of an entity of the target, and for no other pair: an
    id that is not cached raises the [KeyError] of the dict, and no other
    exception is raised. *)
Theorem calculate_features_known_ids s_kb t_kb fg s_ent_id t_ent_id :
  init s_kb t_kb = Ok fg →
  (returns (calculate_features fg s_ent_id t_ent_id)
   ↔ s_ent_id ∈ research_entity_id <$> entities s_kb
     ∧ t_ent_id ∈ research_entity_id <$> entities t_kb)
  ∧ (∀ e, calculate_features fg s_ent_id t_ent_id = Raise e → e = LookupError).
Proof.
  intros Hinit.
  destruct (calculate_features_cases _ _ _ s_ent_id t_ent_id Hinit)
    as [(Hs & Ht & Hret)|[Hnot ->]].
  - split; [by split|]. intros e He. destruct Hret as [f Hf]. congruence.
  - split; [|by intros e [= <-]]. split; [intros [? [=]]|done].
Qed.

(** X4.  The features that the generator computes from edit distances and
    from sets of related names are between 0 and 1. *)
Theorem calculate_features_ranges s_kb t_kb fg s_ent_id t_ent_id f key :
  init s_kb t_kb = Ok fg →
  calculate_features fg s_ent_id t_ent_id = Ok f →
  key ∈ ["inverse_name_edit_distance"; "inverse_stemmed_edit_distance";
         "inverse_lemmatized_edit_distance"; "inverse_char_token_edit_distance";
         "inverse_min_alias_edit_distance";
         "percent_parents_in_common"; "percent_children_in_common"] →
  ∃ q, f !! key = Some (FNum q) ∧ (0 <= q <= 1)%Q.
Proof.
  intros Hinit H Hkey.
  destruct (init_ok _ _ _ _ _ _ _ _ _ Hinit) as (Hsok & Htok & _ & _).
  apply calculate_features_inv in H
    as (s & t & ns & ss & ls & cs & best & pp & pc
        & Hs & Ht & Hns & Hss & Hls & Hcs & Hbest & Hpp & Hpc & ->).
  destruct (Hsok _ _ Hs) as [Hs1 Hs2]. destruct (Htok _ _ Ht) as [Ht1 Ht2].
  repeat (apply elem_of_cons in Hkey as [->|Hkey]); [..|by apply elem_of_nil in Hkey].
  - exists ns.2. split; [feature_lookup|].
    eapply similarity_range; [exact Hns|apply edit_distance_le].
  - exists ss.2. split; [feature_lookup|].
    eapply similarity_range; [exact Hss|]. rewrite <- Hs1, <- Ht1. apply edit_distance_le.
  - exists ls.2. split; [feature_lookup|].
    eapply similarity_range; [exact Hls|]. rewrite <- Hs2, <- Ht2. apply edit_distance_le.
  - exists cs.2. split; [feature_lookup|].
    eapply similarity_range; [exact Hcs|apply edit_distance_le].
  - exists (py_sub 1 best.2). split; [feature_lookup|].
    apply py_sub_range. by eapply best_alias_range.
  - exists pp. split; [feature_lookup|]. by eapply percent_in_common_range.
  - exists pc. split; [feature_lookup|]. by eapply percent_in_common_range.
Qed.


(** ** When the constructor returns *)

Lemma ent_ids_of_rel_cases kb rel_types rel :
  (returns (ent_ids_of_rel kb rel_types rel)
   ∧ (relation_type rel ∈ rel_types → (2 ≤ length (entity_ids rel))%nat))
  ∨ (ent_ids_of_rel kb rel_types rel = Raise LookupError
     ∧ relation_type rel ∈ rel_types ∧ (length (entity_ids rel) < 2)%nat).
Proof.
  unfold ent_ids_of_rel. case_bool_decide as Hty.
  - destruct (entity_ids rel !! 1%nat) as [e1|] eqn:He1; simpl.
    + left. split; [destruct (bool_decide _); apply returns_Ok|].
      intros _. apply lookup_lt_Some in He1. lia.
    + right. split_and!; [done..|]. apply lookup_ge_None in He1. lia.
  - left. split; [apply returns_Ok|done].
Qed.

Lemma relation_ok_Some kb rel_types rel_id rel :
  relations kb !! rel_id = Some rel →
  relation_ok kb rel_types rel_id = true
  ↔ (relation_type rel ∈ rel_types → (2 ≤ length (entity_ids rel))%nat).
Proof.
  intros Hrel. unfold relation_ok. rewrite Hrel.
  rewrite orb_true_iff, negb_true_iff, bool_decide_eq_false, bool_decide_eq_true.
  destruct (decide (relation_type rel ∈ rel_types)); [|tauto]. split; [|auto].
  intros [?|?]; [done|auto].
Qed.

Lemma get_ent_names_returns ent kb rel_types :
  forallb (relation_ok kb rel_types) (relation_ids ent) = true →
  returns (_get_ent_names_from_relations ent kb rel_types).
Proof.
  intros H. rewrite forallb_true_iff in H.
  rewrite get_ent_names_eq; [apply returns_Ok| |].
  - apply Forall_forall. intros rel_id Hin%H.
    unfold relation_ok in Hin. by destruct (relations kb !! rel_id).
  - apply Forall_forall. intros rel_id Hin%H rel Hrel.
    by apply (relation_ok_Some _ _ _ _ Hrel).
Qed.

Lemma get_ent_names_raises ent kb rel_types :
  forallb (relation_ok kb rel_types) (relation_ids ent) = false →
  _get_ent_names_from_relations ent kb rel_types = Raise LookupError.
Proof.
  intros H. unfold FeatureGenerator._get_ent_names_from_relations.
  destruct (mapM _ (relation_ids ent)) as [rels|e] eqn:Hrels; simpl.
  - apply mapM_result_Forall2 in Hrels.
    assert (∃ rel, rel ∈ rels ∧ ent_ids_of_rel kb rel_types rel = Raise LookupError)
      as Hbad.
    { clear -H Hrels. induction Hrels as [|rel_id rel ids rels Hrel _ IH]; [done|].
      simpl in H. apply andb_false_iff in H as [H|H].
      - destruct (relations kb !! rel_id) as [rel'|] eqn:Hl; [|done].
        injection Hrel as ->. exists rel. split; [left|].
        destruct (ent_ids_of_rel_cases kb rel_types rel) as [[_ Hok]|[Hr _]]; [|done].
        apply (relation_ok_Some _ _ _ _ Hl) in Hok. congruence.
      - destruct (IH H) as (rel' & ? & ?). exists rel'. split; [by right|done]. }
    rewrite (mapM_raise (ent_ids_of_rel kb rel_types) rels LookupError); [done| |done].
    intros rel _. destruct (ent_ids_of_rel_cases kb rel_types rel) as [[? _]|[? _]]; auto.
  - apply mapM_raise_inv in Hrels as (rel_id & _ & He).
    destruct (relations kb !! rel_id); [discriminate|]. by injection He as <-.
Qed.

Lemma compute_tokens_returns ent kb :
  forallb (relation_ok kb PARENT_REL_LABELS) (relation_ids ent)
  && forallb (relation_ok kb CHILD_REL_LABELS) (relation_ids ent) = true →
  returns (_compute_tokens ent kb).
Proof.
  intros [Hp Hc]%andb_true_iff. unfold FeatureGenerator._compute_tokens.
  destruct (get_ent_names_returns ent kb PARENT_REL_LABELS Hp) as [ps ->].
  destruct (get_ent_names_returns ent kb CHILD_REL_LABELS Hc) as [cs ->].
  apply returns_Ok.
Qed.

Lemma compute_tokens_raises ent kb :
  forallb (relation_ok kb PARENT_REL_LABELS) (relation_ids ent)
  && forallb (relation_ok kb CHILD_REL_LABELS) (relation_ids ent) = false →
  _compute_tokens ent kb = Raise LookupError.
Proof.
  intros H. unfold FeatureGenerator._compute_tokens.
  destruct (forallb (relation_ok kb PARENT_REL_LABELS) (relation_ids ent)) eqn:Hp.
  - destruct (get_ent_names_returns ent kb PARENT_REL_LABELS Hp) as [ps ->].
    simpl in H. by rewrite (get_ent_names_raises _ _ _ H).
  - by rewrite (get_ent_names_raises _ _ _ Hp).
Qed.

Lemma fill_tokens_returns kb ents m :
  forallb (λ ent,
             forallb (relation_ok kb PARENT_REL_LABELS) (relation_ids ent)
             && forallb (relation_ok kb CHILD_REL_LABELS) (relation_ids ent)) ents
  = true →
  returns (fill_tokens kb ents m).
Proof.
  intros H. rewrite forallb_true_iff in H. apply for_each_returns.
  intros ent toks Hin%H.
  destruct (compute_tokens_returns ent kb Hin) as [sig ->]. apply returns_Ok.
Qed.

Lemma fill_tokens_raises kb ents m :
  forallb (λ ent,
             forallb (relation_ok kb PARENT_REL_LABELS) (relation_ids ent)
             && forallb (relation_ok kb CHILD_REL_LABELS) (relation_ids ent)) ents
  = false →
  fill_tokens kb ents m = Raise LookupError.
Proof.
  intros H. apply for_each_raise.
  - intros ent toks _.
    destruct (forallb (relation_ok kb PARENT_REL_LABELS) (relation_ids ent)
              && forallb (relation_ok kb CHILD_REL_LABELS) (relation_ids ent)) eqn:E.
    + left. destruct (compute_tokens_returns ent kb E) as [sig ->]. apply returns_Ok.
    + right. by rewrite (compute_tokens_raises _ _ E).
  - apply forallb_false_iff in H as (ent & Hin & Hbad).
    exists ent. split; [done|]. intros toks.
    by rewrite (compute_tokens_raises _ _ Hbad).
Qed.

(** X5.  The constructor returns exactly when every relation id of every
    entity of the two knowledge bases is a key of the relations of its
    knowledge base and every such relation that has a parent or a child
    label has a second endpoint; otherwise it raises the [KeyError] or the
    [IndexError] of the failing lookup. *)
Theorem init_returns_iff_relations_ok s_kb t_kb :
  (returns (init s_kb t_kb) ↔ relations_ok s_kb && relations_ok t_kb = true)
  ∧ (relations_ok s_kb && relations_ok t_kb = false →
     init s_kb t_kb = Raise LookupError).
Proof.
  unfold FeatureGenerator.init, relations_ok.
  destruct (forallb _ (entities s_kb)) eqn:Hs.
  - destruct (fill_tokens_returns s_kb (entities s_kb) ∅ Hs) as [ms ->]. simpl.
    destruct (forallb _ (entities t_kb)) eqn:Ht.
    + destruct (fill_tokens_returns t_kb (entities t_kb) ∅ Ht) as [mt ->]. simpl.
      split; [|done]. split; [done|intros _; apply returns_Ok].
    + rewrite (fill_tokens_raises t_kb (entities t_kb) ∅ Ht). simpl.
      split; [|done]. split; [intros [? [=]]|done].
  - rewrite (fill_tokens_raises s_kb (entities s_kb) ∅ Hs). simpl.
    split; [|done]. split; [intros [? [=]]|done].
Qed.

(** ** The two directions of a pair of knowledge bases *)

Lemma alias_distance_sym (a b : tokens) : alias_distance a b = alias_distance b a.
Proof. unfold alias_distance. by rewrite edit_distance_sym, Nat.add_comm. Qed.

Lemma similarity_sym (s_toks t_toks : tokens) (n n' : nat) sim sim' :
  n = n' →
  similarity (bool_decide (s_toks = t_toks)) s_toks t_toks n = Ok sim →
  similarity (bool_decide (t_toks = s_toks)) t_toks s_toks n' = Ok sim' →
  sim.2 = sim'.2.
Proof.
  intros <-. unfold similarity. case_bool_decide as Heq.
  - rewrite bool_decide_eq_true_2 by done. by intros [= <-] [= <-].
  - rewrite bool_decide_eq_false_2 by congruence.
    intros H H'. apply bind_inv in H as (d & Hd & [= <-]).
    apply bind_inv in H' as (d' & Hd' & [= <-]).
    rewrite edit_distance_sym, Hd in Hd'. by injection Hd' as <-.
Qed.

Lemma best_alias_min_sym (has : bool) (ss ts : list tokens) best best' :
  best_alias has ss ts = Ok best → best_alias has ts ss = Ok best' →
  best.2 = best'.2.
Proof.
  unfold best_alias. destruct has; simpl; [by intros [= <-] [= <-]|].
  intros H H'.
  destruct (alias_scan_extremes _ _ _ _ H) as ((_ & Hle) & Hall & _ & Hmin).
  destruct (alias_scan_extremes _ _ _ _ H') as ((_ & Hle') & Hall' & _ & Hmin').
  cbn [fst snd] in *.
  assert (Qred 1 = 1%Q) as Hone by reflexivity.
  assert (∀ a b, Qred (alias_distance a b) = alias_distance a b) as Hcan.
  { intros a b. unfold alias_distance. apply Qred_complete, Qred_correct. }
  assert (∀ a b, a ∈ ss → b ∈ ts → a ≠ [] → b ≠ [] →
            (best.2 <= alias_distance a b)%Q) as Hlow by (intros; by apply Hall).
  assert (∀ b a, b ∈ ts → a ∈ ss → b ≠ [] → a ≠ [] →
            (best'.2 <= alias_distance a b)%Q) as Hlow'.
  { intros. rewrite alias_distance_sym. by apply Hall'. }
  clear Hall Hall'.
  destruct Hmin as [E|(a & b & Ha & Hb & Hane & Hbne & E)];
    destruct Hmin' as [E'|(b' & a' & Hb' & Ha' & Hbne' & Hane' & E')].
  - congruence.
  - apply Qred_eq; [by rewrite E|rewrite E'; apply Hcan|].
    apply Qle_antisym; [|by rewrite E].
    rewrite E', alias_distance_sym. by apply Hlow.
  - apply Qred_eq; [rewrite E; apply Hcan|by rewrite E'|].
    apply Qle_antisym; [by rewrite E'|]. rewrite E. by apply Hlow'.
  - apply Qred_eq; [rewrite E; apply Hcan|rewrite E'; apply Hcan|].
    apply Qle_antisym.
    + rewrite E', alias_distance_sym. by apply Hlow.
    + rewrite E. by apply Hlow'.
Qed.

Lemma percent_in_common_sym (a b : gset tokens) :
  percent_in_common a b = percent_in_common b a.
Proof.
  unfold percent_in_common.
  by rewrite andb_comm, (Nat.add_comm (size a)), (comm_L (∩) a b).
Qed.

(** X6.  The features do not depend on which of the two knowledge bases is
    taken as the source: the generator made for the two knowledge bases the
    other way round gives, for the pair the other way round, the same flags,
    the same inverse edit distances and the same overlaps of parents and of
    children. *)
Theorem calculate_features_symmetric s_kb t_kb fg fg' s_ent_id t_ent_id f key :
  init s_kb t_kb = Ok fg → init t_kb s_kb = Ok fg' →
  calculate_features fg s_ent_id t_ent_id = Ok f →
  key ∈ ["has_same_canonical_name"; "has_same_stemmed_name";
         "has_same_lemmatized_name"; "has_same_char_tokens"; "has_alias_in_common";
         "inverse_name_edit_distance"; "inverse_stemmed_edit_distance";
         "inverse_lemmatized_edit_distance"; "inverse_char_token_edit_distance";
         "inverse_min_alias_edit_distance";
         "percent_parents_in_common"; "percent_children_in_common"] →
  ∃ f', calculate_features fg' t_ent_id s_ent_id = Ok f' ∧ f' !! key = f !! key.
Proof.
  intros Hinit Hinit' H Hkey.
  assert (s_tokens fg' = t_tokens fg ∧ t_tokens fg' = s_tokens fg) as [Hst Hts].
  { unfold FeatureGenerator.init in Hinit, Hinit'.
    apply bind_inv in Hinit as (ms & Hs & Hinit).
    apply bind_inv in Hinit as (mt & Ht & [= <-]).
    rewrite Ht, bind_Ok, Hs, bind_Ok in Hinit'. by injection Hinit' as <-. }
  destruct (calculate_features_cases _ _ _ t_ent_id s_ent_id Hinit')
    as [(_ & _ & [f' Hf'])|[Hnot _]].
  2:{ destruct (calculate_features_cases _ _ _ s_ent_id t_ent_id Hinit)
        as [(? & ? & _)|[_ Hraise]]; [tauto|congruence]. }
  exists f'. split; [exact Hf'|].
  apply calculate_features_inv in H
    as (s & t & ns & ss & ls & cs & best & pp & pc
        & Hs & Ht & Hns & Hss & Hls & Hcs & Hbest & Hpp & Hpc & ->).
  apply calculate_features_inv in Hf'
    as (t' & s' & ns' & ss' & ls' & cs' & best' & pp' & pc'
        & Ht' & Hs' & Hns' & Hss' & Hls' & Hcs' & Hbest' & Hpp' & Hpc' & ->).
  rewrite Hst, Ht in Ht'. injection Ht' as <-.
  rewrite Hts, Hs in Hs'. injection Hs' as <-.
  assert (size ((list_to_set (alias_tokens t) : gset tokens)
                  ∩ list_to_set (alias_tokens s))
          = size ((list_to_set (alias_tokens s) : gset tokens)
                    ∩ list_to_set (alias_tokens t))) as Hsize.
  { f_equal. apply (comm_L (∩)). }
  rewrite Hsize in *.
  rewrite percent_in_common_sym, Hpp in Hpp'. injection Hpp' as <-.
  rewrite percent_in_common_sym, Hpc in Hpc'. injection Hpc' as <-.
  pose proof (similarity_sym _ _ _ _ _ _ (Nat.add_comm _ _) Hns Hns') as En.
  pose proof (similarity_sym _ _ _ _ _ _ (Nat.add_comm _ _) Hss Hss') as Es.
  pose proof (similarity_sym _ _ _ _ _ _ (Nat.add_comm _ _) Hls Hls') as El.
  pose proof (similarity_sym _ _ _ _ _ _ (Nat.add_comm _ _) Hcs Hcs') as Ec.
  pose proof (best_alias_min_sym _ _ _ _ _ Hbest Hbest') as Eb.
  repeat (apply elem_of_cons in Hkey as [->|Hkey]); [..|by apply elem_of_nil in Hkey];
    (etrans; [feature_lookup|]); symmetry; (etrans; [feature_lookup|]);
    first [ done | by rewrite En | by rewrite Es | by rewrite El | by rewrite Ec
          | by rewrite Eb
          | do 2 f_equal; apply bool_decide_ext; split; congruence ].
Qed.

(** ** Entities that share an id *)

Lemma fill_tokens_last kb ents m m' id :
  fill_tokens kb ents m = Ok m' →
  m' !! id
  = match last (filter (λ ent, research_entity_id ent = id) ents) with
    | Some ent =>
        match _compute_tokens ent kb with Ok sig => Some sig | Raise _ => None end
    | None => m !! id
    end.
Proof.
  unfold FeatureGenerator.fill_tokens.
  revert m. induction ents as [|ent ents IH]; intros m; simpl.
  - by intros [= <-].
  - intros H. apply bind_inv in H as (m1 & H1 & H).
    apply bind_inv in H1 as (sig & Hsig & [= <-]).
    rewrite (IH _ H). rewrite filter_cons. case_decide as Hid.
    + destruct (filter _ ents) as [|e es] eqn:Hf.
      * simpl. rewrite Hsig. subst id. apply lookup_insert_eq.
      * change (last (ent :: e :: es)) with (last (e :: es)).
        destruct (last (e :: es)) eqn:Hl; [done|]. by apply last_None in Hl.
    + destruct (last (filter _ ents)); [done|]. by apply lookup_insert_ne.
Qed.

(** X7.  When several entities of a knowledge base have the same id, the
    signature that the generator keeps for the id is that of the last of
    them in [kb.entities]. *)
Theorem init_keeps_last_entity s_kb t_kb fg id sig :
  init s_kb t_kb = Ok fg →
  (s_tokens fg !! id = Some sig
   ↔ ∃ ent, last (filter (λ ent, research_entity_id ent = id) (entities s_kb))
              = Some ent
            ∧ _compute_tokens ent s_kb = Ok sig)
  ∧ (t_tokens fg !! id = Some sig
     ↔ ∃ ent, last (filter (λ ent, research_entity_id ent = id) (entities t_kb))
                = Some ent
              ∧ _compute_tokens ent t_kb = Ok sig).
Proof.
  unfold FeatureGenerator.init. intros H.
  apply bind_inv in H as (ms & Hs & H). apply bind_inv in H as (mt & Ht & [= <-]).
  simpl. rewrite (fill_tokens_last _ _ _ _ id Hs), (fill_tokens_last _ _ _ _ id Ht).
  rewrite lookup_empty. split.
  - destruct (last _) as [ent|].
    + split.
      * intros Hc. exists ent. split; [done|].
        by destruct (_compute_tokens ent s_kb) as [sig'|]; simplify_eq.
      * intros (ent' & [= <-] & ->). done.
    + split; [done|]. by intros (? & ? & _).
  - destruct (last _) as [ent|].
    + split.
      * intros Hc. exists ent. split; [done|].
        by destruct (_compute_tokens ent t_kb) as [sig'|]; simplify_eq.
      * intros (ent' & [= <-] & ->). done.
    + split; [done|]. by intros (? & ? & _).
Qed.

End generator_more.

(** X8.  The overlap of the parents is 1 exactly when the two entities have
    the same set of parent names and it is not empty, and 0 exactly when
    they have no parent name in common; and so for the children. *)
Theorem calculate_features_overlap_extremes fg s_ent_id t_ent_id s t f :
  s_tokens fg !! s_ent_id = Some s → t_tokens fg !! t_ent_id = Some t →
  calculate_features fg s_ent_id t_ent_id = Ok f →
  ∃ pp pc,
    f !! "percent_parents_in_common" = Some (FNum pp)
    ∧ f !! "percent_children_in_common" = Some (FNum pc)
    ∧ ((pp == 1)%Q ↔ parent_names s = parent_names t ∧ parent_names s ≠ ∅)
    ∧ ((pp == 0)%Q ↔ parent_names s ∩ parent_names t = ∅)
    ∧ ((pc == 1)%Q ↔ child_names s = child_names t ∧ child_names s ≠ ∅)
    ∧ ((pc == 0)%Q ↔ child_names s ∩ child_names t = ∅).
Proof.
  intros Hs Ht H. apply calculate_features_inv in H
    as (s' & t' & ns & ss & ls & cs & best & pp & pc
        & Hs' & Ht' & _ & _ & _ & _ & _ & Hpp & Hpc & ->).
  rewrite Hs in Hs'. injection Hs' as <-. rewrite Ht in Ht'. injection Ht' as <-.
  destruct (percent_in_common_extremes _ _ _ Hpp) as [Hp1 Hp0].
  destruct (percent_in_common_extremes _ _ _ Hpc) as [Hc1 Hc0].
  exists pp, pc. split_and!; [feature_lookup..|done|done|done|done].
Qed.

Lemma calculate_features_known_ids_witness :
  returns (calculate_features Examples.feat_gen "S:1" "T:1")
  ∧ ¬ returns (calculate_features Examples.feat_gen "S:1" "T:9").
Proof.
  split.
  - apply (calculate_features_known_ids
             Examples.normalize_string Examples.tokenize_string Examples.stem
             Examples.lemmatize Examples.get_character_n_grams Examples.NGRAM_SIZE
             Examples.s_kb Examples.t_kb Examples.feat_gen "S:1" "T:1").
    + vm_compute; reflexivity.
    + split; apply (bool_decide_unpack _); vm_compute; exact I.
  - intros Hret.
    apply (calculate_features_known_ids
             Examples.normalize_string Examples.tokenize_string Examples.stem
             Examples.lemmatize Examples.get_character_n_grams Examples.NGRAM_SIZE
             Examples.s_kb Examples.t_kb Examples.feat_gen "S:1" "T:9") in Hret
      as [_ Hin]; [|vm_compute; reflexivity].
    revert Hin. apply (bool_decide_unpack _). vm_compute. exact I.
Defined.

Lemma calculate_features_keys_witness :
  dom Examples.features_heart = list_to_set feature_names.
Proof.
  apply (calculate_features_keys Examples.feat_gen "S:1" "T:1").
  vm_cast_no_check (eq_refl (Ok Examples.features_heart)).
Defined.

Lemma calculate_features_ranges_witness :
  ∃ q, Examples.features_heart_organ !! "inverse_name_edit_distance" = Some (FNum q)
       ∧ (0 <= q <= 1)%Q.
Proof.
  apply (calculate_features_ranges
           Examples.normalize_string Examples.tokenize_string Examples.stem
           Examples.lemmatize Examples.get_character_n_grams Examples.NGRAM_SIZE
           Examples.s_kb Examples.t_kb Examples.feat_gen "S:1" "T:2").
  - vm_compute; reflexivity.
  - vm_cast_no_check (eq_refl (Ok Examples.features_heart_organ)).
  - left.
Defined.

Lemma calculate_features_overlap_extremes_witness :
  ∃ pp pc,
    Examples.features_heart !! "percent_parents_in_common" = Some (FNum pp)
    ∧ Examples.features_heart !! "percent_children_in_common" = Some (FNum pc)
    ∧ (pp == 1)%Q ∧ (pc == 0)%Q.
Proof.
  destruct (calculate_features_overlap_extremes Examples.feat_gen "S:1" "T:1"
              (Examples.s_sig "S:1") (Examples.t_sig "T:1") Examples.features_heart)
    as (pp & pc & Hpp & Hpc & Hp1 & _ & _ & Hc0).
  - vm_compute; reflexivity.
  - vm_compute; reflexivity.
  - vm_cast_no_check (eq_refl (Ok Examples.features_heart)).
  - exists pp, pc. split_and!; [exact Hpp|exact Hpc| |].
    + apply Hp1. split.
      * vm_compute. reflexivity.
      * apply (bool_decide_unpack _). vm_compute. exact I.
    + apply Hc0. vm_compute. reflexivity.
Defined.

Lemma calculate_features_best_alias_witness :
  ∃ max_j min_d,
    Examples.features_organ !! "max_alias_token_jaccard" = Some (FNum max_j)
    ∧ Examples.features_organ !! "inverse_min_alias_edit_distance"
      = Some (FNum (py_sub 1 min_d))
    ∧ (alias_jaccard ["organ"] ["body"; "organ"] <= max_j)%Q
    ∧ (min_d <= alias_distance ["organ"] ["body"; "organ"])%Q.
Proof.
  destruct (calculate_features_best_alias Examples.feat_gen "S:2" "T:2"
              (Examples.s_sig "S:2") (Examples.t_sig "T:2") Examples.features_organ)
    as (max_j & min_d & _ & Hj & Hd & Hall & _).
  - vm_compute; reflexivity.
  - vm_compute; reflexivity.
  - vm_cast_no_check (eq_refl (Ok Examples.features_organ)).
  - apply Forall_forall. apply (bool_decide_unpack _). vm_compute. exact I.
  - exists max_j, min_d. split_and!; [exact Hj|exact Hd|..];
      apply (Hall ["organ"] ["body"; "organ"]);
      try (apply (bool_decide_unpack _); vm_compute; exact I); discriminate.
Defined.

Lemma init_returns_iff_relations_ok_witness :
  returns (FeatureGenerator.init
             Examples.normalize_string Examples.tokenize_string Examples.stem
             Examples.lemmatize Examples.get_character_n_grams Examples.NGRAM_SIZE
             Examples.s_kb Examples.t_kb)
  ∧ FeatureGenerator.init
      Examples.normalize_string Examples.tokenize_string Examples.stem
      Examples.lemmatize Examples.get_character_n_grams Examples.NGRAM_SIZE
      Examples.s_kb Examples.broken_kb
    = Raise LookupError.
Proof.
  split.
  - apply (init_returns_iff_relations_ok
             Examples.normalize_string Examples.tokenize_string Examples.stem
             Examples.lemmatize Examples.get_character_n_grams Examples.NGRAM_SIZE
             Examples.s_kb Examples.t_kb).
    vm_compute. reflexivity.
  - apply (init_returns_iff_relations_ok
             Examples.normalize_string Examples.tokenize_string Examples.stem
             Examples.lemmatize Examples.get_character_n_grams Examples.NGRAM_SIZE
             Examples.s_kb Examples.broken_kb).
    vm_compute. reflexivity.
Defined.

Lemma calculate_features_symmetric_witness :
  ∃ f', calculate_features Examples.feat_gen_rev "T:2" "S:1" = Ok f'
        ∧ f' !! "inverse_name_edit_distance"
          = Examples.features_heart_organ !! "inverse_name_edit_distance".
Proof.
  apply (calculate_features_symmetric
           Examples.normalize_string Examples.tokenize_string Examples.stem
           Examples.lemmatize Examples.get_character_n_grams Examples.NGRAM_SIZE
           Examples.s_kb Examples.t_kb Examples.feat_gen Examples.feat_gen_rev
           "S:1" "T:2").
  - vm_compute; reflexivity.
  - vm_compute; reflexivity.
  - vm_cast_no_check (eq_refl (Ok Examples.features_heart_organ)).
  - apply (bool_decide_unpack _). vm_compute. exact I.
Defined.

Lemma init_keeps_last_entity_witness :
  FeatureGenerator.s_tokens Examples.dup_gen !! "D:1" = Some Examples.second_sig
  ∧ name_tokens Examples.second_sig = ["second"].
Proof.
  split; [|vm_compute; reflexivity].
  apply (init_keeps_last_entity
           Examples.normalize_string Examples.tokenize_string Examples.stem
           Examples.lemmatize Examples.get_character_n_grams Examples.NGRAM_SIZE
           Examples.dup_kb Examples.dup_kb Examples.dup_gen "D:1" Examples.second_sig).
  - vm_compute; reflexivity.
  - exists Examples.second. split; vm_compute; reflexivity.
Defined.

End FeatureGeneratorFacts.

(** * More about the orchestrator *)

Module OntoEmmaFacts.
Import Csv OntoEmma CsvProps FeatureGeneratorProps OntoEmmaProps FeatureGeneratorFacts.

(** ** Records of plain fields *)

Lemma parse_line_only_field (f : string) (fs : list string) :
  csv_plain f = true → f ≠ EmptyString →
  parse_line {| state := START_RECORD; field := EmptyString; fields := fs |}
             (f +:+ String LF EmptyString)
  = Ok {| state := EAT_CRNL; field := EmptyString; fields := fs ++ [f] |}.
Proof.
  intros Hf Hne. rewrite <- (parse_line_last_field f fs Hf).
  destruct f as [|c f]; [done|].
  apply csv_plain_inv in Hf as (Hplain & _ & _).
  simpl in Hplain. apply andb_true_iff in Hplain as [Hc _].
  pose proof (is_newline_plain c Hc) as Hnl.
  apply plain_char_inv in Hc as (_ & _ & _ & Hnul).
  rewrite app_String. cbn [parse_line]. rewrite !decide_False by done.
  unfold parse_process_char. cbn [state]. by rewrite Hnl.
Qed.

Lemma concat_tab_cons (f g : string) (row : list string) :
  String.concat tab (f :: g :: row) = f +:+ String TAB (String.concat tab (g :: row)).
Proof. reflexivity. Qed.

Lemma parse_line_fields st (fs row : list string) :
  row ≠ [] →
  forallb csv_plain row = true →
  st = START_FIELD ∨ (st = START_RECORD ∧ row ≠ [EmptyString]) →
  parse_line {| state := st; field := EmptyString; fields := fs |}
             (String.concat tab row +:+ newline)
  = Ok {| state := EAT_CRNL; field := EmptyString; fields := fs ++ row |}.
Proof.
  revert st fs. induction row as [|f row IH]; intros st fs Hne Hplain Hst; [done|].
  simpl in Hplain. apply andb_true_iff in Hplain as [Hf Hrow].
  destruct row as [|g row].
  - cbn [String.concat]. unfold newline. destruct Hst as [->|[-> Hf']].
    + by apply parse_line_last_field.
    + apply parse_line_only_field; [done|]. by intros ->.
  - rewrite concat_tab_cons, app_assoc_string, app_String.
    rewrite parse_line_field; [|destruct Hst as [->|[-> _]]; auto|done].
    rewrite IH; [|done|done|by left]. by rewrite <- app_assoc.
Qed.

Lemma parse_tsv_record (row : list string) :
  plain_row row = true →
  parse_line parse_reset (tsv_record row) ≫= (λ self, parse_process_char self None)
  = Ok {| state := START_RECORD; field := EmptyString; fields := row |}.
Proof.
  unfold plain_row. intros [Hplain Hne]%andb_true_iff.
  apply negb_true_iff, bool_decide_eq_false in Hne.
  unfold tsv_record, parse_reset. destruct row as [|f row].
  - reflexivity.
  - rewrite parse_line_fields; [reflexivity|done|done|by right].
Qed.

Lemma for_rows_tsv_records {A} (body : list string → result A) (rows : list (list string)) :
  Forall (λ row, plain_row row = true) rows →
  for_rows body parse_reset (tsv_record <$> rows) = mapM body rows.
Proof.
  induction 1 as [|row rows Hrow _ IH]; [done|].
  rewrite fmap_cons. cbn [for_rows mapM].
  pose proof (parse_tsv_record row Hrow) as Hline.
  apply bind_inv in Hline as (self & Hself & Hline).
  rewrite Hself, bind_Ok, Hline, bind_Ok. cbn [state fields].
  rewrite decide_True by done. by rewrite IH.
Qed.

Lemma concat_tab_no_newline (row : list string) :
  forallb csv_plain row = true →
  string_forall no_newline (String.concat tab row) = true.
Proof.
  induction row as [|f row IH]; [done|]. simpl forallb.
  intros [(Hf & _ & _)%csv_plain_inv Hrow]%andb_true_iff.
  destruct row as [|g row].
  - by apply plain_no_newline.
  - rewrite concat_tab_cons, string_forall_app.
    rewrite (plain_no_newline _ Hf). cbn [andb string_forall].
    rewrite (IH Hrow). reflexivity.
Qed.

Lemma readlines_tsv_text (rows : list (list string)) :
  Forall (λ row, plain_row row = true) rows →
  readlines (tsv_text rows) = tsv_record <$> rows.
Proof.
  intros Hrows. unfold tsv_text.
  assert (tsv_record <$> rows
          = (λ body, body +:+ String LF EmptyString) <$> (String.concat tab <$> rows))
    as ->.
  { by rewrite <- list_fmap_compose. }
  apply readlines_concat, Forall_fmap.
  eapply Forall_impl; [exact Hrows|]. intros row [Hrow _]%andb_true_iff.
  by apply concat_tab_no_newline.
Qed.

Lemma for_rows_Forall {A} (body : list string → result A) (P : A → Prop)
    (self : Reader) (lines : list string) (l : list A) :
  (∀ row a, body row = Ok a → P a) →
  for_rows body self lines = Ok l → Forall P l.
Proof.
  intros Hbody. revert self l.
  induction lines as [|line lines IH]; intros self l; cbn [for_rows].
  - destruct (negb _ || _).
    + intros H. apply bind_inv in H as (a & Ha & [= <-]).
      constructor; [by eapply Hbody|constructor].
    + intros [= <-]. constructor.
  - intros H. apply bind_inv in H as (self1 & _ & H).
    apply bind_inv in H as (self2 & _ & H).
    destruct (decide (state self2 = START_RECORD)); [|by eapply IH].
    apply bind_inv in H as (a & Ha & H). apply bind_inv in H as (rest & Hrest & [= <-]).
    constructor; [by eapply Hbody|by eapply IH].
Qed.

Section loading.
Variable float_of_string : string → option Q.

Local Abbreviation tsv_row := (tsv_row float_of_string).
Local Abbreviation _load_alignment_from_tsv := (_load_alignment_from_tsv float_of_string).

Lemma tsv_row_inv row m :
  tsv_row row = Ok m →
  ∃ label comment x,
    row = [m.1.1; m.1.2; label; comment]
    ∧ float_of_string label = Some x ∧ m.2 = MFloat x.
Proof.
  unfold OntoEmma.tsv_row.
  destruct row as [|s [|t [|label [|comment [|? ?]]]]]; try discriminate.
  destruct (float_of_string label) as [x|] eqn:Hx; [|discriminate].
  intros [= <-]. by exists label, comment, x.
Qed.

Lemma tsv_row_raises row :
  length row ≠ 4%nat
  ∨ (∃ label, row !! 2%nat = Some label ∧ float_of_string label = None) →
  tsv_row row = Raise ValueError.
Proof.
  unfold OntoEmma.tsv_row.
  destruct row as [|s [|t [|label [|comment [|? ?]]]]]; try done.
  intros [Hlen|(l & [= <-] & ->)]; [simpl in Hlen; lia|done].
Qed.

Lemma tsv_row_cases row : returns (tsv_row row) ∨ tsv_row row = Raise ValueError.
Proof.
  unfold OntoEmma.tsv_row.
  destruct row as [|s [|t [|label [|comment [|? ?]]]]]; auto.
  destruct (float_of_string label); [left; apply returns_Ok|by right].
Qed.

Lemma load_tsv_records (rows : list (list string)) :
  Forall (λ row, plain_row row = true) rows →
  _load_alignment_from_tsv (tsv_text rows) = mapM tsv_row rows.
Proof.
  intros Hrows. unfold OntoEmma._load_alignment_from_tsv, reader.
  rewrite readlines_tsv_text by done. by apply for_rows_tsv_records.
Qed.

(** X9.  A TSV file of records of plain fields is loaded record by record,
    in the order of the file: each record of four fields whose third field
    parses as a float gives the mapping of its first two fields with that
    float, the fourth field being dropped; a record with another number of
    fields, or whose third field does not parse, raises [ValueError].  The
    empty file gives no mapping. *)
Theorem load_alignment_from_tsv_records (rows : list (list string)) :
  Forall (λ row, plain_row row = true) rows →
  (∀ mappings,
     _load_alignment_from_tsv (tsv_text rows) = Ok mappings →
     Forall2 (λ row m, ∃ label comment x,
                row = [m.1.1; m.1.2; label; comment]
                ∧ float_of_string label = Some x ∧ m.2 = MFloat x)
             rows mappings)
  ∧ (Forall (λ row, ∃ s_ent t_ent label comment,
               row = [s_ent; t_ent; label; comment]
               ∧ is_Some (float_of_string label)) rows →
     returns (_load_alignment_from_tsv (tsv_text rows)))
  ∧ (Exists (λ row, length row ≠ 4%nat
                    ∨ ∃ label, row !! 2%nat = Some label
                               ∧ float_of_string label = None) rows →
     _load_alignment_from_tsv (tsv_text rows) = Raise ValueError).
Proof.
  intros Hrows. rewrite load_tsv_records by done. split_and!.
  - intros mappings Hm. apply mapM_result_Forall2 in Hm.
    eapply Forall2_impl; [exact Hm|]. intros row m. apply tsv_row_inv.
  - intros Hall. apply mapM_result_returns.
    eapply Forall_impl; [exact Hall|].
    intros row (s & t & label & comment & -> & [x Hx]).
    unfold OntoEmma.tsv_row. rewrite Hx. apply returns_Ok.
  - intros (row & Hin & Hbad)%Exists_exists.
    apply mapM_raise; [intros; apply tsv_row_cases|].
    exists row. split; [done|]. by apply tsv_row_raises.
Qed.

Local Abbreviation load_alignment := (load_alignment float_of_string).
Local Abbreviation gold_positives_of := (gold_positives_of float_of_string).
Local Abbreviation evaluate_alignment := (evaluate_alignment float_of_string).

(** The pairs of a predicted alignment. *)
Local Abbreviation pairs_of alignment :=
  (list_to_set ((λ '(s_ent, t_ent, score), (s_ent, t_ent)) <$> alignment)
     : gset (string * string)).

Lemma elem_of_pairs_of (alignment : list prediction) s t :
  (s, t) ∈ pairs_of alignment ↔ ∃ p, (s, t, p) ∈ alignment.
Proof.
  rewrite elem_of_list_to_set, list_elem_of_fmap. split.
  - intros ([[s' t'] p] & [= -> ->] & Hin). by exists p.
  - intros (p & Hin). by exists (s, t, p).
Qed.

Local Abbreviation parses := (parses float_of_string).
Local Abbreviation positive := (positive float_of_string).

Lemma evaluate_alignment_against gold (alignment : list prediction) s_kb t_kb
    mappings gp :
  load_alignment gold = Ok mappings →
  gold_positives_of mappings = Ok gp →
  evaluate_alignment gold alignment s_kb t_kb
  = evaluate_against gp alignment s_kb t_kb.
Proof.
  intros Hload Hgp. unfold OntoEmma.evaluate_alignment.
  by rewrite Hload, bind_Ok, Hgp, bind_Ok.
Qed.

(** C2, amended.  The gold positives are computed from the mappings that
    [load_alignment] returns for the gold file, and an exception of
    [load_alignment] is that of the evaluation.  When every measure of the
    mappings that is present and not empty parses as a float, the evaluation
    goes on with the gold positives that are exactly the pairs with a
    measure that is present, not empty and parses as a float greater than 0;
    a measure that is present, not empty and does not parse makes the
    evaluation raise [ValueError].  For a TSV file the loader has applied
    [float] to every label already: the measures of the mappings it returns
    are floats, and in a file of records of plain fields a row whose label
    does not parse makes the evaluation raise [ValueError]. *)
Theorem evaluate_alignment_gold_positives gold (alignment : list prediction)
    s_kb t_kb :
  (∀ e, load_alignment gold = Raise e →
        evaluate_alignment gold alignment s_kb t_kb = Raise e)
  ∧ (∀ mappings, load_alignment gold = Ok mappings →
       (Forall (λ m, parses m.2) mappings →
        ∃ gp, (∀ s_ent t_ent, (s_ent, t_ent) ∈ gp ↔
                 ∃ score, (s_ent, t_ent, score) ∈ mappings ∧ positive score)
              ∧ evaluate_alignment gold alignment s_kb t_kb
                = evaluate_against gp alignment s_kb t_kb)
       ∧ (Exists (λ m, ¬ parses m.2) mappings →
          evaluate_alignment gold alignment s_kb t_kb = Raise ValueError))
  ∧ (∀ content mappings,
       gold = TsvFile content → load_alignment gold = Ok mappings →
       Forall (λ m, ∃ x, m.2 = MFloat x) mappings)
  ∧ (∀ rows,
       gold = TsvFile (tsv_text rows) →
       Forall (λ row, plain_row row = true) rows →
       Exists (λ row, ∃ label, row !! 2%nat = Some label
                               ∧ float_of_string label = None) rows →
       evaluate_alignment gold alignment s_kb t_kb = Raise ValueError).
Proof.
  split_and!.
  - intros e He. unfold OntoEmma.evaluate_alignment. by rewrite He.
  - intros mappings Hload. split.
    + intros Hall.
      destruct (gold_positives_of_parses float_of_string mappings Hall)
        as (gp & Hgp & Hin).
      exists gp. split; [exact Hin|]. by apply evaluate_alignment_against with mappings.
    + intros Hex. unfold OntoEmma.evaluate_alignment.
      by rewrite Hload, bind_Ok, gold_positives_of_fails.
  - intros content mappings -> Hload. cbn [OntoEmma.load_alignment] in Hload.
    eapply for_rows_Forall; [|exact Hload].
    intros row m (label & comment & x & _ & _ & Hm)%tsv_row_inv. by exists x.
  - intros rows -> Hrows (row & Hin & label & Hlabel & Hnone)%Exists_exists.
    unfold OntoEmma.evaluate_alignment. cbn [OntoEmma.load_alignment].
    rewrite load_tsv_records by done.
    rewrite (mapM_raise tsv_row rows ValueError); [done| |].
    + intros; apply tsv_row_cases.
    + exists row. split; [done|]. apply tsv_row_raises. right. by exists label.
Qed.

(** X10.  The evaluation looks at the set of the predicted pairs only: two
    alignments with the same pairs, whatever their scores, their order and
    their repetitions, get the same scores and the same missed
    alignments. *)
Theorem evaluate_alignment_pairs_only gold (alignment alignment' : list prediction)
    s_kb t_kb :
  (∀ s t, (∃ p, (s, t, p) ∈ alignment) ↔ (∃ p, (s, t, p) ∈ alignment')) →
  evaluate_alignment gold alignment s_kb t_kb
  = evaluate_alignment gold alignment' s_kb t_kb.
Proof.
  intros Hsame.
  assert (pairs_of alignment = pairs_of alignment') as Heq.
  { apply set_eq. intros [s t]. rewrite !elem_of_pairs_of. apply Hsame. }
  unfold OntoEmma.evaluate_alignment.
  destruct (load_alignment gold) as [mappings|e]; [|done]. rewrite !bind_Ok.
  destruct (gold_positives_of mappings) as [gp|e]; [|done]. rewrite !bind_Ok.
  cbv zeta. by rewrite Heq.
Qed.

Lemma size_inter_le_l (a b : gset (string * string)) : (size (a ∩ b) ≤ size a)%nat.
Proof. apply subseteq_size. set_solver. Qed.

Lemma size_inter_le_r (a b : gset (string * string)) : (size (a ∩ b) ≤ size b)%nat.
Proof. apply subseteq_size. set_solver. Qed.

Lemma size_pairs_0 (X : gset (string * string)) : size X = 0%nat ↔ X = ∅.
Proof. rewrite size_empty_iff. apply leibniz_equiv_iff. Qed.

(** The F1 score of two quotients with the same numerator. *)
Lemma f1_closed_form (i a g : nat) :
  i ≠ 0%nat → a ≠ 0%nat → g ≠ 0%nat →
  (2 * Qred (Qnat i / Qnat a) * Qred (Qnat i / Qnat g)
   / (Qred (Qnat i / Qnat a) + Qred (Qnat i / Qnat g))
   == Qnat (2 * i) / Qnat (a + g))%Q.
Proof.
  intros Hi Ha Hg. rewrite !Qred_correct. unfold Qnat.
  rewrite Nat2Z.inj_mul, Nat2Z.inj_add, inject_Z_mult, inject_Z_plus.
  change (inject_Z (Z.of_nat 2)) with 2%Q.
  pose proof (Qnat_neq_0 i Hi) as Hi'. pose proof (Qnat_neq_0 a Ha) as Ha'.
  pose proof (Qnat_neq_0 g Hg) as Hg'. unfold Qnat in Hi', Ha', Hg'.
  assert (¬ (inject_Z (Z.of_nat a) + inject_Z (Z.of_nat g) == 0)%Q) as Hag.
  { rewrite <- inject_Z_plus, <- Nat2Z.inj_add. apply (Qnat_neq_0 (a + g)). lia. }
  assert (¬ (inject_Z (Z.of_nat i) * inject_Z (Z.of_nat g)
             + inject_Z (Z.of_nat i) * inject_Z (Z.of_nat a) == 0)%Q) as Hden.
  { rewrite <- !inject_Z_mult, <- inject_Z_plus, <- !Nat2Z.inj_mul, <- Nat2Z.inj_add.
    apply (Qnat_neq_0 (i * g + i * a)). nia. }
  field. auto.
Qed.

(** X11.  With a predicted alignment and gold positives that are both not
    empty the evaluation returns the precision and the recall as the
    quotients of the number of predicted pairs that are gold positives by the
    number of predicted pairs and by the number of gold positives, both
    between 0 and 1.  The F1 score is missing when no predicted pair is a
    gold positive; when one is, there is an F1 score, greater than 0 and at
    most 1. *)
Theorem evaluate_alignment_scores gold (alignment : list prediction) s_kb t_kb
    mappings gp :
  load_alignment gold = Ok mappings →
  gold_positives_of mappings = Ok gp →
  alignment ≠ [] → gp ≠ ∅ →
  ∃ outf precision recall f1_score,
    evaluate_alignment gold alignment s_kb t_kb
    = Ok (outf, (Some precision, Some recall, f1_score))
    ∧ (precision == Qnat (size (pairs_of alignment ∩ gp))
                    / Qnat (size (pairs_of alignment)))%Q
    ∧ (recall == Qnat (size (pairs_of alignment ∩ gp)) / Qnat (size gp))%Q
    ∧ (0 <= precision <= 1)%Q ∧ (0 <= recall <= 1)%Q
    ∧ (pairs_of alignment ∩ gp = ∅ → f1_score = None)
    ∧ (pairs_of alignment ∩ gp ≠ ∅ →
       ∃ f1, f1_score = Some f1 ∧ (0 < f1)%Q ∧ (f1 <= 1)%Q).
Proof.
  intros Hload Hgp Hal Hgold.
  unfold OntoEmma.evaluate_alignment. rewrite Hload, bind_Ok, Hgp, bind_Ok. cbv zeta.
  set (ap := pairs_of alignment).
  assert (size ap ≠ 0%nat) as Hap.
  { rewrite size_pairs_0. destruct alignment as [|[[s t] p] l]; [done|].
    intros Hempty. assert ((s, t) ∈ ap) as Hin; [|by rewrite Hempty in Hin].
    apply elem_of_pairs_of. exists p. left. }
  assert (size gp ≠ 0%nat) as Hg by (by rewrite size_pairs_0).
  pose proof (size_inter_le_l ap gp) as Hl. pose proof (size_inter_le_r ap gp) as Hr.
  rewrite bool_decide_eq_true_2 by lia.
  rewrite (py_div_nat _ (size ap)), bind_Ok by done.
  rewrite (py_div_nat _ (size gp)), bind_Ok by done.
  set (i := size (ap ∩ gp)) in *.
  eexists _, _, _, _. split; [reflexivity|].
  split; [apply Qred_correct|]. split; [apply Qred_correct|].
  split; [by apply ratio_range|]. split; [by apply ratio_range|].
  destruct (decide (i = 0%nat)) as [Hi|Hi].
  - split; [|by rewrite <- size_pairs_0]. intros _.
    rewrite Hi. replace (Qlt_bool _ _) with false; [done|].
    symmetry. apply not_true_is_false. rewrite Qlt_bool_iff, !Qred_correct.
    unfold Qdiv. rewrite !Qmult_0_l. discriminate.
  - split; [by rewrite <- size_pairs_0|]. intros _.
    replace (Qlt_bool _ _) with true.
    + eexists. split; [reflexivity|]. rewrite Qred_correct.
      rewrite f1_closed_form by done.
      rewrite <- (Qred_correct (Qnat (2 * i) / Qnat (size ap + size gp))).
      assert (size ap + size gp ≠ 0)%nat as Hsum by lia.
      destruct (ratio_range (2 * i) (size ap + size gp)) as [H0 H1]; [lia|done|].
      split; [|exact H1].
      apply Qle_lteq in H0 as [Hlt|Heq]; [done|].
      exfalso. symmetry in Heq. rewrite Qred_correct in Heq.
      apply ratio_eq_0 in Heq; [lia|done].
    + symmetry. apply Qlt_bool_iff.
      destruct (ratio_range i (size ap) Hl Hap) as [Hp0 _].
      destruct (ratio_range i (size gp) Hr Hg) as [Hr0 _].
      apply Qle_lt_trans with (0 + Qred (Qnat i / Qnat (size gp)))%Q.
      * rewrite Qplus_0_l.
        apply Qle_lteq in Hr0 as [Hlt|Heq]; [by apply Qlt_le_weak|].
        by rewrite <- Heq.
      * apply Qplus_lt_l. apply Qle_lteq in Hp0 as [Hlt|Heq]; [done|].
        exfalso. symmetry in Heq. rewrite Qred_correct in Heq.
        apply ratio_eq_0 in Heq; done.
Qed.

(** X12.  The file of missed alignments gets one line for each gold positive
    that is not a predicted pair; the recall is 1 exactly when it gets no
    line. *)
Theorem evaluate_alignment_missed gold (alignment : list prediction) s_kb t_kb
    mappings gp outf precision recall f1_score :
  load_alignment gold = Ok mappings →
  gold_positives_of mappings = Ok gp →
  evaluate_alignment gold alignment s_kb t_kb = Ok (outf, (precision, recall, f1_score)) →
  outf = missed_line s_kb t_kb <$> elements (gp ∖ pairs_of alignment)
  ∧ length outf = (size gp - size (pairs_of alignment ∩ gp))%nat
  ∧ (∀ r, recall = Some r → (r == 1)%Q ↔ outf = []).
Proof.
  intros Hload Hgp. unfold OntoEmma.evaluate_alignment.
  rewrite Hload, bind_Ok, Hgp, bind_Ok. cbv zeta.
  set (ap := pairs_of alignment).
  assert (size (gp ∖ ap) = (size gp - size (ap ∩ gp))%nat) as Hsize.
  { replace (gp ∖ ap) with (gp ∖ (ap ∩ gp)) by set_solver.
    apply size_difference. set_solver. }
  pose proof (size_inter_le_r ap gp) as Hr.
  case_bool_decide as Hpos.
  - intros H. apply bind_inv in H as (p & Hp & H). apply bind_inv in H as (r & Hrec & H).
    injection H as <- <- <- <-.
    split; [done|]. split; [by rewrite length_fmap|].
    intros r' [= <-]. apply py_div_nat_inv in Hrec as [Hg ->].
    rewrite Qred_correct, ratio_eq_1 by done.
    rewrite <- length_zero_iff_nil, length_fmap.
    change (length (elements (gp ∖ ap))) with (size (gp ∖ ap)). lia.
  - intros [= <- <- <- <-]. split; [done|]. split; [by rewrite length_fmap|].
    by intros r' [=].
Qed.

End loading.

(** ** The order of the written alignment *)

Lemma insert_by_score_descending (x : prediction) (l : list prediction) :
  descending l → descending (insert_by_score x l).
Proof.
  induction l as [|y l IH]; cbn [insert_by_score descending].
  - by split.
  - intros [Hy Hl]. destruct (Qlt_bool x.2 y.2) eqn:E; cbn [descending].
    + apply Qlt_bool_iff in E. split; [|by apply IH].
      apply Forall_forall. intros z Hz.
      rewrite insert_by_score_perm in Hz. apply elem_of_cons in Hz as [->|Hz].
      * by apply Qlt_le_weak.
      * rewrite Forall_forall in Hy. by apply Hy.
    + apply Qlt_bool_false in E. split; [|by split].
      constructor; [done|]. eapply Forall_impl; [exact Hy|].
      intros z Hz. simpl in Hz. by eapply Qle_trans.
Qed.

Lemma insert_by_score_filter (q : Q) (x : prediction) (l : list prediction) :
  filter (λ p : prediction, Qeq_bool p.2 q = true) (insert_by_score x l)
  = filter (λ p : prediction, Qeq_bool p.2 q = true) (x :: l).
Proof.
  induction l as [|y l IH]; [done|]. cbn [insert_by_score].
  destruct (Qlt_bool x.2 y.2) eqn:E; [|done].
  rewrite filter_cons, IH, !filter_cons.
  destruct (decide (Qeq_bool y.2 q = true)) as [Hy|Hy]; [|done].
  destruct (decide (Qeq_bool x.2 q = true)) as [Hx|Hx]; [|done].
  apply Qlt_bool_iff in E. apply Qeq_bool_iff in Hx, Hy.
  rewrite Hx, Hy in E. by apply Qlt_irrefl in E.
Qed.

(** X13.  The TSV file lists the predictions by score, the greatest first,
    and the predictions of one score in the order they have in the
    alignment; each prediction has one line. *)
Theorem write_alignment_to_tsv_order (str_of_float : Q → string)
    (alignment : list prediction) :
  ∃ l, _write_alignment_to_tsv str_of_float alignment
       = String.concat EmptyString (tsv_line str_of_float <$> l)
    ∧ l ≡ₚ alignment
    ∧ descending l
    ∧ ∀ q, filter (λ p : prediction, Qeq_bool p.2 q = true) l
           = filter (λ p : prediction, Qeq_bool p.2 q = true) alignment.
Proof.
  exists (sorted_by_score alignment). split; [done|].
  split; [apply sorted_by_score_perm|]. unfold sorted_by_score. split.
  - induction alignment as [|x l IH]; [done|].
    cbn [foldr]. by apply insert_by_score_descending.
  - intros q. induction alignment as [|x l IH]; [done|].
    cbn [foldr]. rewrite insert_by_score_filter, !filter_cons, IH. done.
Qed.

(** ** The loops of [align] *)

Section aligning.
Variable normalize_string : string → string.
Variable tokenize_string : string → list string.
Variable stem : string → string.
Variable lemmatize : string → string.
Variable get_character_n_grams : string → nat → list string.
Variable NGRAM_SIZE : nat.
Variable select_candidates : KnowledgeBase → KnowledgeBase → string → list string.
Variable predict_entity_pair : list features → list (list Q).
Variable SCORE_THRESHOLD : Q.
Variable KEEP_TOP_K_CANDIDATES : nat.

Local Abbreviation init :=
  (FeatureGenerator.init normalize_string tokenize_string stem lemmatize
     get_character_n_grams NGRAM_SIZE).
Local Abbreviation align_candidate :=
  (align_candidate predict_entity_pair SCORE_THRESHOLD).
Local Abbreviation align_predictions :=
  (align_predictions select_candidates predict_entity_pair
     SCORE_THRESHOLD KEEP_TOP_K_CANDIDATES).
Local Abbreviation candidate_pairs :=
  (candidate_pairs select_candidates KEEP_TOP_K_CANDIDATES).
Local Abbreviation pair_of := (λ p : prediction, (p.1.1, p.1.2)).

Lemma align_candidate_inv fg s t (acc acc' : list prediction) :
  align_candidate fg s t acc = Ok acc' →
  acc' = acc ∨ ∃ p, acc' = (acc ++ [(s, t, p)])%list ∧ (SCORE_THRESHOLD <= p)%Q.
Proof.
  unfold OntoEmma.align_candidate. intros H.
  apply bind_inv in H as (f & _ & H). apply bind_inv in H as (p & _ & H).
  destruct (Qle_bool SCORE_THRESHOLD p) eqn:E; injection H as <-; [|by left].
  right. exists p. split; [done|]. by apply Qle_bool_iff.
Qed.

Lemma align_candidates_sublist fg s (ts : list string) (acc acc' : list prediction) :
  for_each (align_candidate fg s) ts acc = Ok acc' →
  ∃ new, acc' = (acc ++ new)%list
    ∧ pair_of <$> new `sublist_of` (λ t, (s, t)) <$> ts.
Proof.
  revert acc. induction ts as [|t ts IH]; intros acc; simpl.
  - intros [= <-]. exists []. by rewrite app_nil_r.
  - intros H. apply bind_inv in H as (acc1 & H1 & H).
    destruct (IH _ H) as (new & -> & Hsub).
    apply align_candidate_inv in H1 as [->|(p & -> & _)].
    + exists new. split; [done|]. by apply sublist_cons.
    + exists ((s, t, p) :: new). split; [by rewrite <- app_assoc|].
      rewrite fmap_cons. by apply sublist_skip.
Qed.

Lemma align_entities_sublist fg s_kb t_kb (ents : list Entity)
    (acc acc' : list prediction) :
  for_each (λ s_ent,
      for_each (align_candidate fg (research_entity_id s_ent))
        (take KEEP_TOP_K_CANDIDATES
           (select_candidates s_kb t_kb (research_entity_id s_ent)))) ents acc
  = Ok acc' →
  ∃ new, acc' = (acc ++ new)%list
    ∧ pair_of <$> new
      `sublist_of` (ents ≫= λ s_ent,
                      (λ t, (research_entity_id s_ent, t))
                        <$> take KEEP_TOP_K_CANDIDATES
                              (select_candidates s_kb t_kb (research_entity_id s_ent))).
Proof.
  revert acc. induction ents as [|s_ent ents IH]; intros acc; simpl.
  - intros [= <-]. exists []. by rewrite app_nil_r.
  - intros H. apply bind_inv in H as (acc1 & H1 & H).
    destruct (IH _ H) as (new & -> & Hsub).
    apply align_candidates_sublist in H1 as (new1 & -> & Hsub1).
    exists (new1 ++ new)%list. split; [by rewrite <- app_assoc|].
    rewrite fmap_app. by apply sublist_app.
Qed.

(** X14.  The alignment lists its pairs in the order in which the loops
    visit them: the entities of the source in their order, and for each the
    first [KEEP_TOP_K_CANDIDATES] candidates in their order.  So it has at
    most [KEEP_TOP_K_CANDIDATES] triples for each entity of the source. *)
Theorem align_predictions_in_order fg s_kb t_kb alignment :
  align_predictions fg s_kb t_kb = Ok alignment →
  pair_of <$> alignment `sublist_of` candidate_pairs s_kb t_kb
  ∧ (length alignment ≤ length (entities s_kb) * KEEP_TOP_K_CANDIDATES)%nat.
Proof.
  unfold OntoEmma.align_predictions. intros H.
  apply align_entities_sublist in H as (new & -> & Hsub). rewrite app_nil_l.
  split; [exact Hsub|].
  apply sublist_length in Hsub. rewrite length_fmap in Hsub.
  etrans; [exact Hsub|]. clear. induction (entities s_kb) as [|s_ent ents IH]; [done|].
  cbn [mbind list_bind]. rewrite length_app, length_fmap, length_take. simpl. lia.
Qed.

Lemma align_candidate_cases s_kb t_kb fg s t (acc : list prediction) :
  init s_kb t_kb = Ok fg →
  returns (align_candidate fg s t acc) ∨ align_candidate fg s t acc = Raise LookupError.
Proof.
  intros Hinit. unfold OntoEmma.align_candidate.
  destruct (calculate_features_cases _ _ _ _ _ _ _ _ _ s t Hinit)
    as [(_ & _ & [f ->])|[_ ->]]; [|by right].
  rewrite bind_Ok.
  destruct (predict_entity_pair [f] !! 0%nat ≫= (.!! 1%nat)) as [p|]; [|by right].
  left. simpl. destruct (Qle_bool _ _); apply returns_Ok.
Qed.

Lemma for_each_cases {A S} (body : A → S → result S) (l : list A) (st : S) (e : exn) :
  (∀ x st', x ∈ l → returns (body x st') ∨ body x st' = Raise e) →
  returns (for_each body l st) ∨ for_each body l st = Raise e.
Proof.
  revert st. induction l as [|x l IH]; intros st Hall; simpl.
  - left. apply returns_Ok.
  - destruct (Hall x st) as [[st' ->]| ->]; [left| |by right].
    rewrite bind_Ok. apply IH. intros y st'' Hy. apply Hall. by right.
Qed.

(** X15.  The only exception that the loops of [align] raise is that of a
    lookup: the [KeyError] of a candidate that is no entity of the target,
    or the [IndexError] of an answer of the classifier without a second
    probability.  A candidate among the first [KEEP_TOP_K_CANDIDATES] of an
    entity of the source that is no entity of the target makes the loops
    raise it. *)
Theorem align_predictions_unknown_candidate s_kb t_kb fg :
  init s_kb t_kb = Ok fg →
  (∀ e, align_predictions fg s_kb t_kb = Raise e → e = LookupError)
  ∧ ((∃ s_ent t_ent_id,
        s_ent ∈ entities s_kb
        ∧ t_ent_id ∈ take KEEP_TOP_K_CANDIDATES
                       (select_candidates s_kb t_kb (research_entity_id s_ent))
        ∧ t_ent_id ∉ research_entity_id <$> entities t_kb) →
     align_predictions fg s_kb t_kb = Raise LookupError).
Proof.
  intros Hinit. unfold OntoEmma.align_predictions.
  assert (∀ (s_ent : Entity) (acc : list prediction),
    returns (for_each (align_candidate fg (research_entity_id s_ent))
               (take KEEP_TOP_K_CANDIDATES
                  (select_candidates s_kb t_kb (research_entity_id s_ent))) acc)
    ∨ for_each (align_candidate fg (research_entity_id s_ent))
        (take KEEP_TOP_K_CANDIDATES
           (select_candidates s_kb t_kb (research_entity_id s_ent))) acc
      = Raise LookupError) as Hinner.
  { intros s_ent acc. apply for_each_cases. intros t acc' _.
    by eapply align_candidate_cases. }
  split.
  - intros e He.
    destruct (for_each_cases
      (λ s_ent, for_each (align_candidate fg (research_entity_id s_ent))
         (take KEEP_TOP_K_CANDIDATES
            (select_candidates s_kb t_kb (research_entity_id s_ent))))
      (entities s_kb) [] LookupError) as [[al Hal]|Hraise].
    + intros s_ent acc _. apply Hinner.
    + congruence.
    + congruence.
  - intros (s_ent & t & Hs & Ht & Hunknown).
    apply for_each_raise.
    + intros s_ent' acc _. apply Hinner.
    + exists s_ent. split; [done|]. intros acc.
      apply for_each_raise.
      * intros t' acc' _. by eapply align_candidate_cases.
      * exists t. split; [done|]. intros acc'. unfold OntoEmma.align_candidate.
        destruct (calculate_features_cases _ _ _ _ _ _ _ _ _
                    (research_entity_id s_ent) t Hinit)
          as [(_ & Hin & _)|[_ ->]]; [done|reflexivity].
Qed.

End aligning.

Lemma load_alignment_from_tsv_records_witness :
  returns (_load_alignment_from_tsv Examples.float_of_string
             (tsv_text Examples.gold_rows))
  ∧ _load_alignment_from_tsv Examples.float_of_string
      (tsv_text (Examples.gold_rows ++ [Examples.short_row]))
    = Raise ValueError.
Proof.
  split.
  - apply (load_alignment_from_tsv_records Examples.float_of_string Examples.gold_rows).
    + repeat constructor.
    + repeat constructor; eexists _, _, _, _; (split; [reflexivity|]);
        eexists; vm_compute; reflexivity.
  - apply (load_alignment_from_tsv_records Examples.float_of_string
             (Examples.gold_rows ++ [Examples.short_row])).
    + repeat constructor.
    + apply Exists_exists. exists Examples.short_row. split.
      * apply (bool_decide_unpack _). vm_compute. exact I.
      * left. vm_compute. lia.
Defined.

Lemma evaluate_alignment_gold_positives_witness :
  (∃ gp, ("S:1", "T:1") ∈ gp
         ∧ evaluate_alignment Examples.float_of_string Examples.gold_one
             Examples.predicted Examples.s_kb Examples.t_kb
           = evaluate_against gp Examples.predicted Examples.s_kb Examples.t_kb)
  ∧ evaluate_alignment Examples.float_of_string Examples.gold_equals
      Examples.predicted Examples.s_kb Examples.t_kb
    = Raise ValueError
  ∧ Examples.float_of_string EmptyString = None
  ∧ evaluate_alignment Examples.float_of_string
      (TsvFile (tsv_text [["S:1"; "T:1"; EmptyString; "gold"]]))
      Examples.predicted Examples.s_kb Examples.t_kb
    = Raise ValueError.
Proof.
  split_and!.
  - destruct (evaluate_alignment_gold_positives Examples.float_of_string
                Examples.gold_one Examples.predicted Examples.s_kb Examples.t_kb)
      as (_ & Hloaded & _ & _).
    destruct (Hloaded [("S:1", "T:1", MText "1.0")]) as [Hparse _];
      [vm_compute; reflexivity|].
    destruct Hparse as (gp & Hin & Hrun).
    + constructor; [|constructor]. right. eexists. vm_compute. reflexivity.
    + exists gp. split; [|exact Hrun]. apply Hin.
      exists (MText "1.0"). split; [left|].
      exists 1%Q. split; [vm_compute; reflexivity|reflexivity].
  - destruct (evaluate_alignment_gold_positives Examples.float_of_string
                Examples.gold_equals Examples.predicted Examples.s_kb Examples.t_kb)
      as (_ & Hloaded & _ & _).
    destruct (Hloaded [("S:1", "T:1", MText "=")]) as [_ Hfail];
      [vm_compute; reflexivity|].
    apply Hfail. left. intros [Heq|[x Hx]]; [discriminate|].
    vm_compute in Hx. discriminate.
  - vm_compute. reflexivity.
  - destruct (evaluate_alignment_gold_positives Examples.float_of_string
                (TsvFile (tsv_text [["S:1"; "T:1"; EmptyString; "gold"]]))
                Examples.predicted Examples.s_kb Examples.t_kb)
      as (_ & _ & _ & Hrows).
    apply (Hrows [["S:1"; "T:1"; EmptyString; "gold"]]); [reflexivity| |].
    + constructor; [vm_compute; reflexivity|constructor].
    + left. exists EmptyString. split; vm_compute; reflexivity.
Defined.

Lemma evaluate_alignment_pairs_only_witness :
  evaluate_alignment Examples.float_of_string Examples.gold_one
    Examples.predicted Examples.s_kb Examples.t_kb
  = evaluate_alignment Examples.float_of_string Examples.gold_one
      Examples.predicted_twice Examples.s_kb Examples.t_kb.
Proof.
  apply (evaluate_alignment_pairs_only Examples.float_of_string Examples.gold_one
           Examples.predicted Examples.predicted_twice Examples.s_kb Examples.t_kb).
  intros s t. unfold Examples.predicted, Examples.predicted_twice. split.
  - intros [p Hp]. apply list_elem_of_singleton in Hp. injection Hp as -> -> ->.
    exists (9 # 10). right. left.
  - intros [p Hp]. exists (9 # 10). apply list_elem_of_singleton.
    apply elem_of_cons in Hp as [Hp|Hp]; [by injection Hp as -> -> ->|].
    apply list_elem_of_singleton in Hp. by injection Hp as -> -> ->.
Defined.

Lemma evaluate_alignment_scores_witness :
  ∃ outf precision recall f1,
    evaluate_alignment Examples.float_of_string Examples.gold_one
      Examples.two_predictions Examples.s_kb Examples.t_kb
    = Ok (outf, (Some precision, Some recall, Some f1))
    ∧ (precision == 1 # 2)%Q ∧ (recall == 1)%Q ∧ (0 < f1)%Q ∧ (f1 <= 1)%Q.
Proof.
  destruct (evaluate_alignment_scores Examples.float_of_string Examples.gold_one
              Examples.two_predictions Examples.s_kb Examples.t_kb
              [("S:1", "T:1", MText "1.0")] {[("S:1", "T:1")]})
    as (outf & precision & recall & f1_score & Hrun & Hp & Hr & _ & _ & _ & Hf1).
  - vm_compute. reflexivity.
  - vm_compute. reflexivity.
  - discriminate.
  - apply (bool_decide_unpack _). vm_compute. exact I.
  - destruct Hf1 as (f1 & -> & Hpos & Hle).
    { apply (bool_decide_unpack _). vm_compute. exact I. }
    exists outf, precision, recall, f1. split_and!; [exact Hrun| | |exact Hpos|exact Hle].
    + eapply Qeq_trans; [exact Hp|]. vm_compute. reflexivity.
    + eapply Qeq_trans; [exact Hr|]. vm_compute. reflexivity.
Defined.

Lemma evaluate_alignment_missed_witness :
  length Examples.evaluation.1 = 1%nat
  ∧ ∀ r, Examples.evaluation.2.1.2 = Some r → ¬ (r == 1)%Q.
Proof.
  destruct (evaluate_alignment_missed Examples.float_of_string Examples.gold_two
              Examples.predicted Examples.s_kb Examples.t_kb
              [("S:1", "T:1", MText "1.0"); ("S:2", "T:2", MText "0.8")]
              {[("S:1", "T:1"); ("S:2", "T:2")]}
              Examples.evaluation.1 Examples.evaluation.2.1.1
              Examples.evaluation.2.1.2 Examples.evaluation.2.2)
    as (_ & Hlen & Hrecall).
  - vm_compute. reflexivity.
  - vm_compute. reflexivity.
  - vm_cast_no_check (eq_refl (Ok Examples.evaluation)).
  - assert (length Examples.evaluation.1 = 1%nat) as Hone.
    { rewrite Hlen. vm_compute. reflexivity. }
    split; [exact Hone|]. intros r Hr Heq.
    pose proof (proj1 (Hrecall r Hr) Heq) as Hnil.
    assert (1 = 0)%nat as Hfalse; [|discriminate Hfalse].
    etrans; [symmetry; exact Hone|exact (f_equal length Hnil)].
Defined.

Lemma write_alignment_to_tsv_order_witness :
  ∃ l, _write_alignment_to_tsv Examples.str_of_float Examples.tie_predictions
       = String.concat EmptyString (tsv_line Examples.str_of_float <$> l)
    ∧ descending l
    ∧ filter (λ p : prediction, Qeq_bool p.2 (1 # 2) = true) l
      = [("a", "b", 1 # 2); ("e", "f", 1 # 2)].
Proof.
  destruct (write_alignment_to_tsv_order Examples.str_of_float Examples.tie_predictions)
    as (l & Hl & _ & Hsorted & Hstable).
  exists l. split_and!; [exact Hl|exact Hsorted|].
  etrans; [apply Hstable|]. vm_compute. reflexivity.
Defined.

Lemma align_predictions_in_order_witness :
  (λ p : prediction, (p.1.1, p.1.2)) <$> Examples.alignment
    `sublist_of` candidate_pairs Examples.select_candidates
                   Examples.KEEP_TOP_K_CANDIDATES Examples.s_kb Examples.t_kb
  ∧ (length Examples.alignment ≤ 3 * 2)%nat.
Proof.
  apply (align_predictions_in_order Examples.select_candidates
           Examples.predict_entity_pair Examples.SCORE_THRESHOLD
           Examples.KEEP_TOP_K_CANDIDATES Examples.feat_gen
           Examples.s_kb Examples.t_kb Examples.alignment).
  vm_cast_no_check (eq_refl (Ok Examples.alignment)).
Defined.

Lemma align_predictions_unknown_candidate_witness :
  align_predictions Examples.unknown_candidates Examples.predict_entity_pair
    Examples.SCORE_THRESHOLD Examples.KEEP_TOP_K_CANDIDATES
    Examples.feat_gen Examples.s_kb Examples.t_kb
  = Raise LookupError.
Proof.
  apply (align_predictions_unknown_candidate
           Examples.normalize_string Examples.tokenize_string Examples.stem
           Examples.lemmatize Examples.get_character_n_grams Examples.NGRAM_SIZE
           Examples.unknown_candidates Examples.predict_entity_pair
           Examples.SCORE_THRESHOLD Examples.KEEP_TOP_K_CANDIDATES
           Examples.s_kb Examples.t_kb Examples.feat_gen).
  - vm_compute. reflexivity.
  - exists Examples.heart, "T:9". split_and!.
    + left.
    + right. left.
    + apply (bool_decide_unpack _). vm_compute. exact I.
Defined.

End OntoEmmaFacts.

(** * Training *)

Module TrainingFacts.
Import OntoEmma FeatureGeneratorProps.

Lemma elem_of_combinations (l : list string) (a b : string) :
  (a, b) ∈ combinations l
  ↔ ∃ i j, (i < j)%nat ∧ l !! i = Some a ∧ l !! j = Some b.
Proof.
  induction l as [|x l IH]; simpl.
  - split; [by intros ?%elem_of_nil|]. by intros (i & j & _ & ? & _).
  - rewrite elem_of_app, list_elem_of_fmap, IH. split.
    + intros [(y & [= -> ->] & Hy)|(i & j & Hij & Hi & Hj)].
      * apply list_elem_of_lookup in Hy as [j Hj].
        exists 0%nat, (S j). split_and!; [lia|done..].
      * exists (S i), (S j). split_and!; [lia|done..].
    + intros (i & j & Hij & Hi & Hj). destruct i as [|i].
      * injection Hi as ->. destruct j as [|j]; [lia|]. left.
        exists b. split; [done|]. by eapply list_elem_of_lookup_2.
      * destruct j as [|j]; [lia|]. right. exists i, j. split_and!; [lia|done..].
Qed.

Lemma length_combinations (l : list string) :
  (2 * length (combinations l) = length l * (length l - 1))%nat.
Proof.
  induction l as [|x l IH]; [done|].
  cbn [combinations length]. rewrite length_app, length_fmap. nia.
Qed.

Lemma elem_of_kb_matches (a b : string) (pairs : list (string * string)) (i : nat) :
  i ∈ kb_matches a b pairs
  ↔ ∃ p, pairs !! i = Some p ∧ startswith p.1 a = true ∧ startswith p.2 b = true.
Proof.
  unfold kb_matches, enumerate. rewrite list_elem_of_omap. split.
  - intros ([j p] & Hin & Hsome). apply elem_of_lookup_imap in Hin as (j' & p' & [= <- <-] & Hp).
    cbn [fst snd] in Hsome.
    destruct (startswith p.1 a) eqn:Ha; [|done].
    destruct (startswith p.2 b) eqn:Hb; [|done].
    injection Hsome as <-. by exists p.
  - intros (p & Hp & Ha & Hb). exists (i, p). split.
    + apply elem_of_lookup_imap. by exists i, p.
    + cbn [fst snd]. by rewrite Ha, Hb.
Qed.

Section training_facts.
Variable float_of_string : string → option Q.
Variable normalize_string : string → string.
Variable tokenize_string : string → list string.
Variable stem : string → string.
Variable lemmatize : string → string.
Variable get_character_n_grams : string → nat → list string.
Variable NGRAM_SIZE : nat.
Variable TRAINING_KBS : list string.
Variable MIN_TRAINING_SET_SIZE : nat.
Variable new_KnowledgeBase : KnowledgeBase.
Variable load : string → result KnowledgeBase.

Local Abbreviation init :=
  (FeatureGenerator.init normalize_string tokenize_string stem lemmatize
     get_character_n_grams NGRAM_SIZE).
Local Abbreviation load_alignment := (load_alignment float_of_string).
Local Abbreviation _get_kb_fnames := (_get_kb_fnames TRAINING_KBS).
Local Abbreviation __init__ := (__init__ TRAINING_KBS).
Local Abbreviation train_kb_pair :=
  (train_kb_pair normalize_string tokenize_string stem lemmatize
     get_character_n_grams NGRAM_SIZE MIN_TRAINING_SET_SIZE load).
Local Abbreviation train :=
  (train float_of_string normalize_string tokenize_string stem lemmatize
     get_character_n_grams NGRAM_SIZE MIN_TRAINING_SET_SIZE new_KnowledgeBase load).
Local Abbreviation pairs_of_data :=
  (fmap (M := list) (λ m : string * string * measure, (m.1.1, m.1.2))).

(** ** The roster of knowledge bases *)

Lemma setdefault_paths (kb_dir : string) (names : list string)
    (paths : gmap string string) (kb_name : string) :
  (∀ n p, paths !! n = Some p → p = path_join kb_dir ("kb-" +:+ n +:+ ".json")) →
  (kb_name ∈ names ∨ is_Some (paths !! kb_name)) →
  foldl (λ paths kb_name,
           setdefault kb_name (path_join kb_dir ("kb-" +:+ kb_name +:+ ".json")) paths)
        paths names !! kb_name
  = Some (path_join kb_dir ("kb-" +:+ kb_name +:+ ".json")).
Proof.
  revert paths. induction names as [|n names IH]; intros paths Hpaths Hin; simpl.
  - destruct Hin as [Hin|[p Hp]]; [by apply elem_of_nil in Hin|].
    rewrite Hp. f_equal. by apply Hpaths.
  - apply IH.
    + intros n' p. unfold setdefault.
      destruct (paths !! n) eqn:Hn; [apply Hpaths|].
      destruct (decide (n = n')) as [->|Hne].
      * rewrite lookup_insert_eq. by intros [= <-].
      * rewrite lookup_insert_ne by done. apply Hpaths.
    + unfold setdefault. destruct (decide (n = kb_name)) as [->|Hne].
      * right. destruct (paths !! kb_name) eqn:Hn; [by rewrite Hn|].
        rewrite lookup_insert_eq. by eexists.
      * destruct Hin as [Hin|Hin].
        -- apply elem_of_cons in Hin as [->|Hin]; [done|by left].
        -- right. destruct (paths !! n); [done|]. by rewrite lookup_insert_ne.
Qed.

(** X16.  A new matcher pairs every knowledge base of the roster with every
    one that comes after it in the roster, once for each two positions; and
    it has the path of the file of every knowledge base of the roster, so
    that the lookups of the paths in [train] succeed. *)
Theorem init_kb_pairs_and_paths (kb_dir : string) :
  (∀ a b, (a, b) ∈ kb_pairs (__init__ kb_dir)
          ↔ ∃ i j, (i < j)%nat ∧ TRAINING_KBS !! i = Some a
                   ∧ TRAINING_KBS !! j = Some b)
  ∧ (2 * length (kb_pairs (__init__ kb_dir))
     = length TRAINING_KBS * (length TRAINING_KBS - 1))%nat
  ∧ (∀ a b, (a, b) ∈ kb_pairs (__init__ kb_dir) →
       kb_file_paths (__init__ kb_dir) !! a
         = Some (path_join kb_dir ("kb-" +:+ a +:+ ".json"))
       ∧ kb_file_paths (__init__ kb_dir) !! b
         = Some (path_join kb_dir ("kb-" +:+ b +:+ ".json"))).
Proof.
  unfold OntoEmma.__init__, OntoEmma._get_kb_fnames. cbn [kb_pairs kb_file_paths OntoEmma.kb_dir].
  split_and!.
  - intros a b. apply elem_of_combinations.
  - apply length_combinations.
  - intros a b (i & j & _ & Hi & Hj)%elem_of_combinations.
    split; (apply setdefault_paths; [intros n p; by rewrite lookup_empty|left]);
      by eapply list_elem_of_lookup_2.
Qed.

(** ** The loop over the pairs of knowledge bases *)

Local Abbreviation kb_at_hand := (kb_at_hand new_KnowledgeBase load).
Local Abbreviation kb_for := (kb_for new_KnowledgeBase load).
Local Abbreviation load_if_necessary := (load_if_necessary load).
Local Abbreviation row_of_pair :=
  (row_of_pair normalize_string tokenize_string stem lemmatize
     get_character_n_grams NGRAM_SIZE new_KnowledgeBase load).

Lemma append_features_loop fg (pairs : list (string * string)) (idxs : list nat)
    (acc acc' : list features) :
  for_each (append_features fg pairs) idxs acc = Ok acc' →
  ∃ new, acc' = (acc ++ new)%list
    ∧ Forall2 (λ i f, i ∈ idxs
                 ∧ ∃ p, pairs !! i = Some p
                        ∧ FeatureGenerator.calculate_features fg p.1 p.2 = Ok f)
              idxs new.
Proof.
  revert acc. induction idxs as [|i idxs IH]; intros acc; simpl.
  - intros [= <-]. exists []. by rewrite app_nil_r.
  - intros H. apply bind_inv in H as (acc1 & H1 & H).
    destruct (IH _ H) as (new & -> & Hnew).
    unfold append_features in H1.
    apply bind_inv in H1 as (p & Hp & H1). apply bind_inv in H1 as (f & Hf & [= <-]).
    destruct (pairs !! i) as [p'|] eqn:Hi; [|discriminate]. injection Hp as ->.
    exists (f :: new). split; [by rewrite <- app_assoc|]. constructor.
    + split; [left|]. by exists p.
    + eapply Forall2_impl; [exact Hnew|]. intros j g [Hj Hg]. split; [by right|done].
Qed.

Lemma for_kb_pairs_invariant (P : training → Prop)
    (body : string * string → training → result training)
    (kps rest : list (string * string)) (st st' : training) :
  P st →
  (∀ kp st1 st2, kp ∈ kps → P st1 → body kp st1 = Ok st2 → P st2) →
  for_kb_pairs body kps st = (rest, Ok st') →
  rest = [] ∧ P st'.
Proof.
  revert st. induction kps as [|kp kps IH]; intros st Hst Hbody; simpl.
  - by intros [= <- <-].
  - destruct (body kp st) as [st1|e] eqn:H1; [|discriminate].
    apply IH.
    + eapply Hbody; [left|exact Hst|exact H1].
    + intros kp' ? ? Hin. apply Hbody. by right.
Qed.

Lemma load_if_necessary_inv self kb kb_name kb' :
  kb_at_hand self kb →
  load_if_necessary self kb kb_name = Ok kb' →
  kb_for self kb_name kb' ∧ kb_at_hand self kb'.
Proof.
  intros Hkb. unfold OntoEmma.load_if_necessary. case_bool_decide as Hname.
  - intros H. apply bind_inv in H as (path & Hpath & Hload).
    destruct (kb_file_paths self !! kb_name) as [path'|] eqn:Hp; [|discriminate].
    injection Hpath as ->. split; [left|right]; eauto.
  - intros [= <-]. split; [|done]. right. split; [|done].
    by destruct (decide (name kb = kb_name)).
Qed.

Lemma train_kb_pair_inv self (tpairs dpairs : list (string * string)) kp st st' :
  train_kb_pair self tpairs dpairs kp st = Ok st' →
  ∃ tnew dnew tidx didx,
    training_ordered_indices st' = (training_ordered_indices st ++ tidx)%list
    ∧ training_features st' = (training_features st ++ tnew)%list
    ∧ dev_ordered_indices st' = (dev_ordered_indices st ++ didx)%list
    ∧ dev_features st' = (dev_features st ++ dnew)%list
    ∧ length tidx = length tnew
    ∧ length didx = length dnew
    ∧ tidx = (if bool_decide (MIN_TRAINING_SET_SIZE
                              < length (kb_matches kp.1 kp.2 tpairs))%nat
              then kb_matches kp.1 kp.2 tpairs else [])
    ∧ didx = (if bool_decide (MIN_TRAINING_SET_SIZE
                              < length (kb_matches kp.1 kp.2 tpairs))%nat
              then kb_matches kp.1 kp.2 dpairs else []).
Proof.
  unfold OntoEmma.train_kb_pair. destruct kp as [a b]. cbn [fst snd].
  case_bool_decide as Hmin.
  - intros H. apply bind_inv in H as (s_kb & _ & H).
    apply bind_inv in H as (t_kb & _ & H).
    apply bind_inv in H as (fg & Hfg & H).
    apply bind_inv in H as (tf & Htf & H).
    apply bind_inv in H as (df & Hdf & H). injection H as <-.
    cbn [training_ordered_indices training_features dev_ordered_indices dev_features].
    apply append_features_loop in Htf as (tnew & -> & Htnew).
    apply append_features_loop in Hdf as (dnew & -> & Hdnew).
    apply Forall2_length in Htnew, Hdnew.
    exists tnew, dnew, (kb_matches a b tpairs), (kb_matches a b dpairs).
    by split_and!.
  - intros [= <-]. exists [], [], [], []. rewrite !app_nil_r. by split_and!.
Qed.

(** The body of the loop keeps knowledge bases at hand, and the rows it adds
    are those of a generator made for the knowledge bases of the pair. *)
Lemma train_kb_pair_rows self (tpairs dpairs : list (string * string)) kp st st' :
  kp ∈ kb_pairs self →
  kb_at_hand self (loaded_s_kb st) → kb_at_hand self (loaded_t_kb st) →
  train_kb_pair self tpairs dpairs kp st = Ok st' →
  kb_at_hand self (loaded_s_kb st') ∧ kb_at_hand self (loaded_t_kb st')
  ∧ ∃ tnew dnew tidx didx,
      training_ordered_indices st' = (training_ordered_indices st ++ tidx)%list
      ∧ training_features st' = (training_features st ++ tnew)%list
      ∧ dev_ordered_indices st' = (dev_ordered_indices st ++ didx)%list
      ∧ dev_features st' = (dev_features st ++ dnew)%list
      ∧ Forall2 (row_of_pair self tpairs) tidx tnew
      ∧ Forall2 (row_of_pair self dpairs) didx dnew.
Proof.
  intros Hkp Hs Ht. unfold OntoEmma.train_kb_pair. destruct kp as [a b].
  case_bool_decide as Hmin.
  - intros H. apply bind_inv in H as (s_kb & Hs_kb & H).
    apply bind_inv in H as (t_kb & Ht_kb & H).
    apply bind_inv in H as (fg & Hfg & H).
    apply bind_inv in H as (tf & Htf & H).
    apply bind_inv in H as (df & Hdf & H). injection H as <-.
    apply load_if_necessary_inv in Hs_kb as [Hs_for Hs_hand]; [|done].
    apply load_if_necessary_inv in Ht_kb as [Ht_for Ht_hand]; [|done].
    cbn [loaded_s_kb loaded_t_kb training_ordered_indices training_features
         dev_ordered_indices dev_features].
    apply append_features_loop in Htf as (tnew & -> & Htnew).
    apply append_features_loop in Hdf as (dnew & -> & Hdnew).
    split; [done|]. split; [done|].
    exists tnew, dnew, (kb_matches a b tpairs), (kb_matches a b dpairs).
    split_and!; [done..| |].
    + eapply Forall2_impl; [exact Htnew|].
      intros i f [Hi (p & Hp & Hf)].
      apply elem_of_kb_matches in Hi as (p' & Hp' & Ha & Hb).
      rewrite Hp in Hp'. injection Hp' as <-.
      by exists p, a, b, s_kb, t_kb, fg.
    + eapply Forall2_impl; [exact Hdnew|].
      intros i f [Hi (p & Hp & Hf)].
      apply elem_of_kb_matches in Hi as (p' & Hp' & Ha & Hb).
      rewrite Hp in Hp'. injection Hp' as <-.
      by exists p, a, b, s_kb, t_kb, fg.
  - intros [= <-]. split; [done|]. split; [done|].
    exists [], [], [], []. rewrite !app_nil_r.
    split_and!; [done..|constructor|constructor].
Qed.

Lemma reorder_inv (labels : list measure) (idxs : list nat) (ordered : list measure) :
  reorder labels idxs = Ok ordered →
  Forall2 (λ i l, labels !! i = Some l) idxs ordered.
Proof.
  unfold reorder. intros H. apply mapM_result_Forall2 in H.
  eapply Forall2_impl; [exact H|]. intros i l Hl.
  cbv beta in Hl. revert Hl.
  destruct (labels !! i); simpl; [by intros [= ->]|discriminate].
Qed.

(** What a call of [train] that returns has gone through. *)
Lemma train_inv self training_data_file dev_data_file self' tf tl df dl :
  train self training_data_file dev_data_file = (self', Ok (tf, tl, df, dl)) →
  ∃ training_data dev_data st,
    load_alignment training_data_file = Ok training_data
    ∧ load_alignment dev_data_file = Ok dev_data
    ∧ for_kb_pairs (train_kb_pair self (pairs_of_data training_data)
                      (pairs_of_data dev_data))
        (kb_pairs self)
        {| loaded_s_kb := new_KnowledgeBase; loaded_t_kb := new_KnowledgeBase;
           training_ordered_indices := []; training_features := [];
           dev_ordered_indices := []; dev_features := [] |}
      = (kb_pairs self', Ok st)
    ∧ OntoEmma.kb_dir self' = OntoEmma.kb_dir self
    ∧ kb_file_paths self' = kb_file_paths self
    ∧ tf = training_features st ∧ df = dev_features st
    ∧ reorder (snd <$> training_data) (training_ordered_indices st) = Ok tl
    ∧ reorder (snd <$> dev_data) (dev_ordered_indices st) = Ok dl.
Proof.
  unfold OntoEmma.train.
  destruct (load_alignment training_data_file) as [training_data|e]; [|discriminate].
  destruct (load_alignment dev_data_file) as [dev_data|e]; [|discriminate].
  destruct (for_kb_pairs _ _ _) as [rest r] eqn:Hloop.
  intros [= <- H]. destruct r as [st|e]; [|discriminate].
  rewrite bind_Ok in H. apply bind_inv in H as (tl' & Htl & H).
  apply bind_inv in H as (dl' & Hdl & H). injection H as <- <- <- <-.
  exists training_data, dev_data, st. by split_and!.
Qed.

(** X17.  The features and the labels that [train] hands to the model go
    together: the two lists have the same length, and at each position the
    label is that of an example of the data and the features are those a
    generator has computed for the two ids of this example.  The two ids
    start with the names of a pair of knowledge bases of the matcher, and the
    generator was made for the two knowledge bases that [train] uses for
    these names: for each name the one that [load] returns for the path that
    [kb_file_paths] has for the name, or, when the knowledge base at hand has
    this name already, that one, which is the new [KnowledgeBase()] or was
    loaded from one of the paths of [kb_file_paths].  So it is for the
    development data. *)
Theorem train_features_with_labels self training_data_file dev_data_file
    training_data dev_data self' tf tl df dl :
  load_alignment training_data_file = Ok training_data →
  load_alignment dev_data_file = Ok dev_data →
  train self training_data_file dev_data_file = (self', Ok (tf, tl, df, dl)) →
  Forall2 (λ f l, ∃ i s_ent t_ent,
             training_data !! i = Some (s_ent, t_ent, l)
             ∧ row_of_pair self (pairs_of_data training_data) i f) tf tl
  ∧ Forall2 (λ f l, ∃ i s_ent t_ent,
               dev_data !! i = Some (s_ent, t_ent, l)
               ∧ row_of_pair self (pairs_of_data dev_data) i f) df dl.
Proof.
  intros Ht Hd H. apply train_inv in H
    as (td & dd & st & Ht' & Hd' & Hloop & _ & _ & -> & -> & Htl & Hdl).
  rewrite Ht in Ht'. injection Ht' as <-. rewrite Hd in Hd'. injection Hd' as <-.
  apply (for_kb_pairs_invariant (λ st,
    kb_at_hand self (loaded_s_kb st) ∧ kb_at_hand self (loaded_t_kb st)
    ∧ Forall2 (row_of_pair self (pairs_of_data training_data))
        (training_ordered_indices st) (training_features st)
    ∧ Forall2 (row_of_pair self (pairs_of_data dev_data))
        (dev_ordered_indices st) (dev_features st))) in Hloop
    as [_ (_ & _ & Htf & Hdf)].
  - apply reorder_inv in Htl, Hdl. split.
    + apply Forall2_flip in Htf.
      assert (Forall2 (λ f l, ∃ i,
        row_of_pair self (pairs_of_data training_data) i f
        ∧ (snd <$> training_data) !! i = Some l) (training_features st) tl) as Hboth.
      { revert Htl. generalize tl. induction Htf as [|f i fs idxs Hf _ IH];
          intros tl' Htl'; inversion Htl'; subst; constructor; [by exists i|by apply IH]. }
      eapply Forall2_impl; [exact Hboth|]. intros f l (i & Hrow & Hl).
      rewrite list_lookup_fmap in Hl.
      destruct (training_data !! i) as [[[s t] l']|] eqn:Hi; [|done].
      injection Hl as <-. by exists i, s, t.
    + apply Forall2_flip in Hdf.
      assert (Forall2 (λ f l, ∃ i,
        row_of_pair self (pairs_of_data dev_data) i f
        ∧ (snd <$> dev_data) !! i = Some l) (dev_features st) dl) as Hboth.
      { revert Hdl. generalize dl. induction Hdf as [|f i fs idxs Hf _ IH];
          intros dl' Hdl'; inversion Hdl'; subst; constructor; [by exists i|by apply IH]. }
      eapply Forall2_impl; [exact Hboth|]. intros f l (i & Hrow & Hl).
      rewrite list_lookup_fmap in Hl.
      destruct (dev_data !! i) as [[[s t] l']|] eqn:Hi; [|done].
      injection Hl as <-. by exists i, s, t.
  - cbn [loaded_s_kb loaded_t_kb training_ordered_indices training_features
         dev_ordered_indices dev_features].
    split_and!; [by left|by left|constructor|constructor].
  - intros kp st1 st2 Hkp (Hs1 & Ht1 & H1 & H2) Hbody.
    apply train_kb_pair_rows in Hbody
      as (Hs2 & Ht2 & tnew & dnew & tidx & didx & -> & -> & -> & -> & Hrt & Hrd);
      [|done..].
    split_and!; [done|done|by apply Forall2_app..].
Qed.

(** X18.  The pairs of knowledge bases of a matcher are an iterator, which
    a call of [train] that returns has used up: the matcher it leaves has no
    pair left, and a second call of [train] on it hands no features and no
    labels to the model, whatever the data. *)
Theorem train_uses_up_kb_pairs self training_data_file dev_data_file self' r :
  train self training_data_file dev_data_file = (self', Ok r) →
  kb_pairs self' = []
  ∧ ∀ training_data_file' dev_data_file',
      returns (load_alignment training_data_file') →
      returns (load_alignment dev_data_file') →
      train self' training_data_file' dev_data_file' = (self', Ok ([], [], [], [])).
Proof.
  destruct r as [[[tf tl] df] dl]. intros H.
  apply train_inv in H as (td & dd & st & _ & _ & Hloop & Hdir & Hpaths & _).
  apply (for_kb_pairs_invariant (λ _, True)) in Hloop as [Hrest _]; [|done..].
  split; [done|]. intros tfile dfile [td' Htd] [dd' Hdd].
  unfold OntoEmma.train. rewrite Htd, Hdd, Hrest. cbn [for_kb_pairs].
  destruct self' as [d p k]. cbn in *. by subst.
Qed.

(* Names the lengths and the sums of a goal, so that the arithmetic is over
   variables. *)
Ltac name_lengths :=
  repeat match goal with
    | |- context [sum_list ?l] =>
        let n := fresh "n" in set (n := sum_list l) in *; clearbody n
    | H : context [sum_list ?l] |- _ =>
        let n := fresh "n" in set (n := sum_list l) in *; clearbody n
    | |- context [length ?l] =>
        let n := fresh "n" in set (n := length l) in *; clearbody n
    | H : context [length ?l] |- _ =>
        let n := fresh "n" in set (n := length l) in *; clearbody n
    end.

(** X19.  A pair of knowledge bases contributes its examples only when more
    than [MIN_TRAINING_SET_SIZE] training examples match it: the number of
    rows of features handed to the model is the sum of the numbers of
    matching training examples of the pairs that pass this threshold, and
    the development examples are counted for the same pairs, whatever their
    own number. *)
Theorem train_counts self training_data_file dev_data_file
    training_data dev_data self' tf tl df dl :
  load_alignment training_data_file = Ok training_data →
  load_alignment dev_data_file = Ok dev_data →
  train self training_data_file dev_data_file = (self', Ok (tf, tl, df, dl)) →
  length tf
  = sum_list ((λ kp,
       if bool_decide (MIN_TRAINING_SET_SIZE
                       < length (kb_matches kp.1 kp.2 (pairs_of_data training_data)))%nat
       then length (kb_matches kp.1 kp.2 (pairs_of_data training_data)) else 0%nat)
      <$> kb_pairs self)
  ∧ length df
    = sum_list ((λ kp,
         if bool_decide (MIN_TRAINING_SET_SIZE
                         < length (kb_matches kp.1 kp.2 (pairs_of_data training_data)))%nat
         then length (kb_matches kp.1 kp.2 (pairs_of_data dev_data)) else 0%nat)
        <$> kb_pairs self)
  ∧ length tl = length tf ∧ length dl = length df.
Proof.
  intros Ht Hd H. apply train_inv in H
    as (td & dd & st & Ht' & Hd' & Hloop & _ & _ & -> & -> & Htl & Hdl).
  rewrite Ht in Ht'. injection Ht' as <-. rewrite Hd in Hd'. injection Hd' as <-.
  apply reorder_inv, Forall2_length in Htl, Hdl.
  assert (∀ kps st0 rest,
    for_kb_pairs (train_kb_pair self (pairs_of_data training_data)
                    (pairs_of_data dev_data)) kps st0 = (rest, Ok st) →
    length (training_features st)
    = (length (training_features st0)
       + sum_list ((λ kp,
           if bool_decide (MIN_TRAINING_SET_SIZE
                < length (kb_matches kp.1 kp.2 (pairs_of_data training_data)))%nat
           then length (kb_matches kp.1 kp.2 (pairs_of_data training_data))
           else 0%nat) <$> kps))%nat
    ∧ length (dev_features st)
      = (length (dev_features st0)
         + sum_list ((λ kp,
             if bool_decide (MIN_TRAINING_SET_SIZE
                  < length (kb_matches kp.1 kp.2 (pairs_of_data training_data)))%nat
             then length (kb_matches kp.1 kp.2 (pairs_of_data dev_data))
             else 0%nat) <$> kps))%nat
    ∧ length (training_ordered_indices st) + length (training_features st0)
      = length (training_ordered_indices st0) + length (training_features st)
    ∧ length (dev_ordered_indices st) + length (dev_features st0)
      = length (dev_ordered_indices st0) + length (dev_features st))%nat as Hcount.
  { clear. induction kps as [|kp kps IH]; intros st0 rest; cbn [for_kb_pairs].
    - intros [= _ <-]. simpl. lia.
    - destruct (train_kb_pair _ _ _ kp st0) as [st1|e] eqn:H1; [|discriminate].
      intros Hrest. destruct (IH _ _ Hrest) as (E1 & E2 & E3 & E4).
      apply train_kb_pair_inv in H1
        as (tnew & dnew & tidx & didx & F1 & F2 & F3 & F4 & Ht2 & Hd2 & Htidx & Hdidx).
      apply (f_equal length) in F1, F2, F3, F4. rewrite !length_app in F1, F2, F3, F4.
      apply (f_equal length) in Htidx, Hdidx.
      rewrite !fmap_cons.
      repeat match goal with
        | |- context [sum_list (?x :: ?l)] =>
            change (sum_list (x :: l)) with (x + sum_list l)%nat
        end.
      clear IH Hrest.
      destruct (bool_decide (MIN_TRAINING_SET_SIZE
                < length (kb_matches kp.1 kp.2 (pairs_of_data training_data)))%nat);
        cbn [length] in Htidx, Hdidx; name_lengths; lia. }
  destruct (Hcount _ _ _ Hloop) as (H1 & H2 & H3 & H4).
  clear Hcount Hloop Ht Hd.
  cbn [training_features dev_features training_ordered_indices dev_ordered_indices
       length] in *.
  name_lengths. split_and!; lia.
Qed.

End training_facts.

Lemma init_kb_pairs_and_paths_witness :
  ("S", "T") ∈ kb_pairs (OntoEmma.__init__ ["S"; "T"] "kbs")
  ∧ kb_file_paths (OntoEmma.__init__ ["S"; "T"] "kbs") !! "S"
    = Some (path_join "kbs" ("kb-" +:+ "S" +:+ ".json"))
  ∧ path_join "kbs" ("kb-" +:+ "S" +:+ ".json") = "kbs/kb-S.json".
Proof.
  destruct (init_kb_pairs_and_paths ["S"; "T"] "kbs") as (Hpairs & _ & Hpaths).
  assert (("S", "T") ∈ kb_pairs (OntoEmma.__init__ ["S"; "T"] "kbs")) as Hin.
  { apply Hpairs. exists 0%nat, 1%nat. split_and!; [lia|reflexivity..]. }
  split; [exact Hin|]. split; [exact (proj1 (Hpaths "S" "T" Hin))|reflexivity].
Defined.

Lemma train_features_with_labels_witness :
  Forall2 (λ f l, ∃ i s_ent t_ent,
             [("S:1", "T:1", MFloat 1); ("S:2", "T:1", MFloat 0)] !! i
               = Some (s_ent, t_ent, l)
             ∧ row_of_pair Examples.normalize_string Examples.tokenize_string
                 Examples.stem Examples.lemmatize Examples.get_character_n_grams
                 Examples.NGRAM_SIZE Examples.new_KnowledgeBase Examples.load
                 Examples.matcher [("S:1", "T:1"); ("S:2", "T:1")] i f)
          Examples.training_result.1.1.1 Examples.training_result.1.1.2
  ∧ Examples.training_result.1.1.2 = [MFloat 1; MFloat 0].
Proof.
  split; [|vm_compute; reflexivity].
  apply (train_features_with_labels
           Examples.float_of_string Examples.normalize_string
           Examples.tokenize_string Examples.stem Examples.lemmatize
           Examples.get_character_n_grams Examples.NGRAM_SIZE
           Examples.MIN_TRAINING_SET_SIZE Examples.new_KnowledgeBase Examples.load
           Examples.matcher Examples.training_file Examples.gold_two
           [("S:1", "T:1", MFloat 1); ("S:2", "T:1", MFloat 0)]
           [("S:1", "T:1", MText "1.0"); ("S:2", "T:2", MText "0.8")]
           Examples.trained.1
           Examples.training_result.1.1.1 Examples.training_result.1.1.2
           Examples.training_result.1.2 Examples.training_result.2).
  - vm_compute. reflexivity.
  - vm_compute. reflexivity.
  - vm_cast_no_check (eq_refl (Examples.trained.1, Ok Examples.training_result)).
Defined.

Lemma train_uses_up_kb_pairs_witness :
  kb_pairs Examples.matcher = [("S", "T")]
  ∧ kb_pairs Examples.trained.1 = []
  ∧ train Examples.float_of_string Examples.normalize_string
      Examples.tokenize_string Examples.stem Examples.lemmatize
      Examples.get_character_n_grams Examples.NGRAM_SIZE
      Examples.MIN_TRAINING_SET_SIZE Examples.new_KnowledgeBase Examples.load
      Examples.trained.1 Examples.training_file Examples.gold_two
    = (Examples.trained.1, Ok ([], [], [], [])).
Proof.
  split; [reflexivity|].
  destruct (train_uses_up_kb_pairs
              Examples.float_of_string Examples.normalize_string
              Examples.tokenize_string Examples.stem Examples.lemmatize
              Examples.get_character_n_grams Examples.NGRAM_SIZE
              Examples.MIN_TRAINING_SET_SIZE Examples.new_KnowledgeBase Examples.load
              Examples.matcher Examples.training_file Examples.gold_two
              Examples.trained.1 Examples.training_result) as [Hnone Hagain].
  - vm_cast_no_check (eq_refl (Examples.trained.1, Ok Examples.training_result)).
  - split; [exact Hnone|].
    apply Hagain; eexists; vm_compute; reflexivity.
Defined.

Lemma train_counts_witness :
  length Examples.training_result.1.1.1 = 2%nat
  ∧ length Examples.training_result.1.2 = 2%nat.
Proof.
  destruct (train_counts
              Examples.float_of_string Examples.normalize_string
              Examples.tokenize_string Examples.stem Examples.lemmatize
              Examples.get_character_n_grams Examples.NGRAM_SIZE
              Examples.MIN_TRAINING_SET_SIZE Examples.new_KnowledgeBase Examples.load
              Examples.matcher Examples.training_file Examples.gold_two
              [("S:1", "T:1", MFloat 1); ("S:2", "T:1", MFloat 0)]
              [("S:1", "T:1", MText "1.0"); ("S:2", "T:2", MText "0.8")]
              Examples.trained.1
              Examples.training_result.1.1.1 Examples.training_result.1.1.2
              Examples.training_result.1.2 Examples.training_result.2)
    as (Htf & Hdf & _).
  - vm_compute. reflexivity.
  - vm_compute. reflexivity.
  - vm_cast_no_check (eq_refl (Examples.trained.1, Ok Examples.training_result)).
  - split.
    + etrans; [exact Htf|]. vm_compute. reflexivity.
    + etrans; [exact Hdf|]. vm_compute. reflexivity.
Defined.

End TrainingFacts.

(** * More about the dataset reader *)

Module DatasetReaderFacts.
Import DatasetReader DatasetReaderProps.

Lemma universal_newlines_empty (s : string) :
  Csv.universal_newlines s = EmptyString → s = EmptyString.
Proof.
  destruct s as [|c s]; [done|]. cbn [Csv.universal_newlines].
  destruct (decide (c = Csv.CR)); [|discriminate].
  destruct s as [|c' s]; [discriminate|]. by destruct (decide (c' = Csv.LF)).
Qed.

Lemma split_lines_empty (s : string) : Csv.split_lines s = [] → s = EmptyString.
Proof.
  destruct s as [|c s]; [done|]. cbn [Csv.split_lines].
  destruct (decide (c = Csv.LF)); [discriminate|].
  by destruct (Csv.split_lines s).
Qed.

Lemma readlines_empty (content : string) :
  Csv.readlines content = [] ↔ content = EmptyString.
Proof.
  split; [|by intros ->]. unfold Csv.readlines.
  intros H%split_lines_empty. by apply universal_newlines_empty.
Qed.

Section reader_more.
Variable rng : Type.
Variable random_sample : list string → nat → rng → list string * rng.
Variable tokenize : string → list string.
Variable json_loads : string → result training_pair.
Variable fields_error : kb_entity → kb_entity → option string → rng → option exn.

Local Abbreviation sample_n := (sample_n rng random_sample).
Local Abbreviation text_to_instance := (text_to_instance rng random_sample tokenize).
Local Abbreviation read_line :=
  (read_line rng random_sample tokenize json_loads fields_error).
Local Abbreviation read := (read rng random_sample tokenize json_loads fields_error).

Lemma read_line_inv line st st' :
  read_line line st = Ok st' →
  ∃ tp, json_loads line = Ok tp
    ∧ fields_error (source_ent tp) (target_ent tp) (label tp) st.2 = None
    ∧ st' = (st.1 ++ [(text_to_instance (source_ent tp) (target_ent tp) (label tp)
                         st.2).1],
             (text_to_instance (source_ent tp) (target_ent tp) (label tp) st.2).2)%list.
Proof.
  unfold DatasetReader.read_line. intros H. apply bind_inv in H as (tp & Htp & H).
  exists tp. split; [done|].
  destruct (fields_error _ _ _ _) as [e|]; [discriminate|]. split; [done|].
  destruct (text_to_instance _ _ _ _) as [inst g]. by injection H as <-.
Qed.

Lemma read_line_raises line st e :
  read_line line st = Raise e →
  json_loads line = Raise e
  ∨ ∃ tp, json_loads line = Ok tp
      ∧ fields_error (source_ent tp) (target_ent tp) (label tp) st.2 = Some e.
Proof.
  unfold DatasetReader.read_line. destruct (json_loads line) as [tp|e'].
  - rewrite bind_Ok. intros H. right. exists tp. split; [done|].
    destruct (fields_error _ _ _ _) as [e'|]; [by injection H as ->|].
    by destruct (text_to_instance _ _ _ _).
  - intros [= ->]. by left.
Qed.

Lemma read_lines_length (lines : list string) (st st' : list (gmap string Field) * rng) :
  for_each read_line lines st = Ok st' →
  length st'.1 = (length st.1 + length lines)%nat.
Proof.
  revert st. induction lines as [|line lines IH]; intros st; simpl.
  - intros [= <-]. lia.
  - intros H. apply bind_inv in H as (st1 & H1 & H). rewrite (IH _ H).
    apply read_line_inv in H1 as (tp & _ & _ & ->).
    cbn [fst]. rewrite length_app. simpl. lia.
Qed.

(** X20.  [read] makes one instance of each line of the file, in the order
    of the lines, and returns them when every line can be decoded and the
    constructors of the fields accept its entities; the [ConfigurationError]
    is raised for the empty file and for no other one; any other exception
    is that of decoding a line or that of the constructors on the entities
    of a line. *)
Theorem read_one_instance_per_line (content : string) (g : rng) :
  (read content g = ConfigurationError ↔ content = EmptyString)
  ∧ (∀ instances g',
       read content g = Dataset instances g' →
       length instances = length (Csv.readlines content) ∧ instances ≠ [])
  ∧ (Forall (λ line, ∃ tp, json_loads line = Ok tp
               ∧ ∀ g0, fields_error (source_ent tp) (target_ent tp) (label tp) g0
                       = None)
            (Csv.readlines content) →
     content ≠ EmptyString →
     ∃ instances g', read content g = Dataset instances g')
  ∧ (∀ e, read content g = Raised e →
       ∃ line, line ∈ Csv.readlines content
         ∧ (json_loads line = Raise e
            ∨ ∃ tp g0, json_loads line = Ok tp
                ∧ fields_error (source_ent tp) (target_ent tp) (label tp) g0
                  = Some e)).
Proof.
  unfold DatasetReader.read.
  destruct (for_each read_line (Csv.readlines content) ([], g)) as [[insts g']|e] eqn:Hrun.
  - pose proof (read_lines_length _ _ _ Hrun) as Hlen. cbn [fst length] in Hlen.
    destruct insts as [|inst insts].
    + assert (content = EmptyString) as ->.
      { apply readlines_empty. apply length_zero_iff_nil. simpl in Hlen. lia. }
      split_and!; [done|discriminate|done|discriminate].
    + assert (content ≠ EmptyString) as Hne.
      { intros ->. simpl in Hlen. lia. }
      split_and!.
      * split; [discriminate|done].
      * intros ? ? [= <- <-]. split; [exact Hlen|discriminate].
      * intros _ _. by eexists _, _.
      * discriminate.
  - apply for_each_raise_inv in Hrun as (line & st & Hin & Hline).
    apply read_line_raises in Hline.
    split_and!.
    + split; [discriminate|]. intros ->. by apply elem_of_nil in Hin.
    + discriminate.
    + intros Hall _. rewrite Forall_forall in Hall.
      destruct (Hall line Hin) as (tp & Htp & Hnone).
      destruct Hline as [Hline|(tp' & Htp' & Hsome)]; [congruence|].
      assert (tp' = tp) as -> by congruence. by rewrite Hnone in Hsome.
    + intros ? [= <-]. exists line. split; [done|].
      destruct Hline as [Hline|(tp & Htp & Hsome)]; [by left|].
      right. by exists tp, st.2.
Qed.

End reader_more.

Lemma read_one_instance_per_line_witness :
  (∃ instances g',
     read nat Examples.random_sample Examples.tokenize_string Examples.json_loads
       Examples.fields_error Examples.pairs_file 7%nat = Dataset instances g'
     ∧ length instances = 2%nat)
  ∧ read nat Examples.random_sample Examples.tokenize_string Examples.json_loads
      Examples.fields_error Examples.bare_pairs_file 7%nat = Raised AssertionError.
Proof.
  split.
  - destruct (read_one_instance_per_line nat Examples.random_sample
                Examples.tokenize_string Examples.json_loads Examples.fields_error
                Examples.pairs_file 7%nat)
      as (_ & Hlen & Hrun & _).
    destruct Hrun as (instances & g' & Hrun).
    + repeat constructor; eexists; (split; [vm_compute; reflexivity|]);
        intros g0; reflexivity.
    + discriminate.
    + exists instances, g'. split; [exact Hrun|].
      destruct (Hlen instances g' Hrun) as [-> _]. vm_compute. reflexivity.
  - vm_compute. reflexivity.
Defined.

Section instance_fields.
Variable rng : Type.
Variable random_sample : list string → nat → rng → list string * rng.
Variable tokenize : string → list string.

Local Abbreviation sample_n := (sample_n rng random_sample).
Local Abbreviation text_to_instance := (text_to_instance rng random_sample tokenize).

(** [random.sample(population, k)] returns a list of [k] elements. *)
Hypothesis random_sample_length : ∀ l k g,
  (k ≤ length l)%nat → length (random_sample l k g).1 = k.

Lemma sample_n_length (l : list string) (n : nat) (g : rng) :
  length (sample_n (l, n) g).1 = (length l `min` n)%nat.
Proof.
  unfold DatasetReader.sample_n. cbn [fst snd]. case_bool_decide as Hle.
  - cbn [fst]. lia.
  - rewrite random_sample_length by lia. lia.
Qed.

Lemma relation_fields_length (l : list string) :
  list_field_length (relation_fields tokenize l) = Some (length l `max` 1)%nat.
Proof.
  unfold relation_fields. case_bool_decide as Hl.
  - unfold name_fields. cbn [list_field_length]. rewrite length_fmap.
    destruct l; [done|]. simpl. f_equal. lia.
  - destruct l; [|discriminate]. reflexivity.
Qed.

(** X21.  An instance has the same eleven fields for every pair of
    entities.  Its alias fields hold as many text fields as the entity has
    aliases, and at most 16; its parent and child fields hold as many as the
    entity has relations, at most 8, and never none: an entity without such
    relations gets the one text field of the placeholder. *)
Theorem text_to_instance_fields (s_ent t_ent : kb_entity) (label : option string)
    (g : rng) :
  dom (text_to_instance s_ent t_ent label g).1 = list_to_set field_names
  ∧ ((text_to_instance s_ent t_ent label g).1 !! "s_ent_aliases" ≫= list_field_length
     = Some (length (aliases s_ent) `min` 16)%nat)
  ∧ ((text_to_instance s_ent t_ent label g).1 !! "t_ent_aliases" ≫= list_field_length
     = Some (length (aliases t_ent) `min` 16)%nat)
  ∧ ((text_to_instance s_ent t_ent label g).1 !! "s_ent_parents" ≫= list_field_length
     = Some ((length (par_relations s_ent) `min` 8) `max` 1)%nat)
  ∧ ((text_to_instance s_ent t_ent label g).1 !! "t_ent_parents" ≫= list_field_length
     = Some ((length (par_relations t_ent) `min` 8) `max` 1)%nat)
  ∧ ((text_to_instance s_ent t_ent label g).1 !! "s_ent_children" ≫= list_field_length
     = Some ((length (chd_relations s_ent) `min` 8) `max` 1)%nat)
  ∧ ((text_to_instance s_ent t_ent label g).1 !! "t_ent_children" ≫= list_field_length
     = Some ((length (chd_relations t_ent) `min` 8) `max` 1)%nat).
Proof.
  unfold DatasetReader.text_to_instance.
  pose proof (sample_n_length (aliases s_ent) 16 g) as H1.
  destruct (sample_n (aliases s_ent, 16%nat) g) as [sa g1].
  pose proof (sample_n_length (aliases t_ent) 16 g1) as H2.
  destruct (sample_n (aliases t_ent, 16%nat) g1) as [ta g2].
  pose proof (sample_n_length (par_relations s_ent) 8 g2) as H3.
  destruct (sample_n (par_relations s_ent, 8%nat) g2) as [sp g3].
  pose proof (sample_n_length (par_relations t_ent) 8 g3) as H4.
  destruct (sample_n (par_relations t_ent, 8%nat) g3) as [tp g4].
  pose proof (sample_n_length (chd_relations s_ent) 8 g4) as H5.
  destruct (sample_n (chd_relations s_ent, 8%nat) g4) as [sc g5].
  pose proof (sample_n_length (chd_relations t_ent) 8 g5) as H6.
  destruct (sample_n (chd_relations t_ent, 8%nat) g5) as [tc g6].
  cbn [fst snd] in *. unfold fields_of. split_and!.
  - rewrite !dom_insert_L, dom_empty_L. unfold field_names. cbn [list_to_set].
    apply set_eq. intros k.
    rewrite !elem_of_union, !elem_of_singleton, elem_of_empty. tauto.
  - repeat (rewrite lookup_insert_ne by done). rewrite lookup_insert_eq.
    cbn [mbind option_bind list_field_length name_fields].
    by rewrite length_fmap, H1.
  - repeat (rewrite lookup_insert_ne by done). rewrite lookup_insert_eq.
    cbn [mbind option_bind list_field_length name_fields].
    by rewrite length_fmap, H2.
  - repeat (rewrite lookup_insert_ne by done). rewrite lookup_insert_eq.
    cbn [mbind option_bind]. by rewrite relation_fields_length, H3.
  - repeat (rewrite lookup_insert_ne by done). rewrite lookup_insert_eq.
    cbn [mbind option_bind]. by rewrite relation_fields_length, H4.
  - repeat (rewrite lookup_insert_ne by done). rewrite lookup_insert_eq.
    cbn [mbind option_bind]. by rewrite relation_fields_length, H5.
  - repeat (rewrite lookup_insert_ne by done). rewrite lookup_insert_eq.
    cbn [mbind option_bind]. by rewrite relation_fields_length, H6.
Qed.

End instance_fields.

Lemma text_to_instance_fields_witness :
  (text_to_instance nat Examples.random_sample Examples.tokenize_string
     Examples.long_entity Examples.short_entity None 7%nat).1
    !! "s_ent_aliases" ≫= list_field_length = Some 16%nat
  ∧ (text_to_instance nat Examples.random_sample Examples.tokenize_string
       Examples.long_entity Examples.short_entity None 7%nat).1
      !! "t_ent_children" ≫= list_field_length = Some 1%nat.
Proof.
  destruct (text_to_instance_fields nat Examples.random_sample
              Examples.tokenize_string example_random_sample_length
              Examples.long_entity Examples.short_entity None 7%nat)
    as (_ & Hsa & _ & _ & _ & _ & Htc).
  split; [exact Hsa|exact Htc].
Defined.

End DatasetReaderFacts.
